(** * qwglm fine-tuning subsystem: a shallow embedding and its properties

    The development follows the TypeScript sources under [src/lib/finetuning]:

    - [Queue]      : training-queue.ts      (class TrainingQueue)
    - [Weights]    : weight-updater.ts      (class WeightUpdater)
    - [LoRA]       : lora.ts                (class LoRAAdapter)
    - [LoRAF]      : lora.ts                (forward on Float32Array)
    - [Neurons]    : simulated-neurons.ts   (class SimulatedNeuralNetwork)
    - [Fast]       : fast-learner.ts        (class FastLearner)
    - [Engine]     : training-engine.ts     (class TrainingEngine)

    and, for the operations the modules above leave out:

    - [QueueOps]   : filterByQuality, getStats, and sequences of calls
    - [Batch]      : batch-manager.ts       (class BatchManager)
    - [WeightsOps] : exportWeights, and sequences of calls
    - [LoRAOps]    : backward, updateParameters, adamUpdate, mergeIntoBase
    - [NeuronOps]  : the wiring of the network, kept by every operation
    - [FastOps]    : recall, predict, and what learning keeps
    - [EngineOps]  : the rate at every step, and what a batch counts

    Conventions.  Counters, lengths and indices are [nat]; timestamps and the
    numeric values of priorities are [Z].  A JavaScript [Map] is an
    association list in insertion order, or a [gmap] where the order plays no
    role; a [Set<string>] is a [gset string].  [Date.now()] and
    [Math.random()] are inputs: a clock value passed to the operation, and an
    oracle [nat -> R] read through a counter.  Where the code only moves
    numbers around (WeightUpdater) they are primitive binary64 floats with
    the Float32Array store written out; where a property rests on the
    algebra of the formulas (LoRA, the schedule, the neurons, the fast
    learner) numbers are exact reals, so NaN, infinities and rounding are
    outside that model; the cosine similarity and the body of the
    adapter's [forward] are written once over their operations and read
    both ways. *)

From Stdlib Require Import ZArith List Bool Lia Reals Lra PrimFloat SpecFloat FloatOps
  DecimalString.
From stdpp Require Import base decidable list strings gmap.

Set Default Proof Using "Type".
Set Warnings "-clear-no-such-hyp,-abstract-large-number,-inexact-float".

(* ===================================================================== *)
(** ** Array.prototype.sort *)
(* ===================================================================== *)

(** [array.sort(compare)] is a stable sort.  [before a b] says that the
    comparator does not put [a] after [b] ([compare(a, b) <= 0]); insertion
    from the right keeps such elements in their original order. *)
Section StableSort.

Context {A : Type} (before : A -> A -> bool).

Fixpoint insert_by (x : A) (l : list A) : list A :=
  match l with
  | [] => [x]
  | y :: l' => if before x y then x :: y :: l' else y :: insert_by x l'
  end.

Definition sort_by (l : list A) : list A := foldr insert_by [] l.

Lemma sort_by_cons (x : A) (l : list A) :
  sort_by (x :: l) = insert_by x (sort_by l).
Proof. reflexivity. Qed.

Lemma length_insert_by (x : A) (l : list A) :
  length (insert_by x l) = S (length l).
Proof.
  induction l as [|y l IH]; simpl; [done|].
  destruct (before x y); simpl; lia.
Qed.

Lemma length_sort_by (l : list A) : length (sort_by l) = length l.
Proof.
  induction l as [|y l IH]; [done|].
  rewrite sort_by_cons, length_insert_by, IH. done.
Qed.

Lemma insert_by_perm (x : A) (l : list A) : insert_by x l ≡ₚ x :: l.
Proof.
  induction l as [|y l IH]; simpl; [done|].
  destruct (before x y); [done|].
  rewrite IH. apply Permutation_swap.
Qed.

Lemma sort_by_perm (l : list A) : sort_by l ≡ₚ l.
Proof.
  induction l as [|y l IH]; [done|].
  rewrite sort_by_cons, insert_by_perm. by rewrite IH.
Qed.

End StableSort.

(* ===================================================================== *)
(** ** training-queue.ts *)
(* ===================================================================== *)

Module Queue.

(** [enum TrainingPriority { HIGH = 3, MEDIUM = 2, LOW = 1 }] *)
Inductive TrainingPriority : Type := HIGH | MEDIUM | LOW.

Definition priority_value (p : TrainingPriority) : Z :=
  match p with HIGH => 3 | MEDIUM => 2 | LOW => 1 end.

Inductive Source : Type := SrcChat | SrcImport | SrcManual.
Inductive ContentType : Type := CtText | CtImage | CtWeb.

Record Metadata : Type := mkMetadata {
  source : Source;
  contentType : option ContentType;
  url : option string
}.

Record TrainingExample : Type := mkExample {
  id : string;
  input : string;
  output : string;
  priority : TrainingPriority;
  timestamp : Z;
  metadata : option Metadata
}.

(** The private field [maxQueueSize]: the class initialises it to 10000
    and never reassigns it.  The other two fields are the state. *)
Definition maxQueueSize : Z := 10000.

Record TrainingQueue : Type := mkQueue {
  queue : list TrainingExample;
  processedIds : gset string
}.

Definition empty : TrainingQueue := mkQueue [] ∅.

(** The comparator of [sortByPriority]: a negative result puts [a] first. *)
Definition compare_examples (a b : TrainingExample) : Z :=
  if decide (priority_value (priority a) ≠ priority_value (priority b))
  then (priority_value (priority b) - priority_value (priority a))%Z
  else (timestamp b - timestamp a)%Z.

Definition sortByPriority (l : list TrainingExample) : list TrainingExample :=
  sort_by (fun a b => (compare_examples a b <=? 0)%Z) l.

(** [add(example)] *)
Definition add (example : TrainingExample) (q : TrainingQueue) : TrainingQueue :=
  if decide (id example ∈ processedIds q) then q
  else
    let q1 :=
      if (Z.of_nat (length (queue q)) >=? maxQueueSize)%Z then
        match queue q with
        | removed :: rest => mkQueue rest (processedIds q ∖ {[ id removed ]})
        | [] => q
        end
      else q in
    mkQueue (sortByPriority (queue q1 ++ [example])) (processedIds q1).

(** [addBatch(examples)] *)
Definition addBatch (examples : list TrainingExample) (q : TrainingQueue) : TrainingQueue :=
  foldl (fun acc ex => add ex acc) q examples.

(** [getBatch(size)] *)
Definition getBatch (size : nat) (q : TrainingQueue) : list TrainingExample :=
  take size (queue q).

(** [removeBatch(ids)] *)
Definition removeBatch (ids : list string) (q : TrainingQueue) : TrainingQueue :=
  let idSet : gset string := list_to_set ids in
  mkQueue (filter (fun ex => id ex ∉ idSet) (queue q))
          (foldl (fun s i => s ∪ {[ i ]}) (processedIds q) ids).

Definition size (q : TrainingQueue) : nat := length (queue q).
Definition isEmpty (q : TrainingQueue) : bool := (length (queue q) =? 0)%nat.
Definition clear (q : TrainingQueue) : TrainingQueue := mkQueue [] ∅.

(** The order [sortByPriority] establishes, read on neighbours: nothing is
    ranked strictly below its successor. *)
Definition ranks_before (a b : TrainingExample) : Prop :=
  (compare_examples a b <= 0)%Z.

Fixpoint ranked (l : list TrainingExample) : Prop :=
  match l with
  | [] => True
  | x :: l' =>
      match l' with [] => True | y :: _ => ranks_before x y end /\ ranked l'
  end.

Fixpoint rankedb (l : list TrainingExample) : bool :=
  match l with
  | [] => true
  | x :: l' =>
      match l' with [] => true | y :: _ => (compare_examples x y <=? 0)%Z end
      && rankedb l'
  end.

(** No id is both enqueued and in the dedup set. *)
Definition disjoint_ids (q : TrainingQueue) : Prop :=
  Forall (fun ex => id ex ∉ processedIds q) (queue q).

(** A queue filled to capacity: one HIGH entry with the newest timestamp,
    followed by LOW entries of decreasing timestamps. *)
Definition decimal (i : Z) : string :=
  NilEmpty.string_of_uint (N.to_uint (Z.to_N i)).

Definition filler (i : Z) : TrainingExample :=
  mkExample (decimal i) "question" "answer"
            (if (i =? 0)%Z then HIGH else LOW)
            (maxQueueSize - i) None.

Fixpoint fillers (n : nat) (i : Z) : list TrainingExample :=
  match n with
  | O => []
  | S n' => filler i :: fillers n' (i + 1)
  end.

Definition full_queue : TrainingQueue :=
  mkQueue (fillers (Z.to_nat maxQueueSize) 0) ∅.

Definition late_example : TrainingExample :=
  mkExample "late" "question" "answer" LOW 0 None.

Definition twice_example : TrainingExample :=
  mkExample "a" "hello world" "hello there" MEDIUM 1 None.

(** Scenario A: three examples of distinct priorities. *)
Definition scenario_low : TrainingExample := mkExample "l" "in" "out" LOW 1 None.
Definition scenario_high : TrainingExample := mkExample "h" "in" "out" HIGH 2 None.
Definition scenario_medium : TrainingExample := mkExample "m" "in" "out" MEDIUM 3 None.

(** *** Properties of the queue *)

Lemma compare_examples_flip (a b : TrainingExample) :
  compare_examples b a = (- compare_examples a b)%Z.
Proof.
  unfold compare_examples.
  destruct (decide (priority_value (priority a) ≠ priority_value (priority b))),
           (decide (priority_value (priority b) ≠ priority_value (priority a)));
    try lia; congruence.
Qed.

Lemma ranks_before_trans (a b c : TrainingExample) :
  ranks_before a b -> ranks_before b c -> ranks_before a c.
Proof.
  unfold ranks_before, compare_examples.
  repeat match goal with |- context [decide ?P] => destruct (decide P) end;
    intros; try lia.
Qed.

Lemma ranked_head_top (x : TrainingExample) (l : list TrainingExample) :
  ranked (x :: l) -> Forall (ranks_before x) l.
Proof.
  revert x. induction l as [|y l IH]; intros x [Hxy Hl]; constructor.
  - exact Hxy.
  - specialize (IH y Hl).
    eapply Forall_impl; [exact IH|].
    intros z Hz. eapply ranks_before_trans; eauto.
Qed.

Lemma rankedb_ranked (l : list TrainingExample) : rankedb l = true -> ranked l.
Proof.
  induction l as [|x l IH]; simpl; [done|].
  intros [H1 H2]%andb_prop. split; [|auto].
  destruct l; [done|]. unfold ranks_before. lia.
Qed.

Lemma insert_by_ranked x l :
  ranked l ->
  ranked (insert_by (fun a b => (compare_examples a b <=? 0)%Z) x l).
Proof.
  induction l as [|y l IH]; simpl; [done|].
  intros [Hy Hl].
  destruct (compare_examples x y <=? 0)%Z eqn:E.
  - simpl. unfold ranks_before. repeat split; auto. lia.
  - specialize (IH Hl). simpl. split; [|exact IH].
    destruct l as [|z l]; simpl in *.
    + unfold ranks_before. rewrite compare_examples_flip. lia.
    + destruct (compare_examples x z <=? 0)%Z; [|exact Hy].
      unfold ranks_before. rewrite compare_examples_flip. lia.
Qed.

Lemma sortByPriority_ranked l : ranked (sortByPriority l).
Proof.
  induction l as [|y l IH]; [done|].
  unfold sortByPriority. rewrite sort_by_cons.
  by apply insert_by_ranked.
Qed.

Lemma scenario_A :
  getBatch 3 (addBatch [scenario_low; scenario_high; scenario_medium] empty)
  = [scenario_high; scenario_medium; scenario_low].
Proof. vm_compute. reflexivity. Qed.

(** The half of the deduplication that the code has: an id recorded by
    [removeBatch] is refused. *)
Lemma add_processed_noop (ex : TrainingExample) (q : TrainingQueue) :
  id ex ∈ processedIds q -> add ex q = q.
Proof. intros H. unfold add. by rewrite decide_True. Qed.

(** [add] never records the id it enqueues. *)
Lemma add_processedIds_subseteq (ex : TrainingExample) (q : TrainingQueue) :
  processedIds (add ex q) ⊆ processedIds q.
Proof.
  unfold add. destruct (decide _); [done|].
  destruct (Z.of_nat (length (queue q)) >=? maxQueueSize)%Z; [|done].
  destruct (queue q); simpl; set_solver.
Qed.

(** Enqueued ids are never in the dedup set, so the [delete] on eviction
    removes nothing. *)
Lemma add_disjoint_ids (ex : TrainingExample) (q : TrainingQueue) :
  disjoint_ids q -> disjoint_ids (add ex q).
Proof.
  unfold disjoint_ids. intros Hq.
  pose proof (add_processedIds_subseteq ex q) as Hsub.
  unfold add in *. destruct (decide (id ex ∈ processedIds q)) as [|Hex]; [done|].
  simpl in *.
  assert (Forall (fun e => id e ∉ processedIds q)
            (queue (if (Z.of_nat (length (queue q)) >=? maxQueueSize)%Z
                    then match queue q with
                         | [] => q
                         | removed :: rest =>
                             mkQueue rest (processedIds q ∖ {[ id removed ]})
                         end
                    else q) ++ [ex])) as HF.
  { apply Forall_app. split; [|by repeat constructor].
    destruct (Z.of_nat (length (queue q)) >=? maxQueueSize)%Z; [|done].
    destruct (queue q) eqn:E; simpl; [by rewrite E|].
    by inversion Hq. }
  unfold sortByPriority. rewrite sort_by_perm.
  eapply Forall_impl; [exact HF|]. simpl. intros e He Hin. apply He.
  by apply Hsub.
Qed.

Lemma removeBatch_processedIds (ids : list string) (s : gset string) :
  foldl (fun s i => s ∪ {[ i ]}) s ids = s ∪ list_to_set ids.
Proof.
  revert s. induction ids as [|i ids IH]; intros s; simpl.
  - set_solver.
  - rewrite IH. set_solver.
Qed.

Lemma removeBatch_disjoint_ids (ids : list string) (q : TrainingQueue) :
  disjoint_ids q -> disjoint_ids (removeBatch ids q).
Proof.
  unfold disjoint_ids, removeBatch. simpl. intros Hq.
  rewrite removeBatch_processedIds.
  apply Forall_forall. intros e [He1 He2]%list_elem_of_filter.
  rewrite Forall_forall in Hq. specialize (Hq e He2). set_solver.
Qed.

(** C1 (evaluated on the code).  [add] consults [processedIds], but only
    [removeBatch] ever fills it: an example that is still enqueued is
    accepted a second time, and the queue grows by two. *)
Theorem add_twice_enqueues_twice (ex : TrainingExample) (q : TrainingQueue) :
  id ex ∉ processedIds q ->
  (Z.of_nat (length (queue q)) + 1 < maxQueueSize)%Z ->
  size (add ex (add ex q)) = size q + 2
  /\ queue (add ex (add ex q)) ≡ₚ ex :: ex :: queue q.
Proof.
  intros Hfresh Hroom.
  assert (Hstep : forall q', id ex ∉ processedIds q' ->
            (Z.of_nat (length (queue q')) < maxQueueSize)%Z ->
            add ex q' = mkQueue (sortByPriority (queue q' ++ [ex])) (processedIds q')).
  { intros q' Hf Hr. unfold add. rewrite decide_False by done.
    destruct (Z.of_nat (length (queue q')) >=? maxQueueSize)%Z eqn:E; [lia|done]. }
  rewrite (Hstep q) by (done || lia).
  rewrite Hstep; simpl.
  - unfold size, sortByPriority. simpl. rewrite !length_sort_by, !length_app, length_sort_by.
    rewrite length_app. simpl. split; [lia|].
    rewrite sort_by_perm, sort_by_perm.
    rewrite <- !Permutation_cons_append. done.
  - done.
  - unfold sortByPriority. rewrite length_sort_by, length_app. simpl. lia.
Qed.

Lemma add_twice_enqueues_twice_witness :
  size (add twice_example (add twice_example empty)) = size empty + 2
  /\ queue (add twice_example (add twice_example empty))
     ≡ₚ twice_example :: twice_example :: queue empty.
Proof.
  apply (add_twice_enqueues_twice twice_example empty).
  - simpl. set_solver.
  - by vm_compute.
Defined.

(** C2 (evaluated on the code).  At capacity [add] removes the entry at
    the front of the sorted array, which is ranked at least as high as
    every other one: the entry the queue loses is the best one, not the
    lowest-ranked. *)
Theorem add_at_capacity_evicts_front
    (ex first : TrainingExample) (rest : list TrainingExample) (q : TrainingQueue) :
  queue q = first :: rest ->
  (Z.of_nat (length (queue q)) >= maxQueueSize)%Z ->
  id ex ∉ processedIds q ->
  ranked (queue q) ->
  queue (add ex q) = sortByPriority (rest ++ [ex])
  /\ processedIds (add ex q) = processedIds q ∖ {[ id first ]}
  /\ Forall (ranks_before first) rest
  /\ size (add ex q) = size q.
Proof.
  intros Hq Hfull Hfresh Hranked.
  unfold add, size. rewrite decide_False by done.
  apply Z.geb_ge in Hfull. rewrite Hfull, Hq. simpl.
  repeat split.
  - apply ranked_head_top. by rewrite <- Hq.
  - change (length (sortByPriority (rest ++ [ex])) = S (length rest)).
    unfold sortByPriority. rewrite length_sort_by, length_app. simpl. lia.
Qed.

Lemma length_fillers (n : nat) (i : Z) : length (fillers n i) = n.
Proof. revert i. induction n as [|n IH]; intros i; simpl; [done|]. by rewrite IH. Qed.

Lemma add_at_capacity_evicts_front_witness :
  queue (add late_example full_queue)
    = sortByPriority (fillers 9999 1 ++ [late_example])
  /\ processedIds (add late_example full_queue)
      = processedIds full_queue ∖ {[ id (filler 0) ]}
  /\ Forall (ranks_before (filler 0)) (fillers 9999 1)
  /\ size (add late_example full_queue) = size full_queue.
Proof.
  apply (add_at_capacity_evicts_front late_example (filler 0)
           (fillers 9999 1) full_queue).
  - assert (E : Z.to_nat maxQueueSize = S 9999) by (vm_compute; reflexivity).
    unfold full_queue, queue. rewrite E. reflexivity.
  - unfold full_queue, queue. rewrite length_fillers.
    unfold maxQueueSize. lia.
  - change (id late_example ∉ (∅ : gset string)). apply not_elem_of_empty.
  - apply rankedb_ranked. vm_compute. reflexivity.
Defined.

(** The same call read off the result: the HIGH entry with the newest
    timestamp (id 0) is gone, the LOW entry with the oldest timestamp
    (id 9999) is still enqueued. *)
Lemma add_at_capacity_loses_best :
  existsb (fun e => String.eqb (id e) "0") (queue full_queue) = true
  /\ existsb (fun e => String.eqb (id e) "0") (queue (add late_example full_queue)) = false
  /\ existsb (fun e => String.eqb (id e) "9999") (queue (add late_example full_queue)) = true
  /\ priority (filler 0) = HIGH /\ priority (filler 9999) = LOW.
Proof. vm_compute. repeat split. Qed.

End Queue.

(* ===================================================================== *)
(** ** weight-updater.ts *)
(* ===================================================================== *)

Module Weights.

(** A [Float32Array]: its elements read as doubles.  A store converts the
    double to the nearest binary32 value ([Math.fround]). *)
Abbreviation Float32Array := (list float).

Definition fround (x : float) : float :=
  match Prim2SF x with
  | S754_finite s m e =>
      SF2Prim (binary_normalize 24 128 (if s then Z.neg m else Z.pos m) e s)
  | _ => x
  end.

(** [ModelWeights] is a [Map<string, Float32Array>]. *)
Abbreviation ModelWeights := (gmap string Float32Array).

Record Metrics : Type := mkMetrics {
  loss : float;
  perplexity : option float;
  accuracy : option float
}.

Record WeightSnapshot : Type := mkSnapshot {
  timestamp : Z;
  weights : ModelWeights;
  metrics : option Metrics
}.

Record UpdateConfig : Type := mkConfig {
  updateInterval : Z;
  snapshotInterval : Z;
  maxSnapshots : Z;
  rollbackThreshold : float
}.

Record WeightUpdater : Type := mkUpdater {
  currentWeights : ModelWeights;
  snapshots : list WeightSnapshot;
  config : UpdateConfig;
  updateCount : Z;
  lastMetrics : option Metrics
}.

(** The default value of the constructor's [config] parameter. *)
Definition defaultConfig : UpdateConfig := mkConfig 1000 10 5 0.2%float.

(** How a call ends: normally, or with the [RangeError] that
    [TypedArray.prototype.set] raises for a source longer than its target. *)
Inductive completion : Type := Normal | RangeError.

(** [target.set(src)]: copies [src] over the front of [target]. *)
Definition typed_set (target src : Float32Array) : option Float32Array :=
  if (length src <=? length target)%nat
  then Some (src ++ drop (length src) target)
  else None.

(** [createSnapshot(metrics?)], [now] being the value of [Date.now()]. *)
Definition createSnapshot (now : Z) (m : option Metrics) (st : WeightUpdater)
    : WeightUpdater :=
  let snapshot := mkSnapshot now (currentWeights st) m in
  let pushed := snapshots st ++ [snapshot] in
  let kept :=
    if (Z.of_nat (length pushed) >? maxSnapshots (config st))%Z
    then tail pushed else pushed in
  mkUpdater (currentWeights st) kept (config st) (updateCount st) m.

(** [new WeightUpdater(initialWeights, config)] *)
Definition constructor (initialWeights : ModelWeights) (cfg : UpdateConfig) (now : Z)
    : WeightUpdater :=
  createSnapshot now None (mkUpdater initialWeights [] cfg 0 None).

(** [a % b === 0] for a counter [a >= 0]; [a % 0] is NaN. *)
Definition divides_count (a b : Z) : bool :=
  if (b =? 0)%Z then false else (Z.rem a b =? 0)%Z.

(** [applyUpdate(weightName, delta, alpha)]: [delta[i]] beyond the end of
    [delta] is [undefined], which the product turns into NaN. *)
Definition applyUpdate (weightName : string) (delta : Float32Array) (alpha : float)
    (now : Z) (st : WeightUpdater) : WeightUpdater :=
  match currentWeights st !! weightName with
  | None => st
  | Some currentWeight =>
      let updated :=
        imap (fun i w => fround (w + alpha * nth i delta nan)%float) currentWeight in
      let st1 := mkUpdater (<[weightName := updated]> (currentWeights st))
                   (snapshots st) (config st) (updateCount st + 1) (lastMetrics st) in
      if divides_count (updateCount st1) (snapshotInterval (config st1))
      then createSnapshot now None st1 else st1
  end.

(** [applyBatchUpdate(updates, alpha)], the entries in insertion order. *)
Definition applyBatchUpdate (updates : list (string * Float32Array)) (alpha : float)
    (now : Z) (st : WeightUpdater) : WeightUpdater :=
  foldl (fun acc u => applyUpdate u.1 u.2 alpha now acc) st updates.

(** [replaceWeight(weightName, newWeight)] *)
Definition replaceWeight (weightName : string) (newWeight : Float32Array)
    (st : WeightUpdater) : WeightUpdater * completion :=
  match currentWeights st !! weightName with
  | None => (st, Normal)
  | Some currentWeight =>
      match typed_set currentWeight newWeight with
      | None => (st, RangeError)
      | Some replaced =>
          (mkUpdater (<[weightName := replaced]> (currentWeights st))
             (snapshots st) (config st) (updateCount st + 1) (lastMetrics st), Normal)
      end
  end.

(** The loop of [rollback] that copies a snapshot back. *)
Definition restore_entry (acc : ModelWeights * completion)
    (entry : string * Float32Array) : ModelWeights * completion :=
  match acc with
  | (cur, RangeError) => acc
  | (cur, Normal) =>
      match cur !! entry.1 with
      | None => acc
      | Some currentWeight =>
          match typed_set currentWeight entry.2 with
          | None => (cur, RangeError)
          | Some restored => (<[entry.1 := restored]> cur, Normal)
          end
      end
  end.

Definition restore (snapshot : ModelWeights) (cur : ModelWeights)
    : ModelWeights * completion :=
  foldl restore_entry (cur, Normal) (map_to_list snapshot).

(** What [rollback] does: it returns a boolean, or it throws. *)
Inductive rollback_result : Type := Returns (b : bool) | Throws.

(** [rollback(snapshotIndex?)] *)
Definition rollback (snapshotIndex : option Z) (st : WeightUpdater)
    : WeightUpdater * rollback_result :=
  if (length (snapshots st) =? 0)%nat then (st, Returns false)
  else
    let targetIndex :=
      match snapshotIndex with
      | Some i => i
      | None => (Z.of_nat (length (snapshots st)) - 1)%Z
      end in
    if ((targetIndex <? 0) || (targetIndex >=? Z.of_nat (length (snapshots st))))%Z
    then (st, Returns false)
    else
      match snapshots st !! Z.to_nat targetIndex with
      | None => (st, Throws)
      | Some snapshot =>
          match restore (weights snapshot) (currentWeights st) with
          | (cur, RangeError) =>
              (mkUpdater cur (snapshots st) (config st) (updateCount st)
                 (lastMetrics st), Throws)
          | (cur, Normal) =>
              (mkUpdater cur (snapshots st) (config st) (updateCount st)
                 (metrics snapshot), Returns true)
          end
      end.

(** [clearOldSnapshots()] *)
Definition clearOldSnapshots (st : WeightUpdater) : WeightUpdater :=
  if (1 <? length (snapshots st))%nat then
    match last (snapshots st) with
    | Some lastSnapshot =>
        mkUpdater (currentWeights st) [lastSnapshot] (config st) (updateCount st)
          (lastMetrics st)
    | None => st
    end
  else st.

(** The loop of [importWeights] over [Object.entries(weights)]. *)
Definition import_entry (acc : ModelWeights * completion)
    (entry : string * Float32Array) : ModelWeights * completion :=
  match acc with
  | (cur, RangeError) => acc
  | (cur, Normal) =>
      match cur !! entry.1 with
      | Some currentWeight =>
          match typed_set currentWeight entry.2 with
          | None => (cur, RangeError)
          | Some replaced => (<[entry.1 := replaced]> cur, Normal)
          end
      | None => (<[entry.1 := entry.2]> cur, Normal)
      end
  end.

(** [importWeights(weights)] *)
Definition importWeights (imported : list (string * Float32Array)) (now : Z)
    (st : WeightUpdater) : WeightUpdater * completion :=
  match foldl import_entry (currentWeights st, Normal) imported with
  | (cur, RangeError) =>
      (mkUpdater cur (snapshots st) (config st) (updateCount st) (lastMetrics st),
       RangeError)
  | (cur, Normal) =>
      (createSnapshot now None
         (mkUpdater cur (snapshots st) (config st) (updateCount st) (lastMetrics st)),
       Normal)
  end.

(** [updateConfig(config)] with a [Partial<UpdateConfig>]. *)
Record PartialConfig : Type := mkPartial {
  p_updateInterval : option Z;
  p_snapshotInterval : option Z;
  p_maxSnapshots : option Z;
  p_rollbackThreshold : option float
}.

Definition updateConfig (p : PartialConfig) (st : WeightUpdater) : WeightUpdater :=
  let c := config st in
  mkUpdater (currentWeights st) (snapshots st)
    (mkConfig (default (updateInterval c) (p_updateInterval p))
              (default (snapshotInterval c) (p_snapshotInterval p))
              (default (maxSnapshots c) (p_maxSnapshots p))
              (default (rollbackThreshold c) (p_rollbackThreshold p)))
    (updateCount st) (lastMetrics st).

(** The calls that change a [WeightUpdater], as a caller can issue them. *)
Inductive call : Type :=
| CallApplyUpdate (weightName : string) (delta : Float32Array) (alpha : float) (now : Z)
| CallApplyBatchUpdate (updates : list (string * Float32Array)) (alpha : float) (now : Z)
| CallReplaceWeight (weightName : string) (newWeight : Float32Array)
| CallCreateSnapshot (now : Z) (m : option Metrics)
| CallRollback (snapshotIndex : option Z)
| CallClearOldSnapshots
| CallImportWeights (imported : list (string * Float32Array)) (now : Z)
| CallUpdateConfig (p : PartialConfig).

(** The state a call leaves behind, whether it returns or throws. *)
Definition perform (c : call) (st : WeightUpdater) : WeightUpdater :=
  match c with
  | CallApplyUpdate n d a now => applyUpdate n d a now st
  | CallApplyBatchUpdate us a now => applyBatchUpdate us a now st
  | CallReplaceWeight n w => (replaceWeight n w st).1
  | CallCreateSnapshot now m => createSnapshot now m st
  | CallRollback i => (rollback i st).1
  | CallClearOldSnapshots => clearOldSnapshots st
  | CallImportWeights ws now => (importWeights ws now st).1
  | CallUpdateConfig p => updateConfig p st
  end.

Definition perform_all (cs : list call) (st : WeightUpdater) : WeightUpdater :=
  foldl (fun acc c => perform c acc) st cs.

(** The two mutations of a weight tensor. *)
Definition is_mutation (c : call) : bool :=
  match c with
  | CallApplyUpdate _ _ _ _ | CallReplaceWeight _ _ => true
  | _ => false
  end.

(** The lengths of the tensors, name by name. *)
Definition shape (m : ModelWeights) : gmap string nat := length <$> m.

(** Every stored snapshot can be copied back: its tensors name tensors of
    the same length in the current weights. *)
Definition restorable (st : WeightUpdater) : Prop :=
  Forall (fun s => shape (weights s) ⊆ shape (currentWeights st)) (snapshots st).

(** The invariant of the class: there is a snapshot, and every snapshot
    can be copied back. *)
Definition invariant (st : WeightUpdater) : Prop :=
  snapshots st <> [] /\ restorable st.

(** Scenario D: one tensor, the default configuration. *)
Definition scenario_weights : ModelWeights := {[ "w" := [1; 2; 3]%float ]}.
Definition scenario_start : WeightUpdater := constructor scenario_weights defaultConfig 0.
Definition scenario_update : call := CallApplyUpdate "w" [1; 1; 1]%float 1%float 2.

(** Ten such updates: under the default [snapshotInterval] of 10 the last
    one takes a periodic snapshot. *)
Definition ten_updates : list call := repeat scenario_update 10.

(** *** Properties of the weight updater *)

Lemma typed_set_length target src r :
  typed_set target src = Some r -> length r = length target.
Proof.
  unfold typed_set. destruct (length src <=? length target)%nat eqn:E; [|done].
  apply Nat.leb_le in E. intros [= <-]. rewrite length_app, length_drop. lia.
Qed.

Lemma typed_set_same_length target src :
  length target = length src -> typed_set target src = Some src.
Proof.
  intros H. unfold typed_set. rewrite H, Nat.leb_refl.
  rewrite <- H, drop_all. by rewrite app_nil_r.
Qed.

Lemma shape_lookup (m : ModelWeights) (k : string) (n : nat) :
  shape m !! k = Some n <-> exists w, m !! k = Some w /\ length w = n.
Proof.
  unfold shape. rewrite lookup_fmap, fmap_Some. naive_solver.
Qed.

Lemma shape_insert_same (m : ModelWeights) (k : string) (w w' : Float32Array) :
  m !! k = Some w -> length w' = length w -> shape (<[k := w']> m) = shape m.
Proof.
  intros Hk Hl. unfold shape. rewrite fmap_insert, Hl.
  apply insert_id. rewrite lookup_fmap. by rewrite Hk.
Qed.

Lemma shape_insert_new (m : ModelWeights) (k : string) (w : Float32Array) :
  m !! k = None -> shape m ⊆ shape (<[k := w]> m).
Proof.
  intros Hk. unfold shape. rewrite fmap_insert.
  apply insert_subseteq. rewrite lookup_fmap. by rewrite Hk.
Qed.

(** Copying back a snapshot whose tensors fit never throws, and overwrites
    exactly the snapshot's names. *)
Lemma restore_entries (l : list (string * Float32Array)) (cur : ModelWeights) :
  NoDup l.*1 ->
  (forall k w, (k, w) ∈ l -> exists c, cur !! k = Some c /\ length c = length w) ->
  foldl restore_entry (cur, Normal) l = (list_to_map l ∪ cur, Normal).
Proof.
  revert cur. induction l as [|[k w] l IH]; intros cur Hnd Hfit.
  - simpl. by rewrite (left_id_L ∅ (∪)).
  - rewrite fmap_cons in Hnd. apply NoDup_cons in Hnd as [Hk Hnd].
    destruct (Hfit k w) as (c & Hc & Hlen); [by left|].
    cbn [foldl restore_entry fst snd list_to_map foldr uncurry].
    rewrite Hc, (typed_set_same_length _ _ Hlen).
    rewrite IH; [|done|].
    + f_equal. rewrite <- insert_union_l. symmetry.
      apply insert_union_r. by apply not_elem_of_list_to_map_1.
    + intros k' w' Hin.
      destruct (Hfit k' w') as (c' & Hc' & Hlen'); [by right|].
      exists c'. split; [|done].
      rewrite lookup_insert_ne; [done|].
      intros ->. apply Hk. apply list_elem_of_fmap. by exists (k', w').
Qed.

Lemma restore_fits (snap cur : ModelWeights) :
  shape snap ⊆ shape cur -> restore snap cur = (snap ∪ cur, Normal).
Proof.
  intros Hsub. unfold restore.
  rewrite restore_entries.
  - by rewrite list_to_map_to_list.
  - apply NoDup_fst_map_to_list.
  - intros k w Hin%elem_of_map_to_list.
    assert (shape cur !! k = Some (length w)) as (c & ? & ?)%shape_lookup.
    { eapply lookup_weaken; [|exact Hsub]. apply shape_lookup. eauto. }
    eauto.
Qed.

Lemma shape_union_fits (snap cur : ModelWeights) :
  shape snap ⊆ shape cur -> shape (snap ∪ cur) = shape cur.
Proof.
  intros Hsub. unfold shape in *. rewrite map_fmap_union.
  by apply map_subseteq_union.
Qed.

Lemma createSnapshot_last now m st :
  snapshots st <> [] \/ (1 <= maxSnapshots (config st))%Z ->
  last (snapshots (createSnapshot now m st)) = Some (mkSnapshot now (currentWeights st) m).
Proof.
  intros H. unfold createSnapshot. simpl.
  destruct (Z.gtb_spec (Z.of_nat (length (snapshots st ++
              [mkSnapshot now (currentWeights st) m]))) (maxSnapshots (config st)))
    as [E|E].
  - destruct (snapshots st) as [|s l] eqn:Es.
    + simpl in E. destruct H; [done|lia].
    + simpl. by rewrite last_snoc.
  - by rewrite last_snoc.
Qed.

Lemma createSnapshot_nonempty now m st :
  snapshots st <> [] \/ (1 <= maxSnapshots (config st))%Z ->
  snapshots (createSnapshot now m st) <> [].
Proof.
  intros H E. pose proof (createSnapshot_last now m st H) as HL.
  by rewrite E in HL.
Qed.

Lemma createSnapshot_restorable now m st :
  restorable st -> restorable (createSnapshot now m st).
Proof.
  unfold restorable, createSnapshot. simpl. intros H.
  assert (Forall (fun s => shape (weights s) ⊆ shape (currentWeights st))
            (snapshots st ++ [mkSnapshot now (currentWeights st) m])) as HF.
  { apply Forall_app. split; [done|]. by repeat constructor. }
  destruct (_ >? _)%Z; [|done].
  destruct (snapshots st ++ _); [done|]. simpl. by inversion HF.
Qed.

Lemma restorable_ext (st st' : WeightUpdater) :
  shape (currentWeights st) ⊆ shape (currentWeights st') ->
  snapshots st' = snapshots st ->
  restorable st -> restorable st'.
Proof.
  unfold restorable. intros Hsub -> H.
  eapply Forall_impl; [exact H|]. simpl. intros s Hs. by etrans.
Qed.

Lemma applyUpdate_shape n d a now st :
  shape (currentWeights (applyUpdate n d a now st)) = shape (currentWeights st).
Proof.
  unfold applyUpdate. destruct (currentWeights st !! n) as [w|] eqn:E; [|done].
  destruct (divides_count _ _); simpl;
    apply (shape_insert_same _ _ w); auto; apply length_imap.
Qed.

Lemma applyUpdate_config n d a now st :
  config (applyUpdate n d a now st) = config st.
Proof.
  unfold applyUpdate. destruct (currentWeights st !! n); [|done].
  by destruct (divides_count _ _).
Qed.

Lemma applyUpdate_nonempty n d a now st :
  snapshots st <> [] -> snapshots (applyUpdate n d a now st) <> [].
Proof.
  intros H. unfold applyUpdate. destruct (currentWeights st !! n); [|done].
  destruct (divides_count _ _); [|done].
  apply createSnapshot_nonempty. by left.
Qed.

Lemma applyUpdate_restorable n d a now st :
  restorable st -> restorable (applyUpdate n d a now st).
Proof.
  intros H. unfold applyUpdate.
  destruct (currentWeights st !! n) as [w|] eqn:E; [|done].
  match goal with |- context [divides_count _ (snapshotInterval (config ?s))] =>
    assert (restorable s) as Hs
  end.
  { apply (restorable_ext st); [|reflexivity|exact H]. simpl.
    erewrite shape_insert_same; eauto. apply length_imap. }
  destruct (divides_count _ _); [|done].
  by apply createSnapshot_restorable.
Qed.

Lemma replaceWeight_shape n w st :
  shape (currentWeights (replaceWeight n w st).1) = shape (currentWeights st).
Proof.
  unfold replaceWeight. destruct (currentWeights st !! n) as [c|] eqn:E; [|done].
  destruct (typed_set c w) as [r|] eqn:Er; [|done]. simpl.
  apply (shape_insert_same _ _ c); [done|]. by eapply typed_set_length.
Qed.

Lemma replaceWeight_snapshots n w st :
  snapshots (replaceWeight n w st).1 = snapshots st.
Proof.
  unfold replaceWeight. destruct (currentWeights st !! n) as [c|]; [|done].
  by destruct (typed_set c w).
Qed.

Lemma replaceWeight_config n w st :
  config (replaceWeight n w st).1 = config st.
Proof.
  unfold replaceWeight. destruct (currentWeights st !! n) as [c|]; [|done].
  by destruct (typed_set c w).
Qed.

(** [rollback()] on the latest snapshot, when that snapshot fits. *)
Lemma rollback_latest (st : WeightUpdater) (s : WeightSnapshot) :
  last (snapshots st) = Some s ->
  shape (weights s) ⊆ shape (currentWeights st) ->
  rollback None st
  = (mkUpdater (weights s ∪ currentWeights st) (snapshots st) (config st)
       (updateCount st) (metrics s), Returns true).
Proof.
  intros Hlast Hfit. unfold rollback.
  destruct (snapshots st) as [|s0 l] eqn:E; [done|].
  rewrite <- E in *.
  assert (length (snapshots st) <> 0) as Hlen by (rewrite E; simpl; lia).
  destruct (Nat.eqb_spec (length (snapshots st)) 0) as [|_]; [done|].
  destruct (Z.ltb_spec (Z.of_nat (length (snapshots st)) - 1) 0); [lia|].
  destruct (Z.geb_spec (Z.of_nat (length (snapshots st)) - 1)
              (Z.of_nat (length (snapshots st)))); [lia|].
  simpl. rewrite last_lookup in Hlast.
  replace (Z.to_nat (Z.of_nat (length (snapshots st)) - 1))
    with (pred (length (snapshots st))) by lia.
  rewrite Hlast. by rewrite restore_fits.
Qed.

Lemma rollback_snapshots i st : snapshots (rollback i st).1 = snapshots st.
Proof.
  unfold rollback. destruct (length (snapshots st) =? 0)%nat; [done|].
  destruct (_ || _); [done|].
  destruct (snapshots st !! _); [|done].
  by destruct (restore _ _) as [cur []].
Qed.

Lemma rollback_shape i st :
  restorable st ->
  shape (currentWeights (rollback i st).1) = shape (currentWeights st).
Proof.
  intros H. unfold rollback. destruct (length (snapshots st) =? 0)%nat; [done|].
  destruct (_ || _); [done|].
  destruct (snapshots st !! _) as [s|] eqn:E; [|done].
  assert (shape (weights s) ⊆ shape (currentWeights st)) as Hfit.
  { unfold restorable in H. rewrite Forall_forall in H.
    apply H. by eapply list_elem_of_lookup_2. }
  rewrite (restore_fits _ _ Hfit). simpl. by apply shape_union_fits.
Qed.

Lemma import_entries_shape (l : list (string * Float32Array))
    (cur cur' : ModelWeights) (c0 c : completion) :
  foldl import_entry (cur, c0) l = (cur', c) -> shape cur ⊆ shape cur'.
Proof.
  revert cur c0. induction l as [|[k w] l IH]; intros cur c0; simpl.
  - by intros [= -> _].
  - destruct c0; [|apply IH]. simpl.
    destruct (cur !! k) as [t|] eqn:E.
    + destruct (typed_set t w) as [r|] eqn:Er; [|apply IH].
      intros H%IH. erewrite shape_insert_same in H; eauto.
      by eapply typed_set_length.
    + intros H%IH. etrans; [|exact H]. by apply shape_insert_new.
Qed.

Lemma importWeights_nonempty ws now st :
  snapshots st <> [] -> snapshots (importWeights ws now st).1 <> [].
Proof.
  intros H. unfold importWeights.
  destruct (foldl import_entry _ ws) as [cur []]; [|done].
  unfold fst. apply createSnapshot_nonempty. by left.
Qed.

Lemma importWeights_restorable ws now st :
  restorable st -> restorable (importWeights ws now st).1.
Proof.
  intros H. unfold importWeights.
  destruct (foldl import_entry _ ws) as [cur c] eqn:E.
  apply import_entries_shape in E.
  assert (restorable (mkUpdater cur (snapshots st) (config st) (updateCount st)
                        (lastMetrics st))) as Hs
    by (apply (restorable_ext st); [exact E|reflexivity|exact H]).
  destruct c; [|done]. unfold fst. by apply createSnapshot_restorable.
Qed.

Lemma clearOldSnapshots_nonempty st :
  snapshots st <> [] -> snapshots (clearOldSnapshots st) <> [].
Proof.
  intros H. unfold clearOldSnapshots.
  destruct (1 <? length (snapshots st))%nat; [|done].
  by destruct (last (snapshots st)).
Qed.

Lemma clearOldSnapshots_restorable st :
  restorable st -> restorable (clearOldSnapshots st).
Proof.
  intros H. unfold clearOldSnapshots.
  destruct (1 <? length (snapshots st))%nat; [|done].
  destruct (last (snapshots st)) as [s|] eqn:E; [|done].
  unfold restorable in *. simpl. constructor; [|done].
  rewrite Forall_forall in H. apply H.
  rewrite last_lookup in E. by eapply list_elem_of_lookup_2.
Qed.

Lemma applyBatchUpdate_invariant us a now st :
  invariant st -> invariant (applyBatchUpdate us a now st).
Proof.
  unfold applyBatchUpdate. revert st.
  induction us as [|u us IH]; intros st [H1 H2]; simpl; [done|].
  apply IH. split; [by apply applyUpdate_nonempty|by apply applyUpdate_restorable].
Qed.

Lemma perform_invariant (c : call) (st : WeightUpdater) :
  invariant st -> invariant (perform c st).
Proof.
  intros [H1 H2]. destruct c; simpl.
  - split; [by apply applyUpdate_nonempty|by apply applyUpdate_restorable].
  - by apply applyBatchUpdate_invariant.
  - split; [by rewrite replaceWeight_snapshots|].
    apply (restorable_ext st); [|apply replaceWeight_snapshots|exact H2].
    by rewrite replaceWeight_shape.
  - split; [apply createSnapshot_nonempty; by left|by apply createSnapshot_restorable].
  - split; [by rewrite rollback_snapshots|].
    apply (restorable_ext st); [|apply rollback_snapshots|exact H2].
    by rewrite rollback_shape.
  - split; [by apply clearOldSnapshots_nonempty|by apply clearOldSnapshots_restorable].
  - split; [by apply importWeights_nonempty|by apply importWeights_restorable].
  - done.
Qed.

Lemma perform_all_invariant (cs : list call) (st : WeightUpdater) :
  invariant st -> invariant (perform_all cs st).
Proof.
  unfold perform_all. revert st.
  induction cs as [|c cs IH]; intros st H; simpl; [done|].
  apply IH. by apply perform_invariant.
Qed.

Lemma constructor_invariant (ws : ModelWeights) (cfg : UpdateConfig) (now : Z) :
  (1 <= maxSnapshots cfg)%Z -> invariant (constructor ws cfg now).
Proof.
  intros H. unfold constructor. split.
  - apply createSnapshot_nonempty. by right.
  - apply createSnapshot_restorable. constructor.
Qed.

(** C10.  A [WeightUpdater] constructed with [maxSnapshots >= 1] holds at
    least one snapshot after any sequence of calls, whether they return or
    throw, and [rollback()] without an index returns [true]. *)
Theorem snapshots_never_empty
    (ws : ModelWeights) (cfg : UpdateConfig) (now : Z) (cs : list call) :
  (1 <= maxSnapshots cfg)%Z ->
  snapshots (perform_all cs (constructor ws cfg now)) <> []
  /\ (rollback None (perform_all cs (constructor ws cfg now))).2 = Returns true.
Proof.
  intros Hmax.
  destruct (perform_all_invariant cs _ (constructor_invariant ws cfg now Hmax))
    as [Hne Hres].
  split; [exact Hne|].
  destruct (last (snapshots (perform_all cs (constructor ws cfg now))))
    as [s|] eqn:E.
  - rewrite (rollback_latest _ s E); [done|].
    unfold restorable in Hres. rewrite Forall_forall in Hres. apply Hres.
    rewrite last_lookup in E. by eapply list_elem_of_lookup_2.
  - apply last_None in E. done.
Qed.

Lemma snapshots_never_empty_witness :
  snapshots (perform_all [scenario_update; CallClearOldSnapshots; CallRollback (Some 7%Z)]
               (constructor scenario_weights defaultConfig 0)) <> []
  /\ (rollback None
        (perform_all [scenario_update; CallClearOldSnapshots; CallRollback (Some 7%Z)]
           (constructor scenario_weights defaultConfig 0))).2 = Returns true.
Proof.
  apply (snapshots_never_empty scenario_weights defaultConfig 0
           [scenario_update; CallClearOldSnapshots; CallRollback (Some 7%Z)]).
  vm_compute. discriminate.
Defined.

Lemma mutations_shape (muts : list call) (st : WeightUpdater) :
  Forall (fun c => is_mutation c = true) muts ->
  shape (currentWeights (perform_all muts st)) = shape (currentWeights st).
Proof.
  unfold perform_all. revert st.
  induction muts as [|c muts IH]; intros st Hm; [done|].
  inversion Hm as [|? ? Hc Hrest]; subst. simpl. rewrite IH by done.
  destruct c; try discriminate; simpl.
  - apply applyUpdate_shape.
  - apply replaceWeight_shape.
Qed.

Lemma union_same_shape (a b : ModelWeights) : shape a = shape b -> a ∪ b = a.
Proof.
  intros H. apply map_eq. intros k.
  destruct (a !! k) as [w|] eqn:Ea.
  - by apply lookup_union_Some_l.
  - rewrite lookup_union_r by done.
    assert (shape b !! k = None) as Hb.
    { rewrite <- H. unfold shape. rewrite lookup_fmap. by rewrite Ea. }
    unfold shape in Hb. rewrite lookup_fmap in Hb. by apply fmap_None in Hb.
Qed.

(** C5, the claim as stated, at a concrete input: after [createSnapshot()]
    and ten [applyUpdate] calls under the default configuration, the tenth
    call has taken a snapshot of its own, and [rollback()] returns to that
    one: the tensor is [11,12,13], not the [1,2,3] of the explicit
    snapshot. *)
Lemma rollback_after_periodic_snapshot :
  let st1 := createSnapshot 1 None scenario_start in
  let st2 := perform_all ten_updates st1 in
  Forall (fun c => is_mutation c = true) ten_updates
  /\ currentWeights st1 !! "w" = Some [1; 2; 3]%float
  /\ (rollback None st2).2 = Returns true
  /\ currentWeights (rollback None st2).1 !! "w" = Some [11; 12; 13]%float
  /\ currentWeights (rollback None st2).1 !! "w" <> currentWeights st1 !! "w".
Proof.
  cbv zeta. split; [repeat constructor|].
  vm_compute. repeat split. discriminate.
Qed.

(** C5, amended.  After [createSnapshot()] (with [maxSnapshots >= 1]) and
    any sequence of [applyUpdate] and [replaceWeight] calls during which no
    further snapshot is taken, [rollback()] returns [true] and the weights
    are exactly those of the snapshot. *)
Theorem rollback_restores_snapshot
    (st : WeightUpdater) (now : Z) (m : option Metrics) (muts : list call) :
  (1 <= maxSnapshots (config st))%Z ->
  Forall (fun c => is_mutation c = true) muts ->
  snapshots (perform_all muts (createSnapshot now m st))
    = snapshots (createSnapshot now m st) ->
  (rollback None (perform_all muts (createSnapshot now m st))).2 = Returns true
  /\ currentWeights (rollback None (perform_all muts (createSnapshot now m st))).1
     = currentWeights (createSnapshot now m st).
Proof.
  intros Hmax Hmuts Hquiet.
  pose proof (mutations_shape muts (createSnapshot now m st) Hmuts) as Hshape.
  pose proof (createSnapshot_last now m st (or_intror Hmax)) as Hlast.
  rewrite <- Hquiet in Hlast.
  change (currentWeights (createSnapshot now m st)) with (currentWeights st) in *.
  rewrite (rollback_latest _ _ Hlast); simpl.
  - split; [done|]. by apply union_same_shape.
  - by rewrite Hshape.
Qed.

(** Scenario D. *)
Lemma rollback_restores_snapshot_witness :
  (rollback None (perform_all [scenario_update] (createSnapshot 1 None scenario_start))).2
    = Returns true
  /\ currentWeights
       (rollback None (perform_all [scenario_update]
          (createSnapshot 1 None scenario_start))).1
     = currentWeights (createSnapshot 1 None scenario_start).
Proof.
  apply (rollback_restores_snapshot scenario_start 1 None [scenario_update]).
  - vm_compute. discriminate.
  - repeat constructor.
  - vm_compute. reflexivity.
Defined.

Lemma scenario_D :
  let st1 := createSnapshot 1 None scenario_start in
  let st2 := perform scenario_update st1 in
  currentWeights st2 !! "w" = Some [2; 3; 4]%float
  /\ currentWeights (rollback None st2).1 !! "w" = Some [1; 2; 3]%float.
Proof. vm_compute. split; reflexivity. Qed.

End Weights.

(* ===================================================================== *)
(** ** lora.ts *)
(* ===================================================================== *)

Module LoRA.

Local Open Scope R_scope.

Record LoRAConfig : Type := mkLoRAConfig {
  rank : nat;
  alpha : R;
  dropout : R;
  targetModules : list string;
  enableBias : bool
}.

(** [A] is [rank x inFeatures], [B] is [outFeatures x rank], both row-major.
    The optional gradient and optimizer buffers are absent after
    [initializeLayer]. *)
Record LoRALayer : Type := mkLayer {
  A : list R;
  B : list R;
  gradA : option (list R);
  gradB : option (list R);
  inFeatures : nat;
  outFeatures : nat;
  layer_rank : nat;
  layer_alpha : R;
  scaling : R
}.

Record LoRAAdapter : Type := mkAdapter {
  config : LoRAConfig;
  layers : gmap string LoRALayer
}.

Definition new_adapter (cfg : LoRAConfig) : LoRAAdapter := mkAdapter cfg ∅.

(** An indexed read [a[i]].  The theorems below fix the lengths the code
    expects, so no read falls outside its array. *)
Definition get (a : list R) (i : nat) : R := nth i a 0.

(** [let sum = 0; for (j = 0; j < n; j++) sum += term(j)] *)
Definition sum_loop (n : nat) (term : nat -> R) : R :=
  fold_left (fun sum j => sum + term j) (seq 0 n) 0.

(** [initializeLayer(moduleName, inFeatures, outFeatures)]; [random k] is
    the value of the [k]-th call of [Math.random()]. *)
Definition initializeLayer (random : nat -> R) (moduleName : string)
    (inF outF : nat) (ad : LoRAAdapter) : LoRAAdapter :=
  let r := rank (config ad) in
  let a := alpha (config ad) in
  let A0 := map (fun i => (random i - 0.5) * 0.01) (seq 0 (r * inF)) in
  let B0 := repeat 0 (outF * r) in
  let layer := mkLayer A0 B0 None None inF outF r a (a / INR r) in
  mkAdapter (config ad) (<[moduleName := layer]> (layers ad)).

(** [forward(moduleName, x, baseOutput)] *)
Definition forward (moduleName : string) (x baseOutput : list R)
    (ad : LoRAAdapter) : list R :=
  match layers ad !! moduleName with
  | None => baseOutput
  | Some layer =>
      let r := layer_rank layer in
      let Ax :=
        map (fun i =>
               sum_loop (inFeatures layer)
                 (fun j => get (A layer) (i * inFeatures layer + j) * get x j))
            (seq 0 r) in
      let BAx :=
        map (fun i =>
               sum_loop r (fun j => get (B layer) (i * r + j) * get Ax j)
               * scaling layer)
            (seq 0 (outFeatures layer)) in
      map (fun i => get baseOutput i + get BAx i) (seq 0 (outFeatures layer))
  end.

(** Scenario B, with rank 8 and alpha 16; any oracle will do. *)
Definition scenario_adapter : LoRAAdapter :=
  new_adapter (mkLoRAConfig 8 16 0 ["attention.q"] false).

(** *** Properties of the adapter *)

Lemma get_repeat_zero (n i : nat) : get (repeat 0 n) i = 0.
Proof.
  unfold get. revert i. induction n as [|n IH]; intros [|i]; simpl; auto.
Qed.

Lemma sum_loop_zero (n : nat) (term : nat -> R) :
  (forall j, (j < n)%nat -> term j = 0) -> sum_loop n term = 0.
Proof.
  unfold sum_loop. intros H.
  assert (forall l acc, Forall (fun j => term j = 0) l ->
            fold_left (fun sum j => sum + term j) l acc = acc) as Hfold.
  { induction l as [|j l IH]; intros acc Hl; simpl; [done|].
    inversion Hl as [|? ? Hj Hrest]; subst. rewrite Hj, Rplus_0_r. by apply IH. }
  apply Hfold. apply Forall_forall. intros j Hj%elem_of_seq. apply H. lia.
Qed.


Lemma get_map_seq (f : nat -> R) (n i : nat) :
  (i < n)%nat -> get (map f (seq 0 n)) i = f i.
Proof.
  intros H. unfold get.
  rewrite (nth_indep _ 0 (f 0%nat)) by (rewrite length_map, length_seq; lia).
  rewrite map_nth. by rewrite seq_nth.
Qed.



End LoRA.

(* ===================================================================== *)
(** ** LoRAAdapter.forward over any numbers, and on Float32Array *)
(* ===================================================================== *)

(** The body of [forward] once the layer is found, written once over the
    operations it uses.  [store] is the write into a [Float32Array];
    [missing] is what a read past the end of an array yields. *)
Section LoRAForward.

Context {num : Type}.
Variables (zero missing : num) (plus times : num -> num -> num) (store : num -> num).

Definition lora_read (a : list num) (i : nat) : num := nth i a missing.

(** [let sum = 0; for (j = 0; j < n; j++) sum += term(j)] *)
Definition lora_sum (n : nat) (term : nat -> num) : num :=
  fold_left (fun sum j => plus sum (term j)) (seq 0 n) zero.

Definition lora_forward (A B : list num) (rank inF outF : nat) (scaling : num)
    (x baseOutput : list num) : list num :=
  let Ax :=
    map (fun i => store (lora_sum inF (fun j => times (lora_read A (i * inF + j))
                                                    (lora_read x j))))
        (seq 0 rank) in
  let BAx :=
    map (fun i => store (times (lora_sum rank (fun j => times (lora_read B (i * rank + j))
                                                           (lora_read Ax j)))
                               scaling))
        (seq 0 outF) in
  map (fun i => store (plus (lora_read baseOutput i) (lora_read BAx i))) (seq 0 outF).

End LoRAForward.

(** The adapter as the code runs it: the arrays are [Float32Array]s, the
    sums are doubles, and every write into an array rounds to binary32. *)
Module LoRAF.

Import Weights.
Local Open Scope float_scope.

(** The two fields of the configuration that the layer reads. *)
Record LoRAConfig : Type := mkLoRAConfig {
  rank : nat;
  alpha : float
}.

Record LoRALayer : Type := mkLayer {
  A : Float32Array;
  B : Float32Array;
  inFeatures : nat;
  outFeatures : nat;
  layer_rank : nat;
  layer_alpha : float;
  scaling : float
}.

Record LoRAAdapter : Type := mkAdapter {
  config : LoRAConfig;
  layers : gmap string LoRALayer
}.

Definition new_adapter (cfg : LoRAConfig) : LoRAAdapter := mkAdapter cfg ∅.

(** A count as a double. *)
Definition of_nat (n : nat) : float :=
  SF2Prim (binary_normalize 53 1024 (Z.of_nat n) 0 false).

(** [initializeLayer(moduleName, inFeatures, outFeatures)]; [random k] is
    the value of the [k]-th call of [Math.random()]. *)
Definition initializeLayer (random : nat -> float) (moduleName : string)
    (inF outF : nat) (ad : LoRAAdapter) : LoRAAdapter :=
  let r := rank (config ad) in
  let a := alpha (config ad) in
  let A0 := map (fun i => fround ((random i - 0.5) * 0.01)) (seq 0 (r * inF)) in
  let B0 := repeat 0 (outF * r) in
  let layer := mkLayer A0 B0 inF outF r a (a / of_nat r) in
  mkAdapter (config ad) (<[moduleName := layer]> (layers ad)).

(** [forward(moduleName, x, baseOutput)]; a read past the end of an array
    is [undefined], which the arithmetic turns into NaN. *)
Definition forward (moduleName : string) (x baseOutput : Float32Array)
    (ad : LoRAAdapter) : Float32Array :=
  match layers ad !! moduleName with
  | None => baseOutput
  | Some layer =>
      lora_forward 0 nan PrimFloat.add PrimFloat.mul fround
        (A layer) (B layer) (layer_rank layer) (inFeatures layer) (outFeatures layer)
        (scaling layer) x baseOutput
  end.



(** The real-number [LoRA.forward] is the same body over the reals, where
    a store changes nothing. *)
Lemma forward_over_reals (moduleName : string) (x baseOutput : list R)
    (ad : LoRA.LoRAAdapter) :
  LoRA.forward moduleName x baseOutput ad
  = match LoRA.layers ad !! moduleName with
    | None => baseOutput
    | Some layer =>
        lora_forward 0%R 0%R Rplus Rmult (fun v => v)
          (LoRA.A layer) (LoRA.B layer) (LoRA.layer_rank layer)
          (LoRA.inFeatures layer) (LoRA.outFeatures layer) (LoRA.scaling layer)
          x baseOutput
    end.
Proof. reflexivity. Qed.


End LoRAF.

(* ===================================================================== *)
(** ** simulated-neurons.ts *)
(* ===================================================================== *)

Module Neurons.

Local Open Scope R_scope.

(** The comparisons [x < y] and [x <= y] of two numbers, as booleans. *)
Definition ltR (x y : R) : bool := if Rlt_dec x y then true else false.
Definition leR (x y : R) : bool := if Rle_dec x y then true else false.

Record NeuronConfig : Type := mkNeuronConfig {
  numNeurons : nat;
  threshold : R;
  refractoryPeriod : R;
  leakRate : R;
  synapticStrength : R;
  plasticityRate : R;
  enableSTDP : bool
}.

(** [lastSpikeTime] is [None] for [-Infinity]; [connections] is a
    [Map<number, number>] in insertion order. *)
Record Neuron : Type := mkNeuron {
  id : nat;
  potential : R;
  lastSpikeTime : option Z;
  isRefractory : bool;
  connections : list (nat * R);
  spikeHistory : list Z
}.

Record SimulatedNeuralNetwork : Type := mkNetwork {
  neurons : list Neuron;
  config : NeuronConfig;
  timeStep : Z;
  globalActivity : R
}.

(** How a call ends: it returns, it throws the [TypeError] of a property
    read on [undefined], or it never returns. *)
Inductive completion : Type := Normal | TypeError | Diverges.

(** [Map.prototype.get], [set] and [delete] on the connections. *)
Fixpoint conn_get (k : nat) (c : list (nat * R)) : option R :=
  match c with
  | [] => None
  | (k', v) :: c' => if (k =? k')%nat then Some v else conn_get k c'
  end.

Fixpoint conn_set (k : nat) (v : R) (c : list (nat * R)) : list (nat * R) :=
  match c with
  | [] => [(k, v)]
  | (k', v') :: c' =>
      if (k =? k')%nat then (k, v) :: c' else (k', v') :: conn_set k v c'
  end.

Definition with_potential (p : R) (n : Neuron) : Neuron :=
  mkNeuron (id n) p (lastSpikeTime n) (isRefractory n) (connections n) (spikeHistory n).

Definition with_connections (c : list (nat * R)) (n : Neuron) : Neuron :=
  mkNeuron (id n) (potential n) (lastSpikeTime n) (isRefractory n) c (spikeHistory n).

(** The index pairs of [for (i < n) for (j < m)], in the order of the loops. *)
Definition loop_pairs (n m : nat) : list (nat * nat) :=
  flat_map (fun i => map (fun j => (i, j)) (seq 0 m)) (seq 0 n).

(** *** The constructor *)

(** One turn of the inner loop of [initializeNeurons]; [k] counts the
    calls of [Math.random()] made so far. *)
Definition connect_step (cfg : NeuronConfig) (random : nat -> R)
    (st : nat * list Neuron) (ij : nat * nat) : nat * list Neuron :=
  let '(k, ns) := st in
  let '(i, j) := ij in
  if (i =? j)%nat then st
  else if ltR (random k) 0.1 then
    let weight := (random (S k) - 0.5) * synapticStrength cfg in
    (S (S k), alter (fun n => with_connections (conn_set j weight (connections n)) n) i ns)
  else (S k, ns).

Definition initializeNeurons (cfg : NeuronConfig) (random : nat -> R) : list Neuron :=
  let created :=
    map (fun i => mkNeuron i (random i * 0.1 - 0.05) None false [] [])
        (seq 0 (numNeurons cfg)) in
  (foldl (connect_step cfg random) (numNeurons cfg, created)
         (loop_pairs (numNeurons cfg) (numNeurons cfg))).2.

Definition constructor (cfg : NeuronConfig) (random : nat -> R)
    : SimulatedNeuralNetwork :=
  mkNetwork (initializeNeurons cfg random) cfg 0 0.

(** *** [updateNeurons] *)

(** The first loop, for one neuron at time [t]; the boolean says whether
    the neuron fired. *)
Definition update_neuron (cfg : NeuronConfig) (t : Z) (n : Neuron) : Neuron * bool :=
  let refractory :=
    match lastSpikeTime n with
    | None => false
    | Some lastSpike => ltR (IZR (t - lastSpike)) (refractoryPeriod cfg)
    end in
  if refractory then
    (mkNeuron (id n) (potential n) (lastSpikeTime n) true (connections n)
       (spikeHistory n), false)
  else
    let leaked := potential n * (1 - leakRate cfg) in
    if leR (threshold cfg) leaked then
      let history := spikeHistory n ++ [t] in
      (mkNeuron (id n) 0 (Some t) false (connections n)
         (if (100 <? length history)%nat then tail history else history), true)
    else
      (mkNeuron (id n) leaked (lastSpikeTime n) false (connections n)
         (spikeHistory n), false).

(** [this.neurons[targetId].potential += weight] *)
Definition propagate_entry (acc : list Neuron * completion) (entry : nat * R)
    : list Neuron * completion :=
  match acc with
  | (ns, Normal) =>
      match ns !! entry.1 with
      | Some target =>
          (<[entry.1 := with_potential (potential target + entry.2) target]> ns, Normal)
      | None => (ns, TypeError)
      end
  | _ => acc
  end.

Definition propagate_source (acc : list Neuron * completion) (sourceId : nat)
    : list Neuron * completion :=
  match acc with
  | (ns, Normal) =>
      match ns !! sourceId with
      | Some source => foldl propagate_entry (ns, Normal) (connections source)
      | None => (ns, TypeError)
      end
  | _ => acc
  end.

(** The weight change of [applySTDP] for one connection, when the target
    has fired and both spike times are finite. *)
Definition stdp_weight (cfg : NeuronConfig) (sourceTime targetTime : Z) (weight : R)
    : option R :=
  let timeDiff := IZR (targetTime - sourceTime) in
  if ltR (Rabs timeDiff) 20 then
    let deltaWeight :=
      if ltR 0 timeDiff
      then plasticityRate cfg * exp (- timeDiff / 10)
      else - plasticityRate cfg * exp (timeDiff / 10) in
    Some (Rmax (-1) (Rmin 1 (weight + deltaWeight)))
  else None.

Definition stdp_entry (cfg : NeuronConfig) (sourceId : nat) (sourceTime : option Z)
    (acc : list Neuron * completion) (entry : nat * R) : list Neuron * completion :=
  match acc with
  | (ns, Normal) =>
      match ns !! entry.1 with
      | None => (ns, TypeError)
      | Some target =>
          match lastSpikeTime target, sourceTime with
          | Some targetTime, Some sourceTime' =>
              match stdp_weight cfg sourceTime' targetTime entry.2 with
              | Some clampedWeight =>
                  (alter (fun s => with_connections
                                     (conn_set entry.1 clampedWeight (connections s)) s)
                         sourceId ns, Normal)
              | None => acc
              end
          | _, _ => acc
          end
      end
  | _ => acc
  end.

Definition stdp_source (cfg : NeuronConfig) (acc : list Neuron * completion)
    (sourceId : nat) : list Neuron * completion :=
  match acc with
  | (ns, Normal) =>
      match ns !! sourceId with
      | Some source =>
          foldl (stdp_entry cfg sourceId (lastSpikeTime source)) (ns, Normal)
                (connections source)
      | None => (ns, TypeError)
      end
  | _ => acc
  end.

(** [applySTDP(recentSpikes)] *)
Definition applySTDP (cfg : NeuronConfig) (recentSpikes : list nat) (ns : list Neuron)
    : list Neuron * completion :=
  foldl (stdp_source cfg) (ns, Normal) recentSpikes.

(** [updateNeurons()] *)
Definition updateNeurons (net : SimulatedNeuralNetwork)
    : SimulatedNeuralNetwork * completion :=
  let cfg := config net in
  let t := (timeStep net + 1)%Z in
  let updated := map (update_neuron cfg t) (neurons net) in
  let spikes := map (fun r => id r.1) (filter (fun r => r.2 = true) updated) in
  match foldl propagate_source (map fst updated, Normal) spikes with
  | (ns, Normal) =>
      match (if enableSTDP cfg then applySTDP cfg spikes ns else (ns, Normal)) with
      | (ns', Normal) =>
          (mkNetwork ns' cfg t (INR (length spikes) / INR (numNeurons cfg)), Normal)
      | (ns', c) => (mkNetwork ns' cfg t (globalActivity net), c)
      end
  | (ns, c) => (mkNetwork ns cfg t (globalActivity net), c)
  end.

(** *** [forward] *)

Definition get (a : list R) (i : nat) : R := nth i a 0.

(** [Math.floor(numNeurons / input.length)] for a non-empty input. *)
Definition neuronsPerInput (cfg : NeuronConfig) (len : nat) : nat :=
  (numNeurons cfg / len)%nat.

Definition apply_input (npi : nat) (input : list R) (ns : list Neuron)
    (ij : nat * nat) : list Neuron :=
  let neuronIdx := (ij.1 * npi + ij.2)%nat in
  if (neuronIdx <? length ns)%nat
  then alter (fun n => with_potential (potential n + get input ij.1) n) neuronIdx ns
  else ns.

Definition simulate_step (acc : SimulatedNeuralNetwork * completion)
    : SimulatedNeuralNetwork * completion :=
  match acc with
  | (net, Normal) => updateNeurons net
  | _ => acc
  end.

(** The inner loop that reads one output: the running [sum] and [count]. *)
Definition read_step (cfg : NeuronConfig) (ns : list Neuron) (npi i : nat)
    (acc : R * nat * completion) (j : nat) : R * nat * completion :=
  match acc with
  | (sum, count, Normal) =>
      let k := (i * npi + j)%nat in
      if (k <? numNeurons cfg)%nat then
        match ns !! (numNeurons cfg - k - 1)%nat with
        | Some n => (sum + potential n, S count, Normal)
        | None => (sum, count, TypeError)
        end
      else acc
  | _ => acc
  end.

Definition read_output (cfg : NeuronConfig) (ns : list Neuron) (npi : nat)
    (acc : list R * completion) (i : nat) : list R * completion :=
  match acc with
  | (out, Normal) =>
      match foldl (read_step cfg ns npi i) (0, 0%nat, Normal) (seq 0 npi) with
      | (sum, count, Normal) =>
          (out ++ [if (0 <? count)%nat then sum / INR count else 0], Normal)
      | (_, _, c) => (out, c)
      end
  | _ => acc
  end.

(** [forward(input)]: the network it leaves, how it ends, and the output
    when it returns. *)
Definition forward (input : list R) (net : SimulatedNeuralNetwork)
    : SimulatedNeuralNetwork * completion * list R :=
  let cfg := config net in
  let npi := neuronsPerInput cfg (length input) in
  let fed := foldl (apply_input npi input) (neurons net) (loop_pairs (length input) npi) in
  let net1 := mkNetwork fed cfg (timeStep net) (globalActivity net) in
  match Nat.iter 10 simulate_step (net1, Normal) with
  | (net2, Normal) =>
      match foldl (read_output cfg (neurons net2) npi) ([], Normal)
                  (seq 0 (length input)) with
      | (out, c) => (net2, c, out)
      end
  | (net2, c) => (net2, c, [])
  end.

(** *** [hebbianLearning] *)

(** The neurons a pattern activates: the entries above 0.5, [npi] neurons
    each.  The indices are pairwise distinct, so the [Set] they are added
    to keeps all of them, in this order. *)
Definition active_pairs (npi : nat) (pattern : list R) : list (nat * nat) :=
  filter (fun ij => ltR 0.5 (get pattern ij.1) = true) (loop_pairs (length pattern) npi).

Definition activeInput (npi : nat) (input : list R) : list nat :=
  map (fun ij => (ij.1 * npi + ij.2)%nat) (active_pairs npi input).

Definition activeTarget (cfg : NeuronConfig) (npi : nat) (target : list R) : list nat :=
  map (fun ij => (numNeurons cfg - (ij.1 * npi + ij.2) - 1)%nat)
      (filter (fun ij => (ij.1 * npi + ij.2 <? numNeurons cfg)%nat)
              (active_pairs npi target)).

Definition strengthen (cfg : NeuronConfig) (sourceId : nat)
    (acc : list Neuron * completion) (targetId : nat) : list Neuron * completion :=
  match acc with
  | (ns, Normal) =>
      match ns !! sourceId with
      | None => (ns, TypeError)
      | Some source =>
          let currentWeight := default 0 (conn_get targetId (connections source)) in
          let newWeight := currentWeight + plasticityRate cfg in
          (<[sourceId := with_connections
                           (conn_set targetId (Rmin 1 newWeight) (connections source))
                           source]> ns, Normal)
      end
  | _ => acc
  end.

(** [hebbianLearning(input, target)].  For an empty [input] and a network
    with neurons, [neuronsPerInput] is [Infinity]: the first target entry
    above 0.5 starts an inner loop that never ends, and without such an
    entry nothing is active. *)
Definition hebbianLearning (input target : list R) (net : SimulatedNeuralNetwork)
    : SimulatedNeuralNetwork * completion :=
  let cfg := config net in
  match input with
  | [] =>
      if (0 <? numNeurons cfg)%nat && existsb (fun x => ltR 0.5 x) target
      then (net, Diverges) else (net, Normal)
  | _ :: _ =>
      let npi := neuronsPerInput cfg (length input) in
      let sources := activeInput npi input in
      let targets := activeTarget cfg npi target in
      match foldl (fun acc sourceId => foldl (strengthen cfg sourceId) acc targets)
                  (neurons net, Normal) sources with
      | (ns, c) => (mkNetwork ns cfg (timeStep net) (globalActivity net), c)
      end
  end.

(** [pruneConnections(threshold)] *)
Definition pruneConnections (thresh : R) (net : SimulatedNeuralNetwork)
    : SimulatedNeuralNetwork :=
  mkNetwork
    (map (fun n => with_connections
                     (filter (fun e => ltR (Rabs e.2) thresh = false) (connections n)) n)
         (neurons net))
    (config net) (timeStep net) (globalActivity net).

(** The three operations as a caller issues them, and the network each
    leaves behind, whether it returns or not. *)
Inductive call : Type :=
| CallForward (input : list R)
| CallHebbian (input target : list R)
| CallPrune (thresh : R).

Definition perform (c : call) (net : SimulatedNeuralNetwork) : SimulatedNeuralNetwork :=
  match c with
  | CallForward input => (forward input net).1.1
  | CallHebbian input target => (hebbianLearning input target net).1
  | CallPrune thresh => pruneConnections thresh net
  end.

Definition perform_all (cs : list call) (net : SimulatedNeuralNetwork)
    : SimulatedNeuralNetwork :=
  foldl (fun acc c => perform c acc) net cs.

(** Every connection weight lies in [-1, 1]. *)
Definition weight_ok (w : R) : Prop := -1 <= w <= 1.

Definition conns_ok (c : list (nat * R)) : Prop := Forall (fun e => weight_ok e.2) c.

Definition weights_ok (ns : list Neuron) : Prop :=
  Forall (fun n => conns_ok (connections n)) ns.

(** The array of neurons has the configured size. *)
Definition well_sized (net : SimulatedNeuralNetwork) : Prop :=
  length (neurons net) = numNeurons (config net).

(** A two-neuron network with a negative [synapticStrength]; the oracle
    below always answers 0.05. *)
Definition inverted_config : NeuronConfig := mkNeuronConfig 2 1 5 0.1 (-4) 0.01 true.

(** The configuration the training engine uses, on four neurons. *)
Definition small_config : NeuronConfig := mkNeuronConfig 4 1 5 0.1 0.5 0.01 true.

(** *** Properties of the network *)

Lemma ltR_true (x y : R) : ltR x y = true <-> x < y.
Proof. unfold ltR. destruct (Rlt_dec x y); split; (done || lra). Qed.

Lemma ltR_false (x y : R) : ltR x y = false <-> y <= x.
Proof. unfold ltR. destruct (Rlt_dec x y); split; (done || lra). Qed.

Lemma foldl_preserves {X Y : Type} (P : X -> Prop) (f : X -> Y -> X)
    (l : list Y) (a : X) :
  (forall a b, P a -> P (f a b)) -> P a -> P (foldl f a l).
Proof.
  intros Hf. revert a. induction l as [|b l IH]; intros a Ha; simpl; auto.
Qed.

Lemma conn_set_ok (k : nat) (v : R) (c : list (nat * R)) :
  conns_ok c -> weight_ok v -> conns_ok (conn_set k v c).
Proof.
  unfold conns_ok. intros Hc Hv.
  induction c as [|[k' v'] c IH]; simpl.
  - constructor; [done|constructor].
  - inversion Hc; subst. destruct (k =? k')%nat; constructor; auto.
Qed.

Lemma conn_get_ok (k : nat) (v : R) (c : list (nat * R)) :
  conns_ok c -> conn_get k c = Some v -> weight_ok v.
Proof.
  unfold conns_ok. intros Hc.
  induction c as [|[k' v'] c IH]; simpl; [done|].
  inversion Hc; subst. destruct (k =? k')%nat; [|auto].
  by intros [= <-].
Qed.

Lemma weights_ok_alter (f : Neuron -> Neuron) (i : nat) (ns : list Neuron) :
  (forall n, conns_ok (connections n) -> conns_ok (connections (f n))) ->
  weights_ok ns -> weights_ok (alter f i ns).
Proof.
  intros Hf H. unfold weights_ok. apply Forall_alter; [exact H|].
  intros n _. apply Hf.
Qed.

Lemma weights_ok_lookup (ns : list Neuron) (i : nat) (n : Neuron) :
  weights_ok ns -> ns !! i = Some n -> conns_ok (connections n).
Proof.
  unfold weights_ok. rewrite Forall_forall. intros H Hi. apply H.
  by eapply list_elem_of_lookup_2.
Qed.

Lemma initial_weight_ok (cfg : NeuronConfig) (r : R) :
  -2 <= synapticStrength cfg <= 2 -> 0 <= r < 1 ->
  weight_ok ((r - 0.5) * synapticStrength cfg).
Proof. unfold weight_ok. intros HS Hr. split; nra. Qed.

Lemma initializeNeurons_ok (cfg : NeuronConfig) (random : nat -> R) :
  -2 <= synapticStrength cfg <= 2 ->
  (forall k, 0 <= random k < 1) ->
  weights_ok (initializeNeurons cfg random).
Proof.
  intros HS Hr. unfold initializeNeurons.
  apply (foldl_preserves (fun st => weights_ok st.2)).
  - intros [k ns] [i j] H. simpl in *.
    destruct (i =? j)%nat; [done|].
    destruct (ltR (random k) 0.1); [|done]. simpl.
    apply weights_ok_alter; [|done].
    intros n Hn. simpl. apply conn_set_ok; [done|]. by apply initial_weight_ok.
  - simpl. unfold weights_ok. apply Forall_forall.
    intros n (i & -> & _)%list_elem_of_fmap. simpl. constructor.
Qed.

Lemma update_neuron_connections (cfg : NeuronConfig) (t : Z) (n : Neuron) :
  connections (update_neuron cfg t n).1 = connections n.
Proof.
  unfold update_neuron.
  destruct (match lastSpikeTime n with Some _ => _ | None => _ end); [done|].
  by destruct (leR _ _).
Qed.

Lemma propagate_source_ok (acc : list Neuron * completion) (sourceId : nat) :
  weights_ok acc.1 -> weights_ok (propagate_source acc sourceId).1.
Proof.
  destruct acc as [ns []]; simpl; try done. intros H.
  destruct (ns !! sourceId) as [source|]; [|done].
  apply (foldl_preserves (fun a => weights_ok a.1)); [|done].
  intros [ns' []] [k w]; simpl; try done. intros H'.
  destruct (ns' !! k) as [target|] eqn:E; [|done]. simpl.
  apply Forall_insert; [done|]. simpl. by eapply weights_ok_lookup.
Qed.

Lemma stdp_weight_ok (cfg : NeuronConfig) (sourceTime targetTime : Z) (w v : R) :
  stdp_weight cfg sourceTime targetTime w = Some v -> weight_ok v.
Proof.
  unfold stdp_weight, weight_ok. destruct (ltR _ 20); [|done].
  intros [= <-]. split.
  - apply Rmax_l.
  - apply Rmax_lub; [lra|apply Rmin_l].
Qed.

Lemma stdp_source_ok (cfg : NeuronConfig) (acc : list Neuron * completion)
    (sourceId : nat) :
  weights_ok acc.1 -> weights_ok (stdp_source cfg acc sourceId).1.
Proof.
  destruct acc as [ns []]; simpl; try done. intros H.
  destruct (ns !! sourceId) as [source|]; [|done].
  apply (foldl_preserves (fun a => weights_ok a.1)); [|done].
  intros [ns' []] [k w]; simpl; try done. intros H'.
  destruct (ns' !! k) as [target|]; [|done].
  destruct (lastSpikeTime target) as [targetTime|]; [|done].
  destruct (lastSpikeTime source) as [sourceTime|]; [|done].
  destruct (stdp_weight cfg sourceTime targetTime w) as [v|] eqn:E; [|done].
  simpl. apply weights_ok_alter; [|done].
  intros n Hn. simpl. apply conn_set_ok; [done|]. by eapply stdp_weight_ok.
Qed.

Lemma updateNeurons_config (net : SimulatedNeuralNetwork) :
  config (updateNeurons net).1 = config net.
Proof.
  unfold updateNeurons.
  destruct (foldl propagate_source _ _) as [ns []]; try done.
  destruct (if enableSTDP (config net) then _ else _) as [ns' []]; done.
Qed.

Lemma updateNeurons_ok (net : SimulatedNeuralNetwork) :
  weights_ok (neurons net) -> weights_ok (neurons (updateNeurons net).1).
Proof.
  intros H. unfold updateNeurons.
  set (updated := map (update_neuron (config net) (timeStep net + 1)) (neurons net)).
  set (spikes := map _ (filter _ updated)).
  assert (weights_ok (map fst updated)) as H1.
  { unfold weights_ok, updated. rewrite map_map. apply Forall_map.
    eapply Forall_impl; [exact H|]. intros n Hn.
    simpl. by rewrite update_neuron_connections. }
  assert (weights_ok (foldl propagate_source (map fst updated, Normal) spikes).1) as H2.
  { apply (foldl_preserves (fun a => weights_ok a.1)); [|done].
    intros a b. apply propagate_source_ok. }
  destruct (foldl propagate_source _ spikes) as [ns c]. simpl in H2.
  assert (weights_ok
            (if enableSTDP (config net) then applySTDP (config net) spikes ns
             else (ns, Normal)).1) as H3.
  { destruct (enableSTDP (config net)); [|done].
    apply (foldl_preserves (fun a => weights_ok a.1)); [|done].
    intros a b. apply stdp_source_ok. }
  destruct c; try done.
  destruct (if enableSTDP (config net) then _ else _) as [ns' []]; done.
Qed.

Lemma simulate_steps_ok (k : nat) (net : SimulatedNeuralNetwork) :
  weights_ok (neurons net) ->
  weights_ok (neurons (Nat.iter k simulate_step (net, Normal)).1)
  /\ config (Nat.iter k simulate_step (net, Normal)).1 = config net.
Proof.
  intros H. induction k as [|k [IH1 IH2]]; simpl; [done|].
  destruct (Nat.iter k simulate_step (net, Normal)) as [net' []]; simpl in *; try done.
  split; [by apply updateNeurons_ok|]. by rewrite updateNeurons_config.
Qed.

Lemma forward_ok (input : list R) (net : SimulatedNeuralNetwork) :
  weights_ok (neurons net) ->
  weights_ok (neurons (forward input net).1.1)
  /\ config (forward input net).1.1 = config net.
Proof.
  intros H. unfold forward.
  set (fed := foldl _ (neurons net) _).
  assert (weights_ok fed) as Hfed.
  { apply foldl_preserves; [|done]. intros ns ij Hns. unfold apply_input.
    destruct (_ <? _)%nat; [|done]. by apply weights_ok_alter. }
  set (net1 := mkNetwork fed _ _ _).
  destruct (simulate_steps_ok 10 net1 Hfed) as [H1 H2].
  destruct (Nat.iter 10 simulate_step (net1, Normal)) as [net2 c].
  destruct c; try done.
  by destruct (foldl (read_output _ _ _) _ _).
Qed.

Lemma strengthen_ok (cfg : NeuronConfig) (sourceId : nat)
    (acc : list Neuron * completion) (targetId : nat) :
  0 <= plasticityRate cfg ->
  weights_ok acc.1 -> weights_ok (strengthen cfg sourceId acc targetId).1.
Proof.
  intros Hrate. destruct acc as [ns []]; simpl; try done. intros H.
  destruct (ns !! sourceId) as [source|] eqn:E; [|done]. simpl.
  pose proof (weights_ok_lookup _ _ _ H E) as Hsrc.
  apply Forall_insert; [done|]. simpl. apply conn_set_ok; [done|].
  assert (weight_ok (default 0 (conn_get targetId (connections source)))) as Hcur.
  { destruct (conn_get targetId (connections source)) as [v|] eqn:Ev; simpl.
    - by eapply conn_get_ok.
    - unfold weight_ok. lra. }
  unfold weight_ok in *. split.
  - apply Rmin_glb; lra.
  - apply Rmin_l.
Qed.

Lemma hebbianLearning_ok (input target : list R) (net : SimulatedNeuralNetwork) :
  0 <= plasticityRate (config net) ->
  weights_ok (neurons net) ->
  weights_ok (neurons (hebbianLearning input target net).1)
  /\ config (hebbianLearning input target net).1 = config net.
Proof.
  intros Hrate H. unfold hebbianLearning. destruct input as [|x input].
  - by destruct (_ && _).
  - match goal with |- context [foldl ?f ?a ?l] =>
      assert (weights_ok (foldl f a l).1) as Hfold
    end.
    { apply (foldl_preserves (fun a => weights_ok a.1)); [|done].
      intros a sourceId Ha.
      apply (foldl_preserves (fun a => weights_ok a.1)); [|done].
      intros a' targetId. by apply strengthen_ok. }
    by destruct (foldl _ _ _).
Qed.

Lemma pruneConnections_ok (thresh : R) (net : SimulatedNeuralNetwork) :
  weights_ok (neurons net) -> weights_ok (neurons (pruneConnections thresh net)).
Proof.
  intros H. unfold pruneConnections, weights_ok. simpl.
  apply Forall_map. eapply Forall_impl; [exact H|].
  intros n Hn. simpl. unfold conns_ok in *. rewrite Forall_forall in *.
  intros e [_ He]%list_elem_of_filter. by apply Hn.
Qed.

Lemma perform_ok (c : call) (net : SimulatedNeuralNetwork) :
  0 <= plasticityRate (config net) ->
  weights_ok (neurons net) ->
  weights_ok (neurons (perform c net)) /\ config (perform c net) = config net.
Proof.
  intros Hrate H. destruct c; cbn [perform].
  - by apply forward_ok.
  - by apply hebbianLearning_ok.
  - split; [by apply pruneConnections_ok|done].
Qed.

(** C9, the claim as stated, at a concrete input: with
    [synapticStrength = -4] and [Math.random()] answering 0.05, the first
    connection drawn has weight [(0.05 - 0.5) * -4 = 1.8]. *)
Lemma negative_strength_escapes :
  synapticStrength inverted_config <= 2
  /\ 0 <= plasticityRate inverted_config
  /\ (forall k : nat, 0 <= (fun _ => 0.05) k < 1)
  /\ ~ weights_ok (neurons (constructor inverted_config (fun _ => 0.05))).
Proof.
  repeat split; simpl; try lra.
  assert (ltR 0.05 0.1 = true) as E by (apply ltR_true; lra).
  unfold constructor, initializeNeurons, weights_ok, conns_ok, neurons.
  repeat (cbn -[ltR]; rewrite ?E).
  intros H. apply Forall_cons_1 in H as [H0 _].
  apply Forall_cons_1 in H0 as [Hw _].
  unfold weight_ok in Hw. simpl in Hw. lra.
Qed.

(** C9, amended.  With [-2 <= synapticStrength <= 2], a non-negative
    [plasticityRate] and [Math.random()] in [0, 1), every connection
    weight lies in [-1, 1] after construction and after any sequence of
    [forward], [hebbianLearning] and [pruneConnections]. *)
Theorem weights_stay_in_range
    (cfg : NeuronConfig) (random : nat -> R) (cs : list call) :
  -2 <= synapticStrength cfg <= 2 ->
  0 <= plasticityRate cfg ->
  (forall k, 0 <= random k < 1) ->
  weights_ok (neurons (perform_all cs (constructor cfg random))).
Proof.
  intros HS Hrate Hr.
  assert (forall net, config net = cfg -> weights_ok (neurons net) ->
            weights_ok (neurons (perform_all cs net))) as Hall.
  { unfold perform_all. induction cs as [|c cs IH]; intros net Hc Hn; simpl; [done|].
    destruct (perform_ok c net) as [H1 H2]; [by rewrite Hc|done|].
    apply IH; [by rewrite H2|done]. }
  apply Hall; [done|]. simpl. by apply initializeNeurons_ok.
Qed.

Lemma weights_stay_in_range_witness :
  weights_ok (neurons (perform_all
     [CallHebbian [1; 0] [0; 1]; CallForward [1; 0]; CallPrune 0.1]
     (constructor small_config (fun _ => 0.05)))).
Proof.
  apply (weights_stay_in_range small_config (fun _ => 0.05)
           [CallHebbian [1; 0] [0; 1]; CallForward [1; 0]; CallPrune 0.1]).
  - simpl. lra.
  - simpl. lra.
  - intros k. lra.
Defined.

Lemma foldl_preserves_in {X Y : Type} (P : X -> Prop) (f : X -> Y -> X)
    (l : list Y) (a : X) :
  (forall a b, b ∈ l -> P a -> P (f a b)) -> P a -> P (foldl f a l).
Proof.
  revert a. induction l as [|b l IH]; intros a Hf Ha; simpl; [done|].
  apply IH.
  - intros a' b' Hb'. apply Hf. by right.
  - apply Hf; [by left|done].
Qed.

Lemma loop_pairs_spec (n m i j : nat) :
  (i, j) ∈ loop_pairs n m -> (i < n)%nat /\ (j < m)%nat.
Proof.
  unfold loop_pairs. rewrite list_elem_of_In, in_flat_map.
  intros (i' & Hi'%in_seq & Hj%in_map_iff).
  destruct Hj as (j' & [= <- <-] & Hj'%in_seq). lia.
Qed.

Lemma initializeNeurons_length (cfg : NeuronConfig) (random : nat -> R) :
  length (initializeNeurons cfg random) = numNeurons cfg.
Proof.
  unfold initializeNeurons.
  apply (foldl_preserves (fun st => length st.2 = numNeurons cfg)).
  - intros [k ns] [i j] H. simpl in *.
    destruct (i =? j)%nat; [done|].
    destruct (ltR (random k) 0.1); [|done]. simpl. by rewrite length_alter.
  - simpl. by rewrite length_map, length_seq.
Qed.

Lemma constructor_well_sized (cfg : NeuronConfig) (random : nat -> R) :
  well_sized (constructor cfg random).
Proof. apply initializeNeurons_length. Qed.

(** On a non-empty input [hebbianLearning] returns: every active input
    neuron lies inside the array. *)
Lemma hebbianLearning_returns (input target : list R) (net : SimulatedNeuralNetwork) :
  well_sized net -> input <> [] ->
  (hebbianLearning input target net).2 = Normal
  /\ well_sized (hebbianLearning input target net).1.
Proof.
  unfold well_sized, hebbianLearning. intros Hsize Hne.
  destruct input as [|x input]; [done|].
  set (len := length (x :: input)).
  set (npi := neuronsPerInput (config net) len).
  assert (len * npi <= numNeurons (config net))%nat as Hfit.
  { unfold npi, neuronsPerInput. apply Nat.Div0.mul_div_le. }
  match goal with |- context [foldl ?f ?a ?l] =>
    assert ((foldl f a l).2 = Normal
            /\ length (foldl f a l).1 = numNeurons (config net)) as Hfold
  end.
  { apply (foldl_preserves_in
             (fun a => a.2 = Normal /\ length a.1 = numNeurons (config net)));
      [|done].
    intros a sourceId Hsrc Ha.
    assert (sourceId < numNeurons (config net))%nat as Hlt.
    { unfold activeInput, active_pairs in Hsrc.
      apply list_elem_of_fmap in Hsrc as ([i j] & -> & Hij).
      apply list_elem_of_filter in Hij as [_ Hij].
      apply loop_pairs_spec in Hij. fold len in Hij. simpl. nia. }
    apply (foldl_preserves
             (fun a => a.2 = Normal /\ length a.1 = numNeurons (config net)));
      [|done].
    intros [ns c] targetId [Hc Hl]. simpl in *. subst c.
    destruct (lookup_lt_is_Some_2 ns sourceId) as [source Hs]; [lia|].
    rewrite Hs. simpl. by rewrite length_insert. }
  destruct (foldl _ _ _) as [ns c]. simpl in *. done.
Qed.

End Neurons.

(* ===================================================================== *)
(** ** FastLearner.cosineSimilarity, for any arithmetic *)
(* ===================================================================== *)

(** The body of [cosineSimilarity], written once over the operations it
    uses; it is read over the reals in [Fast] and over binary64 floats in
    [CosineF].  [missing] is what an index beyond the end of an array
    reads as. *)
Section CosineSimilarity.

Context {num : Type}.
Variables (zero missing : num).
Variables (plus times divide : num -> num -> num).
Variable root : num -> num.
Variable is_zero : num -> bool.

Definition item (a : list num) (i : nat) : num := nth i a missing.

(** The loop that accumulates [dotProduct], [normA] and [normB]. *)
Definition cosine_step (a b : list num) (acc : num * num * num) (i : nat)
    : num * num * num :=
  let '(dotProduct, normA, normB) := acc in
  (plus dotProduct (times (item a i) (item b i)),
   plus normA (times (item a i) (item a i)),
   plus normB (times (item b i) (item b i))).

Definition cosine_similarity (a b : list num) : num :=
  if negb (length a =? length b)%nat then zero
  else
    let '(dotProduct, normA, normB) :=
      foldl (cosine_step a b) (zero, zero, zero) (seq 0 (length a)) in
    let normA' := root normA in
    let normB' := root normB in
    if is_zero normA' || is_zero normB' then zero
    else divide dotProduct (times normA' normB').

End CosineSimilarity.

(* ===================================================================== *)
(** ** fast-learner.ts *)
(* ===================================================================== *)

Module Fast.

Import Neurons.
Local Open Scope R_scope.
Local Abbreviation sqrt := R_sqrt.sqrt.

Record EpisodicMemory : Type := mkMemory {
  id : string;
  input : list R;
  output : list R;
  context : string;
  timestamp : Z;
  accessCount : nat;
  lastAccessed : Z;
  importance : R
}.

Record FastLearnerConfig : Type := mkFastConfig {
  episodicMemorySize : Z;
  similarityThreshold : R;
  metaLearningRate : R;
  adaptiveThreshold : R;
  neuronConfig : NeuronConfig
}.

Record HistoryEntry : Type := mkHistory { error : R; time : Z }.

Record FastLearner : Type := mkLearner {
  episodicMemory : list EpisodicMemory;
  neuralNetwork : SimulatedNeuralNetwork;
  config : FastLearnerConfig;
  learningHistory : list HistoryEntry
}.

(** [new FastLearner(config)] *)
Definition constructor (cfg : FastLearnerConfig) (random : nat -> R) : FastLearner :=
  mkLearner [] (Neurons.constructor (neuronConfig cfg) random) cfg [].

(** *** [cosineSimilarity] *)

(** [x === 0] *)
Definition eq0 (x : R) : bool := if Req_dec_T x 0 then true else false.

Definition cosineSimilarity (a b : list R) : R :=
  cosine_similarity 0 0 Rplus Rmult Rdiv sqrt eq0 a b.

(** *** [encodeText] *)

(** [text.charCodeAt(i) % 256] for every position of the text; texts are
    strings of one-byte characters here. *)
Definition char_codes (text : string) : list nat :=
  map (fun c => (Ascii.nat_of_ascii c mod 256)%nat) (String.list_ascii_of_string text).

Definition sum_list (l : list R) : R := foldl Rplus 0 l.

Definition encodeText (text : string) : list R :=
  let len := INR (String.length text) in
  let counted :=
    foldl (fun encoding charCode => alter (fun v => v + 1 / len) charCode encoding)
          (repeat 0 256) (char_codes text) in
  let sum := sum_list counted in
  if ltR 0 sum then map (fun v => v / sum) counted else counted.

(** *** [findSimilar] *)

(** The best match so far, as its position in the memory, and its
    similarity. *)
Definition similar_step (threshold : R) (query : list R)
    (acc : option nat * R) (entry : nat * EpisodicMemory) : option nat * R :=
  let similarity := cosineSimilarity query (input entry.2) in
  if ltR threshold similarity && ltR acc.2 similarity
  then (Some entry.1, similarity) else acc.

Definition findSimilar (query : list R) (fl : FastLearner) : option nat :=
  (foldl (similar_step (similarityThreshold (config fl)) query) (None, 0)
         (imap (fun i m => (i, m)) (episodicMemory fl))).1.

(** *** [consolidateMemory] *)

Definition score (now : Z) (m : EpisodicMemory) : R :=
  importance m * ln (INR (accessCount m) + 1)
  * (1 / (IZR (now - lastAccessed m) + 1)).

(** [array.slice(0, n)] *)
Definition slice0 {X : Type} (n : Z) (l : list X) : list X :=
  if (n <? 0)%Z then take (Z.to_nat (Z.of_nat (length l) + n)) l
  else take (Z.to_nat n) l.

Definition consolidateMemory (now : Z) (fl : FastLearner) : FastLearner :=
  let sorted := sort_by (fun a b => leR (score now b - score now a) 0)
                        (episodicMemory fl) in
  mkLearner (slice0 (episodicMemorySize (config fl)) sorted)
            (neuralNetwork fl) (config fl) (learningHistory fl).

(** *** [learnFast] *)

Record LearnResult : Type := mkResult { learned : bool; recall : bool }.

(** What a call of [learnFast] does: it returns a result, or it ends the
    way [hebbianLearning] ended. *)
Inductive outcome : Type :=
| Returned (r : LearnResult)
| Failed (c : completion).

Definition touch (now : Z) (m : EpisodicMemory) : EpisodicMemory :=
  mkMemory (id m) (input m) (output m) (context m) (timestamp m)
           (S (accessCount m)) now (importance m * 1.1).

(** [learnFast(example)], [now] being the value of [Date.now()]. *)
Definition learnFast (example : Queue.TrainingExample) (now : Z) (fl : FastLearner)
    : FastLearner * outcome :=
  let input := encodeText (Queue.input example) in
  let target := encodeText (Queue.output example) in
  match findSimilar input fl with
  | Some position =>
      (mkLearner (alter (touch now) position (episodicMemory fl))
                 (neuralNetwork fl) (config fl) (learningHistory fl),
       Returned (mkResult false true))
  | None =>
      let memory := mkMemory (Queue.id example) input target (Queue.input example)
                             now 1 now 1 in
      let stored := episodicMemory fl ++ [memory] in
      match hebbianLearning input target (neuralNetwork fl) with
      | (net, Normal) =>
          let fl1 := mkLearner stored net (config fl) (learningHistory fl) in
          (if (episodicMemorySize (config fl) <? Z.of_nat (length stored))%Z
           then consolidateMemory now fl1 else fl1,
           Returned (mkResult true false))
      | (net, c) =>
          (mkLearner stored net (config fl) (learningHistory fl), Failed c)
      end
  end.

(** *** [metaLearn] *)

(** [computeError(prediction, target)] *)
Definition computeError (prediction target : list R) : R :=
  let len := Nat.min (length prediction) (length target) in
  let err := foldl (fun e i => e + (get prediction i - get target i)
                                   * (get prediction i - get target i))
                   0 (seq 0 len) in
  sqrt (err / INR len).

(** [adaptLearningStrategy()] *)
Definition adaptLearningStrategy (fl : FastLearner) : FastLearner :=
  if (length (learningHistory fl) <? 10)%nat then fl
  else
    let recent := drop (length (learningHistory fl) - 10) (learningHistory fl) in
    let trend := default 0 (error <$> last recent) - default 0 (error <$> head recent) in
    let rate := metaLearningRate (config fl) in
    let adapted := if ltR trend 0 then rate * 1.05 else rate * 0.95 in
    let clamped := Rmax 0.001 (Rmin 0.1 adapted) in
    let c := config fl in
    mkLearner (episodicMemory fl) (neuralNetwork fl)
      (mkFastConfig (episodicMemorySize c) (similarityThreshold c) clamped
                    (adaptiveThreshold c) (neuronConfig c))
      (learningHistory fl).

(** One turn of the loop of [metaLearn]: the network, the errors so far,
    and how the loop stands. *)
Definition meta_step (cfg : FastLearnerConfig)
    (acc : SimulatedNeuralNetwork * list R * completion)
    (example : Queue.TrainingExample)
    : SimulatedNeuralNetwork * list R * completion :=
  match acc with
  | (net, errors, Normal) =>
      let input := encodeText (Queue.input example) in
      let target := encodeText (Queue.output example) in
      match forward input net with
      | (net1, Normal, prediction) =>
          let err := computeError prediction target in
          if ltR (adaptiveThreshold cfg) err then
            match hebbianLearning input target net1 with
            | (net2, c) => (net2, errors ++ [err], c)
            end
          else (net1, errors ++ [err], Normal)
      | (net1, c, _) => (net1, errors, c)
      end
  | _ => acc
  end.

(** [metaLearn(examples)] *)
Definition metaLearn (examples : list Queue.TrainingExample) (now : Z)
    (fl : FastLearner) : FastLearner * completion :=
  match foldl (meta_step (config fl)) (neuralNetwork fl, [], Normal) examples with
  | (net, errors, Normal) =>
      let entry := mkHistory (sum_list errors / INR (length errors)) now in
      (adaptLearningStrategy
         (mkLearner (episodicMemory fl) net (config fl) (learningHistory fl ++ [entry])),
       Normal)
  | (net, _, c) =>
      (mkLearner (episodicMemory fl) net (config fl) (learningHistory fl), c)
  end.

(** The sums the loop of [cosineSimilarity] builds, by recursion on the
    vectors. *)
Fixpoint dot (a b : list R) : R :=
  match a, b with
  | x :: a', y :: b' => x * y + dot a' b'
  | _, _ => 0
  end.

Definition zero_vector (a : list R) : Prop := Forall (fun x => x = 0) a.

(** The configuration the training engine passes by default. *)
Definition defaultConfig : FastLearnerConfig :=
  mkFastConfig 1000 0.85 0.01 0.1 (mkNeuronConfig 1000 1 5 0.1 0.5 0.01 true).

(** The running best match of [findSimilar] over a memory. *)
Definition best_match (threshold : R) (query : list R) (mem : list EpisodicMemory)
    : option nat * R :=
  foldl (similar_step threshold query) (None, 0) (imap (fun i m => (i, m)) mem).

(** The memory [learnFast] stores for an example. *)
Definition memory_of (example : Queue.TrainingExample) (now : Z) : EpisodicMemory :=
  mkMemory (Queue.id example) (encodeText (Queue.input example))
           (encodeText (Queue.output example)) (Queue.input example) now 1 now 1.

(** An example whose input is the empty string, and an ordinary one. *)
Definition blank_example : Queue.TrainingExample :=
  Queue.mkExample "e1" "" "ok" Queue.HIGH 0 None.

Definition greeting_example : Queue.TrainingExample :=
  Queue.mkExample "e2" "hello" "hi there" Queue.HIGH 0 None.

Definition new_learner : FastLearner := constructor defaultConfig (fun _ => 0.5).

(** *** Properties of the cosine similarity *)

Lemma eq0_true (x : R) : x = 0 -> eq0 x = true.
Proof. intros ->. unfold eq0. by destruct (Req_dec_T 0 0). Qed.

Lemma eq0_false (x : R) : x <> 0 -> eq0 x = false.
Proof. intros H. unfold eq0. by destruct (Req_dec_T x 0). Qed.

Lemma cosine_loop_shift (x y : R) (a b : list R) (acc : R * R * R) (k n : nat) :
  foldl (cosine_step 0 Rplus Rmult (x :: a) (y :: b)) acc (seq (S k) n)
  = foldl (cosine_step 0 Rplus Rmult a b) acc (seq k n).
Proof.
  revert k acc. induction n as [|n IH]; intros k acc; simpl; [done|].
  rewrite IH. f_equal.
Qed.

Lemma cosine_loop (a b : list R) (d na nb : R) :
  length a = length b ->
  foldl (cosine_step 0 Rplus Rmult a b) (d, na, nb) (seq 0 (length a))
  = (d + dot a b, na + dot a a, nb + dot b b).
Proof.
  revert b d na nb. induction a as [|x a IH]; intros [|y b] d na nb Hlen;
    try discriminate; simpl.
  - by rewrite !Rplus_0_r.
  - rewrite cosine_loop_shift.
    rewrite IH by (simpl in Hlen; lia).
    f_equal; [f_equal|]; ring.
Qed.

Lemma dot_self_nonneg (a : list R) : 0 <= dot a a.
Proof. induction a as [|x a IH]; simpl; [lra|nra]. Qed.

Lemma dot_self_zero (a : list R) : dot a a = 0 -> zero_vector a.
Proof.
  unfold zero_vector. induction a as [|x a IH]; simpl; [constructor|].
  intros H. pose proof (dot_self_nonneg a).
  assert (x * x = 0 /\ dot a a = 0) as [Hx Ha] by (split; nra).
  constructor; [nra|auto].
Qed.

Lemma zero_vector_dot_self (a : list R) : zero_vector a -> dot a a = 0.
Proof.
  unfold zero_vector. induction 1 as [|x a Hx _ IH]; simpl; [done|].
  rewrite Hx, IH. ring.
Qed.



Lemma cosineSimilarity_eq (a b : list R) :
  length a = length b ->
  cosineSimilarity a b
  = if eq0 (sqrt (dot a a)) || eq0 (sqrt (dot b b)) then 0
    else dot a b / (sqrt (dot a a) * sqrt (dot b b)).
Proof.
  intros Hlen. unfold cosineSimilarity, cosine_similarity.
  rewrite Hlen, Nat.eqb_refl. simpl. rewrite <- Hlen.
  rewrite (cosine_loop a b 0 0 0 Hlen), !Rplus_0_l. done.
Qed.

(** The similarity of a vector with itself is 1 unless the vector is zero. *)
Lemma cosineSimilarity_self (a : list R) :
  dot a a <> 0 -> cosineSimilarity a a = 1.
Proof.
  intros NE. rewrite cosineSimilarity_eq by done.
  pose proof (dot_self_nonneg a) as HA.
  assert (sqrt (dot a a) <> 0) as Hs.
  { intros E. apply sqrt_eq_0 in E; done. }
  rewrite (eq0_false _ Hs). simpl.
  rewrite sqrt_sqrt by done. field. done.
Qed.

Lemma cosineSimilarity_zero_vector (a b : list R) :
  zero_vector a \/ zero_vector b -> cosineSimilarity a b = 0.
Proof.
  destruct (Nat.eq_dec (length a) (length b)) as [Hlen|Hlen].
  - rewrite cosineSimilarity_eq by done.
    intros [Hz|Hz]; apply zero_vector_dot_self in Hz; rewrite Hz, sqrt_0.
    + by rewrite (eq0_true 0).
    + rewrite (eq0_true 0) by done. by rewrite orb_true_r.
  - intros _. unfold cosineSimilarity, cosine_similarity.
    apply Nat.eqb_neq in Hlen. by rewrite Hlen.
Qed.


(** *** Properties of the text encoding *)

Lemma foldl_Rplus (acc : R) (l : list R) : foldl Rplus acc l = acc + sum_list l.
Proof.
  unfold sum_list. revert acc. induction l as [|x l IH]; intros acc; simpl.
  - lra.
  - rewrite (IH (acc + x)), (IH (0 + x)). lra.
Qed.

Lemma sum_list_cons (x : R) (l : list R) : sum_list (x :: l) = x + sum_list l.
Proof. unfold sum_list at 1. simpl. rewrite foldl_Rplus. lra. Qed.

Lemma sum_list_alter (l : list R) (i : nat) (d : R) :
  (i < length l)%nat -> sum_list (alter (fun v => v + d) i l) = sum_list l + d.
Proof.
  revert i. induction l as [|x l IH]; intros [|i] Hi; simpl in Hi; try lia.
  - change (alter (fun v => v + d) 0%nat (x :: l)) with ((x + d) :: l).
    rewrite !sum_list_cons. lra.
  - change (alter (fun v => v + d) (S i) (x :: l))
      with (x :: alter (fun v => v + d) i l).
    rewrite !sum_list_cons, IH by lia. lra.
Qed.

Lemma zero_vector_sum (l : list R) : zero_vector l -> sum_list l = 0.
Proof.
  induction 1 as [|x l Hx _ IH]; [done|]. rewrite sum_list_cons, Hx, IH. lra.
Qed.

Lemma zero_vector_repeat (n : nat) : zero_vector (repeat 0 n).
Proof. unfold zero_vector. induction n; simpl; constructor; auto. Qed.

Lemma counted_sum (d : R) (codes : list nat) (encoding : list R) :
  Forall (fun c => (c < length encoding)%nat) codes ->
  sum_list (foldl (fun e c => alter (fun v => v + d) c e) encoding codes)
  = sum_list encoding + INR (length codes) * d.
Proof.
  revert encoding. induction codes as [|c codes IH]; intros encoding Hc.
  - simpl. lra.
  - inversion Hc as [|? ? Hc1 Hc2]; subst.
    cbn [foldl]. rewrite IH.
    + rewrite sum_list_alter by done.
      change (length (c :: codes)) with (S (length codes)). rewrite S_INR. lra.
    + eapply Forall_impl; [exact Hc2|]. intros c'. simpl. by rewrite length_alter.
Qed.

Lemma length_char_codes (text : string) :
  length (char_codes text) = String.length text.
Proof.
  unfold char_codes. rewrite length_map.
  induction text as [|c text IH]; simpl; [done|]. by rewrite IH.
Qed.

Lemma char_codes_bounded (text : string) :
  Forall (fun c => (c < 256)%nat) (char_codes text).
Proof.
  unfold char_codes. apply Forall_forall.
  intros c (a & -> & _)%list_elem_of_fmap. by apply Nat.mod_upper_bound.
Qed.

Lemma encodeText_empty : encodeText "" = repeat 0 256.
Proof.
  unfold encodeText. cbn [char_codes String.list_ascii_of_string map foldl].
  rewrite (zero_vector_sum _ (zero_vector_repeat 256)).
  assert (ltR 0 0 = false) as -> by (apply ltR_false; lra). done.
Qed.

(** The encoding of a non-empty text is not the zero vector. *)
Lemma encodeText_nonzero (text : string) :
  text <> ""%string -> dot (encodeText text) (encodeText text) <> 0.
Proof.
  intros Hne. unfold encodeText.
  set (len := INR (String.length text)).
  set (counted := foldl _ (repeat 0 256) (char_codes text)).
  assert (0 < String.length text)%nat as Hpos by (destruct text; simpl; [done|lia]).
  assert (0 < len) as Hlen by (unfold len; by apply lt_0_INR).
  assert (sum_list counted = 1) as Hsum.
  { unfold counted. rewrite counted_sum.
    - rewrite (zero_vector_sum _ (zero_vector_repeat 256)), length_char_codes.
      fold len. field. lra.
    - rewrite repeat_length. apply char_codes_bounded. }
  rewrite Hsum. assert (ltR 0 1 = true) as -> by (apply ltR_true; lra).
  intros Hdot. apply dot_self_zero in Hdot.
  assert (zero_vector counted) as Hz.
  { unfold zero_vector in *. rewrite Forall_forall in *. intros v Hv.
    specialize (Hdot (v / 1)). rewrite <- (Hdot ltac:(apply list_elem_of_fmap; eauto)).
    field. }
  apply zero_vector_sum in Hz. lra.
Qed.

(** *** Properties of the episodic memory *)

Lemma findSimilar_best_match (query : list R) (fl : FastLearner) :
  findSimilar query fl
  = (best_match (similarityThreshold (config fl)) query (episodicMemory fl)).1.
Proof. reflexivity. Qed.

Lemma best_match_snoc (thr : R) (query : list R) (old : list EpisodicMemory)
    (m : EpisodicMemory) :
  best_match thr query (old ++ [m])
  = similar_step thr query (best_match thr query old) (length old, m).
Proof.
  unfold best_match. rewrite imap_app, foldl_app. simpl.
  by rewrite Nat.add_0_r.
Qed.

Lemma best_match_none (thr : R) (query : list R) (mem : list EpisodicMemory) :
  (best_match thr query mem).1 = None -> best_match thr query mem = (None, 0).
Proof.
  unfold best_match.
  assert (forall acc l, (acc.1 = None -> acc.2 = 0) ->
            (foldl (similar_step thr query) acc l).1 = None ->
            (foldl (similar_step thr query) acc l).2 = 0) as H.
  { intros acc l. revert acc. induction l as [|e l IH]; intros acc Hacc; simpl; [done|].
    apply IH. unfold similar_step. destruct (_ && _); [done|exact Hacc]. }
  intros Hnone. specialize (H (None, 0) _ (fun _ => eq_refl) Hnone).
  destruct (foldl _ _ _) as [o r]. simpl in *. by subst.
Qed.

(** Nothing similar in memory, room for one more entry: [learnFast] stores
    the example and returns [learned]. *)
Lemma learnFast_new (ex : Queue.TrainingExample) (now : Z) (fl : FastLearner) :
  findSimilar (encodeText (Queue.input ex)) fl = None ->
  (Z.of_nat (length (episodicMemory fl)) < episodicMemorySize (config fl))%Z ->
  well_sized (neuralNetwork fl) ->
  exists net,
    well_sized net
    /\ learnFast ex now fl
       = (mkLearner (episodicMemory fl ++ [memory_of ex now]) net (config fl)
            (learningHistory fl), Returned (mkResult true false)).
Proof.
  intros Hnone Hroom Hsize. unfold learnFast. rewrite Hnone.
  assert (encodeText (Queue.input ex) <> []) as Hin.
  { unfold encodeText. destruct (ltR 0 _); intros E;
      apply (f_equal length) in E; revert E;
      rewrite ?length_map; set (codes := char_codes _);
      assert (forall e, length (foldl (fun e c => alter (fun v => v + 1 /
                INR (String.length (Queue.input ex))) c e) e codes) = length e) as ->
        by (induction codes as [|c codes IH]; intros e; simpl;
            [done|by rewrite IH, length_alter]);
      by rewrite repeat_length. }
  destruct (hebbianLearning_returns (encodeText (Queue.input ex))
              (encodeText (Queue.output ex)) (neuralNetwork fl) Hsize Hin) as [Hc Hw].
  destruct (hebbianLearning _ _ _) as [net c]. simpl in Hc, Hw. subst c.
  exists net. split; [done|].
  rewrite length_app. simpl.
  destruct (Z.ltb_spec (episodicMemorySize (config fl))
              (Z.of_nat (length (episodicMemory fl) + 1))); [lia|done].
Qed.

(** C7, the claim as stated, at a concrete input: the empty text encodes
    to the zero vector, whose similarity to itself is 0, so the second
    call does not recall anything: it learns again, and the memory holds
    two entries. *)
Lemma learnFast_twice_blank_input :
  similarityThreshold (config new_learner) = 0.85
  /\ episodicMemory new_learner = []
  /\ (learnFast blank_example 1 new_learner).2 = Returned (mkResult true false)
  /\ (learnFast blank_example 2 (learnFast blank_example 1 new_learner).1).2
     = Returned (mkResult true false)
  /\ length (episodicMemory
               (learnFast blank_example 2 (learnFast blank_example 1 new_learner).1).1)
     = 2%nat.
Proof.
  split; [done|]. split; [done|].
  destruct (learnFast_new blank_example 1 new_learner) as (net1 & Hw1 & E1).
  - done.
  - simpl. lia.
  - apply constructor_well_sized.
  - rewrite E1. split; [done|]. cbn [fst].
    destruct (learnFast_new blank_example 2
                (mkLearner (episodicMemory new_learner ++ [memory_of blank_example 1])
                   net1 (config new_learner) (learningHistory new_learner)))
      as (net2 & Hw2 & E2).
    + rewrite findSimilar_best_match. cbn [config episodicMemory new_learner constructor].
      rewrite best_match_snoc. unfold similar_step. cbn [fst snd].
      rewrite cosineSimilarity_zero_vector.
      * assert (ltR (similarityThreshold defaultConfig) 0 = false) as ->; [|done].
        apply ltR_false. simpl. lra.
      * left. change (Queue.input blank_example) with ""%string.
        rewrite encodeText_empty. apply zero_vector_repeat.
    + simpl. lia.
    + done.
    + rewrite E2. split; [done|]. simpl. done.
Qed.

(** C7, amended.  For an example with a non-empty input, a learner with
    [similarityThreshold = 0.85] that holds nothing similar and has room
    for one more memory (a new learner with [episodicMemorySize >= 1], for
    one) learns at the first call, recalls at the second, and the memory
    grows by exactly one entry. *)
Theorem learnFast_twice
    (ex : Queue.TrainingExample) (now1 now2 : Z) (fl : FastLearner) :
  similarityThreshold (config fl) = 0.85 ->
  Queue.input ex <> ""%string ->
  findSimilar (encodeText (Queue.input ex)) fl = None ->
  (Z.of_nat (length (episodicMemory fl)) < episodicMemorySize (config fl))%Z ->
  well_sized (neuralNetwork fl) ->
  (learnFast ex now1 fl).2 = Returned (mkResult true false)
  /\ (learnFast ex now2 (learnFast ex now1 fl).1).2 = Returned (mkResult false true)
  /\ length (episodicMemory (learnFast ex now2 (learnFast ex now1 fl).1).1)
     = S (length (episodicMemory fl)).
Proof.
  intros Hthr Hne Hnone Hroom Hsize.
  destruct (learnFast_new ex now1 fl Hnone Hroom Hsize) as (net1 & _ & E1).
  rewrite E1. split; [done|]. cbn [fst].
  assert (findSimilar (encodeText (Queue.input ex))
            (mkLearner (episodicMemory fl ++ [memory_of ex now1]) net1 (config fl)
               (learningHistory fl)) = Some (length (episodicMemory fl))) as Hfound.
  { rewrite findSimilar_best_match. cbn [config episodicMemory].
    rewrite best_match_snoc.
    rewrite findSimilar_best_match in Hnone. apply best_match_none in Hnone.
    rewrite Hnone. unfold similar_step. cbn [fst snd memory_of input].
    rewrite cosineSimilarity_self by (by apply encodeText_nonzero).
    rewrite Hthr.
    assert (ltR 0.85 1 = true) as -> by (apply ltR_true; lra).
    assert (ltR 0 1 = true) as -> by (apply ltR_true; lra). done. }
  unfold learnFast at 1 2. rewrite Hfound. cbn [fst snd episodicMemory].
  split; [done|]. rewrite length_alter, length_app. simpl. lia.
Qed.

Lemma learnFast_twice_witness :
  (learnFast greeting_example 1 new_learner).2 = Returned (mkResult true false)
  /\ (learnFast greeting_example 2 (learnFast greeting_example 1 new_learner).1).2
     = Returned (mkResult false true)
  /\ length (episodicMemory
               (learnFast greeting_example 2
                  (learnFast greeting_example 1 new_learner).1).1)
     = S (length (episodicMemory new_learner)).
Proof.
  apply (learnFast_twice greeting_example 1 2 new_learner).
  - reflexivity.
  - discriminate.
  - reflexivity.
  - simpl. lia.
  - apply constructor_well_sized.
Defined.

End Fast.

(* ===================================================================== *)
(** ** cosineSimilarity on binary64 *)
(* ===================================================================== *)

(** [cosineSimilarity] on the doubles the code computes with: the elements
    of a [Float32Array] read as doubles, every operation rounded. *)
Module CosineF.

Local Open Scope float_scope.
Local Abbreviation sqrt := PrimFloat.sqrt.

Definition cosineSimilarity (a b : list float) : float :=
  cosine_similarity 0 nan PrimFloat.add PrimFloat.mul PrimFloat.div sqrt
    (fun x => x =? 0) a b.

(** The zero-norm guard is part of the code whatever the arithmetic: when
    the computed [normA] is zero the result is 0. *)
Lemma cosineSimilarity_zero_guard (a b : list float) :
  length a = length b ->
  (sqrt (foldl (cosine_step nan PrimFloat.add PrimFloat.mul a b) (0, 0, 0)
           (seq 0 (length a))).1.2 =? 0) = true ->
  cosineSimilarity a b = 0.
Proof.
  intros Hlen H. unfold cosineSimilarity, cosine_similarity.
  rewrite Hlen, Nat.eqb_refl. simpl. rewrite <- Hlen.
  destruct (foldl _ _ _) as [[d na] nb]. simpl in H. by rewrite H.
Qed.


End CosineF.

(* ===================================================================== *)
(** ** training-engine.ts *)
(* ===================================================================== *)

Module Engine.

Import Neurons.
Local Open Scope R_scope.

Inductive Mode : Type := ModeLora | ModeFull | ModeHybrid.

Record TrainingConfig : Type := mkTrainingConfig {
  mode : Mode;
  learningRate : R;
  batchSize : nat;
  maxGradNorm : R;
  weightDecay : R;
  warmupSteps : R;
  maxSteps : R;
  evalInterval : nat;
  saveInterval : nat
}.

Record TrainingMetrics : Type := mkTrainingMetrics {
  m_step : nat;
  m_loss : R;
  m_learningRate : R;
  m_gradNorm : R;
  m_examplesProcessed : nat;
  m_timestamp : Z
}.

Record FastLearningStats : Type := mkStats {
  oneShot : nat;
  recalled : nat;
  traditional : nat
}.

(** [getLearningRate()] at the engine's current [step]. *)
Definition getLearningRate (cfg : TrainingConfig) (step : nat) : R :=
  if ltR (INR step) (warmupSteps cfg) then
    learningRate cfg * (INR step / warmupSteps cfg)
  else
    let progress := (INR step - warmupSteps cfg) / (maxSteps cfg - warmupSteps cfg) in
    learningRate cfg * 0.5 * (1 + cos (PI * progress)).

(** A schedule with 10 warm-up steps out of 100. *)
Definition sample_config : TrainingConfig :=
  mkTrainingConfig ModeHybrid 0.001 4 1 0.01 10 100 10 100.

(** The gradient path of the engine ([LoRAAdapter.zeroGrad],
    [trainExample] with its forward and backward passes, [updateWeights])
    acts on the adapter and the model only; [trainBatch] hands it the
    examples and reads back a loss and a gradient norm.  It is kept
    abstract here. *)
Section TrainBatch.

Context {Trainer : Type}.
Variable zeroGrad : Trainer -> Trainer.
Variable trainExample : Trainer -> Queue.TrainingExample -> Trainer * (R * R).
Variable updateWeights : R -> nat -> Trainer -> Trainer.

Record TrainingEngine : Type := mkEngine {
  config : TrainingConfig;
  trainer : Trainer;
  fastLearner : option Fast.FastLearner;
  step : nat;
  isTraining : bool;
  metrics : list TrainingMetrics;
  fastLearningStats : FastLearningStats
}.

(** The first loop of [trainBatch]: the learner, the counters, the
    examples left for traditional training, and how the loop stands. *)
Definition fast_step (now : Z)
    (acc : Fast.FastLearner * FastLearningStats * list Queue.TrainingExample * completion)
    (example : Queue.TrainingExample)
    : Fast.FastLearner * FastLearningStats * list Queue.TrainingExample * completion :=
  match acc with
  | (fl, stats, remaining, Normal) =>
      match Fast.learnFast example now fl with
      | (fl', Fast.Returned r) =>
          if Fast.learned r then
            (fl', mkStats (S (oneShot stats)) (recalled stats) (traditional stats),
             remaining, Normal)
          else if Fast.recall r then
            (fl', mkStats (oneShot stats) (S (recalled stats)) (traditional stats),
             remaining, Normal)
          else (fl', stats, remaining ++ [example], Normal)
      | (fl', Fast.Failed c) => (fl', stats, remaining, c)
      end
  | _ => acc
  end.

Definition fast_pass (now : Z) (examples : list Queue.TrainingExample)
    (fl : Fast.FastLearner) (stats : FastLearningStats)
    : Fast.FastLearner * FastLearningStats * list Queue.TrainingExample * completion :=
  foldl (fast_step now) (fl, stats, [], Normal) examples.

(** The loop over [trainExample]: the trainer and the two running sums. *)
Definition train_step (acc : Trainer * R * R) (example : Queue.TrainingExample)
    : Trainer * R * R :=
  let '(tr, totalLoss, totalGradNorm) := acc in
  let '(tr', (loss, gradNorm)) := trainExample tr example in
  (tr', totalLoss + loss, totalGradNorm + gradNorm).

(** What a call of [trainBatch] does: its promise resolves with a metrics
    record, or the call ends the way the fast learner ended. *)
Inductive batch_outcome : Type :=
| Completed (m : TrainingMetrics)
| Aborted (c : completion).

(** Traditional training on [examples], the fast learner being [fl]. *)
Definition train_traditional (now : Z) (examples : list Queue.TrainingExample)
    (fl : option Fast.FastLearner) (stats : FastLearningStats) (e : TrainingEngine)
    : TrainingEngine * batch_outcome :=
  let '(tr, totalLoss, totalGradNorm) :=
    foldl train_step (zeroGrad (trainer e), 0, 0) examples in
  let n := length examples in
  let avgLoss := if (0 <? n)%nat then totalLoss / INR n else 0.01 in
  let avgGradNorm := if (0 <? n)%nat then totalGradNorm / INR n else 0 in
  let tr' := updateWeights (getLearningRate (config e) (step e)) (step e) tr in
  let step' := S (step e) in
  let record := mkTrainingMetrics step' avgLoss (getLearningRate (config e) step')
                  avgGradNorm n now in
  (mkEngine (config e) tr' fl step' false (metrics e ++ [record])
     (mkStats (oneShot stats) (recalled stats) (traditional stats + n)),
   Completed record).

(** [trainBatch(examples)], [now] being the value of [Date.now()]. *)
Definition trainBatch (examples : list Queue.TrainingExample) (now : Z)
    (e : TrainingEngine) : TrainingEngine * batch_outcome :=
  match fastLearner e with
  | Some fl =>
      match fast_pass now examples fl (fastLearningStats e) with
      | (fl', stats, [], Normal) =>
          (mkEngine (config e) (trainer e) (Some fl') (S (step e)) false (metrics e) stats,
           Completed (mkTrainingMetrics (step e) 0.01
                        (getLearningRate (config e) (S (step e))) 0
                        (length examples) now))
      | (fl', stats, remaining, Normal) =>
          match Fast.metaLearn remaining now fl' with
          | (fl'', Normal) => train_traditional now remaining (Some fl'') stats e
          | (fl'', c) =>
              (mkEngine (config e) (trainer e) (Some fl'') (step e) true (metrics e) stats,
               Aborted c)
          end
      | (fl', stats, _, c) =>
          (mkEngine (config e) (trainer e) (Some fl') (step e) true (metrics e) stats,
           Aborted c)
      end
  | None => train_traditional now examples None (fastLearningStats e) e
  end.

End TrainBatch.

(** An engine in hybrid mode with fast learning enabled, before its first
    batch; the gradient path is trivial. *)
Definition fresh_engine : TrainingEngine (Trainer := unit) :=
  mkEngine sample_config tt (Some Fast.new_learner) 0 false [] (mkStats 0 0 0).

(** *** The metrics log *)

Section TrainBatchProperties.

Context {Trainer : Type}.
Variable zeroGrad : Trainer -> Trainer.
Variable trainExample : Trainer -> Queue.TrainingExample -> Trainer * (R * R).
Variable updateWeights : R -> nat -> Trainer -> Trainer.

Local Abbreviation TrainingEngine := (@TrainingEngine Trainer).
Local Abbreviation train_traditional :=
  (train_traditional zeroGrad trainExample updateWeights).
Local Abbreviation trainBatch := (trainBatch zeroGrad trainExample updateWeights).

(** The traditional path appends its record to the log. *)
Lemma train_traditional_logs (now : Z) (examples : list Queue.TrainingExample)
    (fl : option Fast.FastLearner) (stats : FastLearningStats) (e : TrainingEngine) :
  exists record,
    (train_traditional now examples fl stats e).2 = Completed record
    /\ metrics (train_traditional now examples fl stats e).1 = metrics e ++ [record].
Proof.
  unfold train_traditional.
  destruct (foldl _ _ examples) as [[tr totalLoss] totalGradNorm].
  simpl. eauto.
Qed.

Lemma trainBatch_without_fast_learner_logs (examples : list Queue.TrainingExample)
    (now : Z) (e : TrainingEngine) :
  fastLearner e = None ->
  exists record,
    (trainBatch examples now e).2 = Completed record
    /\ metrics (trainBatch examples now e).1 = metrics e ++ [record].
Proof.
  intros H. unfold trainBatch. rewrite H. apply train_traditional_logs.
Qed.

(** C4 (evaluated on the code).  When the fast learner handles every
    example of the batch, [trainBatch] completes with a record of loss
    0.01 and advances [step], but returns before the [push]: the metrics
    log is left as it was. *)
Theorem trainBatch_short_circuit_skips_log
    (examples : list Queue.TrainingExample) (now : Z) (e : TrainingEngine)
    (fl fl' : Fast.FastLearner) (stats : FastLearningStats) :
  fastLearner e = Some fl ->
  fast_pass now examples fl (fastLearningStats e) = (fl', stats, [], Normal) ->
  (exists record,
      (trainBatch examples now e).2 = Completed record /\ m_loss record = 0.01)
  /\ metrics (trainBatch examples now e).1 = metrics e
  /\ length (metrics (trainBatch examples now e).1) <> S (length (metrics e))
  /\ step (trainBatch examples now e).1 = S (step e).
Proof.
  intros Hfl Hpass. unfold trainBatch. rewrite Hfl, Hpass. simpl.
  repeat split; [eexists; split; reflexivity|lia].
Qed.

End TrainBatchProperties.

Lemma trainBatch_short_circuit_skips_log_witness :
  (exists record,
      (trainBatch (fun tr => tr) (fun tr _ => (tr, (0, 0))) (fun _ _ tr => tr)
         [] 1 fresh_engine).2 = Completed record /\ m_loss record = 0.01)
  /\ metrics (trainBatch (fun tr => tr) (fun tr _ => (tr, (0, 0))) (fun _ _ tr => tr)
                [] 1 fresh_engine).1 = metrics fresh_engine
  /\ length (metrics (trainBatch (fun tr => tr) (fun tr _ => (tr, (0, 0)))
                        (fun _ _ tr => tr) [] 1 fresh_engine).1)
     <> S (length (metrics fresh_engine))
  /\ step (trainBatch (fun tr => tr) (fun tr _ => (tr, (0, 0))) (fun _ _ tr => tr)
             [] 1 fresh_engine).1 = S (step fresh_engine).
Proof.
  apply (trainBatch_short_circuit_skips_log (fun tr => tr) (fun tr _ => (tr, (0, 0)))
           (fun _ _ tr => tr) [] 1 fresh_engine Fast.new_learner Fast.new_learner
           (mkStats 0 0 0)); reflexivity.
Defined.

(** The same on a batch of one new example, which the fast learner learns
    in one shot. *)
Lemma trainBatch_one_shot_batch_not_logged :
  metrics (trainBatch (fun tr => tr) (fun tr _ => (tr, (0, 0))) (fun _ _ tr => tr)
             [Fast.greeting_example] 1 fresh_engine).1 = [].
Proof.
  destruct (Fast.learnFast_new Fast.greeting_example 1 Fast.new_learner)
    as (net & _ & E).
  - reflexivity.
  - simpl. lia.
  - apply constructor_well_sized.
  - unfold trainBatch, fast_pass. cbn [fastLearner fresh_engine foldl fast_step].
    rewrite E. reflexivity.
Qed.

(** *** The learning-rate schedule *)


Lemma getLearningRate_decay (cfg : TrainingConfig) (step : nat) :
  warmupSteps cfg <= INR step ->
  getLearningRate cfg step
  = learningRate cfg * 0.5
    * (1 + cos (PI * ((INR step - warmupSteps cfg) / (maxSteps cfg - warmupSteps cfg)))).
Proof.
  intros H. unfold getLearningRate.
  assert (ltR (INR step) (warmupSteps cfg) = false) as -> by (by apply ltR_false).
  done.
Qed.



End Engine.

(* ===================================================================== *)
(** ** training-queue.ts: the remaining operations *)
(* ===================================================================== *)

Module QueueOps.

Import Queue.

(** The code units below 256 that [String.prototype.trim] strips: tab,
    line feed, vertical tab, form feed, carriage return, space and
    no-break space. *)
Definition is_space (c : Ascii.ascii) : bool :=
  let n := Ascii.nat_of_ascii c in
  ((9 <=? n) && (n <=? 13) || (n =? 32) || (n =? 160))%nat.

Fixpoint trim_start (s : string) : string :=
  match s with
  | String c s' => if is_space c then trim_start s' else s
  | EmptyString => EmptyString
  end.

(** [s.trim().length] *)
Definition trimmed_length (s : string) : nat :=
  String.length (trim_start (String.string_of_list_ascii
    (rev (String.list_ascii_of_string
      (trim_start (String.string_of_list_ascii
        (rev (String.list_ascii_of_string s)))))))).

Definition good_quality (minLength : nat) (ex : TrainingExample) : bool :=
  (minLength <=? trimmed_length (input ex))%nat
  && (minLength <=? trimmed_length (output ex))%nat.

(** [filterByQuality(minLength)] *)
Definition filterByQuality (minLength : nat) (q : TrainingQueue) : TrainingQueue :=
  mkQueue (filter (fun ex => good_quality minLength ex = true) (queue q))
          (processedIds q).

(** [getStats()]: [byPriority] has one counter per priority, [bySource]
    one per source name met, ['unknown'] standing for a missing
    [metadata]. *)
Record Stats : Type := mkStats {
  total : nat;
  high : nat;
  medium : nat;
  low : nat;
  bySource : gmap string nat
}.

Definition source_name (ex : TrainingExample) : string :=
  match metadata ex with
  | Some m =>
      match source m with
      | SrcChat => "chat"
      | SrcImport => "import"
      | SrcManual => "manual"
      end
  | None => "unknown"
  end.

Definition count_example (acc : Stats) (ex : TrainingExample) : Stats :=
  let src := source_name ex in
  let acc' :=
    match priority ex with
    | HIGH => mkStats (total acc) (S (high acc)) (medium acc) (low acc) (bySource acc)
    | MEDIUM => mkStats (total acc) (high acc) (S (medium acc)) (low acc) (bySource acc)
    | LOW => mkStats (total acc) (high acc) (medium acc) (S (low acc)) (bySource acc)
    end in
  mkStats (total acc') (high acc') (medium acc') (low acc')
          (<[src := (default 0 (bySource acc' !! src) + 1)%nat]> (bySource acc')).

Definition getStats (q : TrainingQueue) : Stats :=
  foldl count_example (mkStats (length (queue q)) 0 0 0 ∅) (queue q).

(** The calls of the class that change a queue. *)
Inductive call : Type :=
| CallAdd (example : TrainingExample)
| CallAddBatch (examples : list TrainingExample)
| CallRemoveBatch (ids : list string)
| CallClear
| CallFilterByQuality (minLength : nat).

Definition perform (c : call) (q : TrainingQueue) : TrainingQueue :=
  match c with
  | CallAdd ex => add ex q
  | CallAddBatch exs => addBatch exs q
  | CallRemoveBatch ids => removeBatch ids q
  | CallClear => clear q
  | CallFilterByQuality n => filterByQuality n q
  end.

Definition perform_all (cs : list call) (q : TrainingQueue) : TrainingQueue :=
  foldl (fun acc c => perform c acc) q cs.

(** Sample examples with metadata. *)
Definition chat_example : TrainingExample :=
  mkExample "c1" "  how are you today?  " "fine, thank you" HIGH 20
            (Some (mkMetadata SrcChat (Some CtText) None)).

Definition short_example : TrainingExample :=
  mkExample "s1" "   hi   " "hello" LOW 5 None.

Definition sample_calls : list call :=
  [CallAdd chat_example; CallAddBatch [short_example; scenario_high];
   CallRemoveBatch ["h"]; CallFilterByQuality 10; CallAdd scenario_low].

(** The sum of the counters of [bySource]. *)
Definition source_sum (m : gmap string nat) : nat :=
  map_fold (fun _ v acc => (v + acc)%nat) 0%nat m.

(** *** Properties *)

Lemma ranked_spec (l : list TrainingExample) :
  ranked l <->
  forall i j a b, (i < j)%nat -> l !! i = Some a -> l !! j = Some b -> ranks_before a b.
Proof.
  induction l as [|x l IH].
  - split; [intros _ i j a b _ H; by rewrite lookup_nil in H|done].
  - split.
    + intros Hr. pose proof (ranked_head_top x l Hr) as Htop.
      destruct Hr as [_ Hr]. rewrite IH in Hr.
      intros [|i] [|j] a b Hij Ha Hb; try lia; simpl in *.
      * injection Ha as <-. rewrite Forall_forall in Htop. apply Htop.
        by eapply list_elem_of_lookup_2.
      * eapply (Hr i j); eauto. lia.
    + intros H. split.
      * destruct l as [|y l]; [done|]. apply (H 0%nat 1%nat); [lia|done|done].
      * apply IH. intros i j a b Hij Ha Hb. apply (H (S i) (S j)); [lia|done..].
Qed.

Lemma ranked_sublist (l k : list TrainingExample) :
  sublist k l -> ranked l -> ranked k.
Proof.
  intros Hsub. induction Hsub as [|x k l Hsub IH|x k l Hsub IH].
  - done.
  - intros Hr. pose proof (ranked_head_top x l Hr) as Htop.
    destruct Hr as [_ Hr]. split; [|auto].
    destruct k as [|y k]; [done|].
    rewrite Forall_forall in Htop. apply Htop.
    eapply elem_of_sublist; [|exact Hsub]. by left.
  - intros [_ Hr]. auto.
Qed.

Lemma ranked_filter (P : TrainingExample -> Prop) `{!forall x, Decision (P x)}
    (l : list TrainingExample) :
  ranked l -> ranked (filter P l).
Proof. apply ranked_sublist. apply sublist_filter. Qed.

Lemma add_ranked (ex : TrainingExample) (q : TrainingQueue) :
  ranked (queue q) -> ranked (queue (add ex q)).
Proof.
  intros H. unfold add. destruct (decide _); [done|].
  simpl. apply sortByPriority_ranked.
Qed.

Lemma addBatch_preserves (P : TrainingQueue -> Prop)
    (exs : list TrainingExample) (q : TrainingQueue) :
  (forall ex q, P q -> P (add ex q)) -> P q -> P (addBatch exs q).
Proof.
  intros Hadd. unfold addBatch. revert q.
  induction exs as [|ex exs IH]; intros q Hq; simpl; auto.
Qed.

Lemma perform_all_preserves (P : TrainingQueue -> Prop) (cs : list call)
    (q : TrainingQueue) :
  (forall c q, P q -> P (perform c q)) -> P q -> P (perform_all cs q).
Proof.
  intros Hstep. unfold perform_all. revert q.
  induction cs as [|c cs IH]; intros q Hq; simpl; auto.
Qed.

Lemma perform_all_ranked (cs : list call) (q : TrainingQueue) :
  ranked (queue q) -> ranked (queue (perform_all cs q)).
Proof.
  apply (perform_all_preserves (fun q => ranked (queue q))).
  intros [ex|exs|ids| |n] q' Hq; simpl.
  - by apply add_ranked.
  - apply (addBatch_preserves (fun q => ranked (queue q))); [|done].
    intros. by apply add_ranked.
  - by apply ranked_filter.
  - done.
  - by apply ranked_filter.
Qed.

(** X1.  Whatever calls are made on a new queue, the array stays sorted:
    priority descending, then timestamp descending. *)
Theorem queue_always_ranked (cs : list call) :
  ranked (queue (perform_all cs empty)).
Proof. by apply perform_all_ranked. Qed.

Lemma add_length (ex : TrainingExample) (q : TrainingQueue) :
  (Z.of_nat (length (queue q)) <= maxQueueSize)%Z ->
  (Z.of_nat (length (queue (add ex q))) <= maxQueueSize)%Z.
Proof.
  intros H. unfold add. destruct (decide _); [done|]. simpl.
  unfold sortByPriority. rewrite length_sort_by, length_app. simpl.
  destruct (Z.geb_spec (Z.of_nat (length (queue q))) maxQueueSize) as [Hfull|Hroom].
  - destruct (queue q) as [|x l] eqn:E; simpl in *.
    + unfold maxQueueSize in *. lia.
    + lia.
  - lia.
Qed.

(** X2.  Whatever calls are made on a new queue, it never holds more than
    [maxQueueSize] = 10000 examples. *)
Theorem queue_never_exceeds_capacity (cs : list call) :
  (Z.of_nat (size (perform_all cs empty)) <= 10000)%Z.
Proof.
  change 10000%Z with maxQueueSize. unfold size.
  apply (perform_all_preserves
           (fun q => (Z.of_nat (length (queue q)) <= maxQueueSize)%Z));
    [|unfold maxQueueSize; simpl; lia].
  intros [ex|exs|ids| |n] q Hq; simpl.
  - by apply add_length.
  - apply (addBatch_preserves
             (fun q => (Z.of_nat (length (queue q)) <= maxQueueSize)%Z)); [|done].
    intros. by apply add_length.
  - pose proof (length_filter (fun ex => id ex ∉ (list_to_set ids : gset string))
                  (queue q)). lia.
  - unfold maxQueueSize. lia.
  - pose proof (length_filter (fun ex => good_quality n ex = true) (queue q)). lia.
Qed.

Lemma perform_disjoint_ids (c : call) (q : TrainingQueue) :
  disjoint_ids q -> disjoint_ids (perform c q).
Proof.
  intros Hq. destruct c as [ex|exs|ids| |n]; simpl.
  - by apply add_disjoint_ids.
  - apply (addBatch_preserves disjoint_ids); [|done].
    intros. by apply add_disjoint_ids.
  - by apply removeBatch_disjoint_ids.
  - constructor.
  - unfold disjoint_ids, filterByQuality in *. simpl.
    rewrite Forall_forall in *. intros e [_ He]%list_elem_of_filter. by apply Hq.
Qed.

Lemma add_keeps_processedIds (ex : TrainingExample) (q : TrainingQueue) :
  disjoint_ids q -> processedIds (add ex q) = processedIds q.
Proof.
  intros Hq. unfold add. destruct (decide _); [done|]. simpl.
  destruct (_ >=? _)%Z; [|done].
  destruct (queue q) as [|x l] eqn:E; [done|]. simpl.
  unfold disjoint_ids in Hq. rewrite E in Hq. apply Forall_cons_1 in Hq as [Hx _].
  set_solver.
Qed.

(** X3.  Once [removeBatch] has recorded an id, that id stays refused:
    after any further [add], [addBatch] and [filterByQuality] calls (and
    evictions at capacity), [add] of an example with that id changes
    nothing. *)
Theorem processed_ids_stay_refused
    (before after : list call) (ids : list string) (ex : TrainingExample) :
  id ex ∈ ids ->
  Forall (fun c => c <> CallClear) after ->
  add ex (perform_all after (removeBatch ids (perform_all before empty)))
  = perform_all after (removeBatch ids (perform_all before empty)).
Proof.
  intros Hin Hafter. apply add_processed_noop.
  set (q0 := removeBatch ids (perform_all before empty)).
  assert (disjoint_ids q0) as Hd0.
  { apply removeBatch_disjoint_ids.
    apply (perform_all_preserves disjoint_ids); [apply perform_disjoint_ids|constructor]. }
  assert (id ex ∈ processedIds q0) as H0.
  { unfold q0, removeBatch. simpl. rewrite removeBatch_processedIds.
    apply elem_of_union_r. by apply elem_of_list_to_set. }
  clearbody q0. revert q0 Hd0 H0. unfold perform_all.
  induction after as [|c cs IH]; intros q0 Hd0 H0; simpl; [done|].
  apply Forall_cons_1 in Hafter as [Hc Hcs].
  apply IH; [done|by apply perform_disjoint_ids|].
  destruct c as [e|exs|ids'| |n]; simpl; try done.
  - by rewrite add_keeps_processedIds.
  - clear IH Hcs Hc. unfold addBatch. revert q0 Hd0 H0.
    induction exs as [|e exs IHe]; intros q0 Hd0 H0; simpl; [done|].
    apply IHe; [by apply add_disjoint_ids|by rewrite add_keeps_processedIds].
  - rewrite removeBatch_processedIds. by apply elem_of_union_l.
Qed.

Lemma processed_ids_stay_refused_witness :
  add scenario_high (perform_all [CallAdd scenario_low; CallFilterByQuality 1]
        (removeBatch ["h"] (perform_all [CallAdd scenario_high] empty)))
  = perform_all [CallAdd scenario_low; CallFilterByQuality 1]
      (removeBatch ["h"] (perform_all [CallAdd scenario_high] empty)).
Proof.
  apply (processed_ids_stay_refused [CallAdd scenario_high]
           [CallAdd scenario_low; CallFilterByQuality 1] ["h"] scenario_high).
  - simpl. set_solver.
  - repeat constructor; discriminate.
Defined.

(** X4.  On a queue reached from a new one, [getBatch(size)] returns
    exactly [min(size, length)] examples, they are the front of the queue,
    and they are the best ones: every example of the batch ranks before
    every example it leaves in the rest of the queue. *)
Theorem getBatch_takes_the_best (n : nat) (cs : list call) :
  length (getBatch n (perform_all cs empty)) = Nat.min n (size (perform_all cs empty))
  /\ getBatch n (perform_all cs empty) ++ drop n (queue (perform_all cs empty))
     = queue (perform_all cs empty)
  /\ (forall a b,
        a ∈ getBatch n (perform_all cs empty) ->
        b ∈ drop n (queue (perform_all cs empty)) ->
        ranks_before a b).
Proof.
  pose proof (perform_all_ranked cs empty ltac:(done)) as Hr.
  set (q := perform_all cs empty) in *. unfold getBatch, size.
  split; [by rewrite length_take|]. split; [apply take_drop|].
  intros a b Ha Hb.
  apply list_elem_of_lookup in Ha as [i Hi], Hb as [j Hj].
  rewrite lookup_drop in Hj.
  assert (i < n)%nat as Hin.
  { apply lookup_lt_Some in Hi. rewrite length_take in Hi. lia. }
  rewrite lookup_take_lt in Hi by done.
  rewrite ranked_spec in Hr. apply (Hr i (n + j)%nat); [lia|done..].
Qed.

Lemma getBatch_takes_the_best_witness :
  length (getBatch 1 (perform_all
            [CallAddBatch [scenario_low; scenario_high; scenario_medium]] empty))
  = Nat.min 1 (size (perform_all
                 [CallAddBatch [scenario_low; scenario_high; scenario_medium]] empty))
  /\ ranks_before scenario_high scenario_low.
Proof.
  destruct (getBatch_takes_the_best 1
              [CallAddBatch [scenario_low; scenario_high; scenario_medium]])
    as (Hlen & _ & Hbest).
  split; [exact Hlen|]. apply Hbest.
  - vm_compute. left.
  - vm_compute. right. left.
Defined.

(** X5.  [removeBatch(ids)] removes every queued example whose id is
    listed and no other one, whatever the number of examples that share an
    id; the examples it keeps stay in their order. *)
Theorem removeBatch_removes_exactly (ids : list string) (q : TrainingQueue)
    (ex : TrainingExample) :
  (ex ∈ queue (removeBatch ids q) <-> ex ∈ queue q /\ id ex ∉ ids)
  /\ sublist (queue (removeBatch ids q)) (queue q)
  /\ (forall i, i ∈ ids -> i ∈ processedIds (removeBatch ids q)).
Proof.
  unfold removeBatch. cbn [queue processedIds]. split; [split|split].
  - intros [H1 H2]%list_elem_of_filter. split; [done|].
    intros Hin. apply H1. by apply elem_of_list_to_set.
  - intros [H1 H2]. apply list_elem_of_filter. split; [|done].
    by rewrite elem_of_list_to_set.
  - apply sublist_filter.
  - intros i Hi. rewrite removeBatch_processedIds.
    apply elem_of_union_r. by apply elem_of_list_to_set.
Qed.

(** The sample calls end with the chat example and the last added one: the
    short example fails the quality filter, whose lengths are taken after
    trimming. *)
Lemma filterByQuality_sample :
  trimmed_length "  how are you today?  " = 18%nat
  /\ map id (queue (perform_all sample_calls empty)) = ["c1"; "l"].
Proof. vm_compute. done. Qed.

Lemma count_example_total (acc : Stats) (ex : TrainingExample) :
  total (count_example acc ex) = total acc
  /\ (high (count_example acc ex) + medium (count_example acc ex)
      + low (count_example acc ex) = S (high acc + medium acc + low acc))%nat.
Proof. unfold count_example. destruct (priority ex); simpl; lia. Qed.

Lemma source_sum_insert (m : gmap string nat) (k : string) :
  source_sum (<[k := (default 0 (m !! k) + 1)%nat]> m) = S (source_sum m).
Proof.
  unfold source_sum.
  assert (forall (m : gmap string nat) k v, m !! k = None ->
            map_fold (fun _ v acc => (v + acc)%nat) 0%nat (<[k := v]> m)
            = (v + map_fold (fun _ v acc => (v + acc)%nat) 0%nat m)%nat) as Hins.
  { intros m' k' v' Hk. apply (map_fold_insert_L (fun _ v acc => (v + acc)%nat)); [|done].
    intros. lia. }
  destruct (m !! k) as [v|] eqn:E; simpl.
  - rewrite <- (insert_delete_eq m k (v + 1)%nat) at 1.
    rewrite Hins by apply lookup_delete_eq.
    rewrite <- (insert_delete_id m k v E) at 2.
    rewrite Hins by apply lookup_delete_eq. lia.
  - rewrite Hins by done. lia.
Qed.

(** X6.  [getStats()] is consistent: [total] is the queue length, the
    three priority counters add up to it, and so do the counters of
    [bySource]. *)
Theorem getStats_consistent (q : TrainingQueue) :
  total (getStats q) = size q
  /\ (high (getStats q) + medium (getStats q) + low (getStats q))%nat = size q
  /\ source_sum (bySource (getStats q)) = size q.
Proof.
  unfold getStats, size.
  assert (forall l acc,
            total (foldl count_example acc l) = total acc
            /\ (high (foldl count_example acc l) + medium (foldl count_example acc l)
                + low (foldl count_example acc l)
                = high acc + medium acc + low acc + length l)%nat
            /\ source_sum (bySource (foldl count_example acc l))
               = (source_sum (bySource acc) + length l)%nat) as H.
  { induction l as [|ex l IH]; intros acc; simpl; [lia|].
    destruct (IH (count_example acc ex)) as (H1 & H2 & H3).
    destruct (count_example_total acc ex) as [T1 T2].
    rewrite H1, H2, H3, T1, T2. repeat split; try lia.
    assert (source_sum (bySource (count_example acc ex))
            = S (source_sum (bySource acc))) as ->; [|lia].
    unfold count_example. destruct (priority ex); simpl; apply source_sum_insert. }
  destruct (H (queue q) (mkStats (length (queue q)) 0 0 0 ∅)) as (H1 & H2 & H3).
  rewrite H1, H2, H3. simpl.
  assert (source_sum ∅ = 0%nat) as -> by (unfold source_sum; apply map_fold_empty).
  repeat split; lia.
Qed.

End QueueOps.

(* ===================================================================== *)
(** ** batch-manager.ts *)
(* ===================================================================== *)

Module Batch.

Import Queue.
Local Open Scope R_scope.

Record BatchConfig : Type := mkBatchConfig {
  minBatchSize : nat;
  maxBatchSize : nat;
  activeBatchSize : nat;
  idleBatchSize : nat;
  priorityWeights : TrainingPriority -> R
}.

(** [isUserActive] is set and cleared by the activity listeners. *)
Record BatchManager : Type := mkManager {
  queue : TrainingQueue;
  config : BatchConfig;
  isUserActive : bool
}.

Definition defaultConfig : BatchConfig :=
  mkBatchConfig 1 32 2 16
    (fun p => match p with HIGH => 3 | MEDIUM => 2 | LOW => 1 end).

(** The comparator of [sortBatch]. *)
Definition compare_batch (cfg : BatchConfig) (a b : TrainingExample) : R :=
  let priorityDiff := priorityWeights cfg (priority b) - priorityWeights cfg (priority a) in
  if Neurons.ltR 0.1 (Rabs priorityDiff) then priorityDiff
  else IZR (timestamp b - timestamp a).

Definition sortBatch (cfg : BatchConfig) (batch : list TrainingExample)
    : list TrainingExample :=
  sort_by (fun a b => Neurons.leR (compare_batch cfg a b) 0) batch.

Definition getAdaptiveBatchSize (bm : BatchManager) : nat :=
  if isUserActive bm then activeBatchSize (config bm) else idleBatchSize (config bm).

(** [getNextBatch()] *)
Definition getNextBatch (bm : BatchManager) : list TrainingExample :=
  if isEmpty (queue bm) then []
  else sortBatch (config bm) (Queue.getBatch (getAdaptiveBatchSize bm) (queue bm)).

(** [getBatch(size)] *)
Definition getBatch (size : nat) (bm : BatchManager) : list TrainingExample :=
  let actualSize := Nat.min size (maxBatchSize (config bm)) in
  let actualSize2 := Nat.max actualSize (minBatchSize (config bm)) in
  if isEmpty (queue bm) then []
  else sortBatch (config bm) (Queue.getBatch actualSize2 (queue bm)).

(** [getHighPriorityBatch()] *)
Definition getHighPriorityBatch (bm : BatchManager) : list TrainingExample :=
  let allBatch := Queue.getBatch (maxBatchSize (config bm)) (queue bm) in
  take (activeBatchSize (config bm))
       (filter (fun ex => priority_value (priority ex) = priority_value HIGH) allBatch).

Definition hasEnoughExamples (bm : BatchManager) : bool :=
  (minBatchSize (config bm) <=? size (queue bm))%nat.

Definition getRecommendedBatchSize (bm : BatchManager) : nat :=
  Nat.min (Nat.min (getAdaptiveBatchSize bm) (size (queue bm)))
          (maxBatchSize (config bm)).

(** [markProcessed(examples)] *)
Definition markProcessed (examples : list TrainingExample) (bm : BatchManager)
    : BatchManager :=
  mkManager (removeBatch (map id examples) (queue bm)) (config bm) (isUserActive bm).

(** A manager over the queue of Scenario A, the user being idle. *)
Definition sample_manager : BatchManager :=
  mkManager (addBatch [scenario_low; scenario_high; scenario_medium] empty)
            defaultConfig false.

(** *** Properties *)

Lemma sortBatch_perm (cfg : BatchConfig) (batch : list TrainingExample) :
  sortBatch cfg batch ≡ₚ batch.
Proof. apply sort_by_perm. Qed.

Lemma filter_rejects_all {X : Type} (P : X -> Prop) `{!forall x, Decision (P x)}
    (k : list X) :
  Forall (fun x => ~ P x) k -> filter P k = [].
Proof.
  induction 1 as [|x k Hx _ IH]; [done|]. by rewrite filter_cons_False.
Qed.

Lemma filter_leaves_room {X : Type} (P : X -> Prop) `{!forall x, Decision (P x)}
    (k l : list X) :
  k ⊆+ l -> Forall (fun x => ~ P x) k ->
  (length (filter P l) + length k <= length l)%nat.
Proof.
  intros (k' & Hl)%submseteq_Permutation Hk.
  rewrite Hl, filter_app, (filter_rejects_all P k Hk), !length_app. simpl.
  pose proof (length_filter P k'). lia.
Qed.

(** X7.  A batch handed out by [getNextBatch] is trained at most once:
    after [markProcessed(batch)] none of its examples is left in the
    queue, the queue has shrunk by at least the size of the batch, and
    [add] refuses each of them. *)
Theorem batch_is_consumed (bm : BatchManager) (ex : TrainingExample) :
  ex ∈ getNextBatch bm ->
  (ex ∉ Queue.queue (queue (markProcessed (getNextBatch bm) bm)))
  /\ add ex (queue (markProcessed (getNextBatch bm) bm))
     = queue (markProcessed (getNextBatch bm) bm)
  /\ (size (queue (markProcessed (getNextBatch bm) bm)) + length (getNextBatch bm)
      <= size (queue bm))%nat.
Proof.
  intros Hin. set (batch := getNextBatch bm) in *.
  assert (forall e, e ∈ batch -> id e ∈ (list_to_set (map id batch) : gset string))
    as Hids.
  { intros e He. apply elem_of_list_to_set, list_elem_of_fmap. by exists e. }
  unfold markProcessed. cbn [queue]. split; [|split].
  - unfold removeBatch. cbn [Queue.queue].
    intros [Hno _]%list_elem_of_filter. apply Hno. by apply Hids.
  - apply add_processed_noop. unfold removeBatch. cbn [processedIds].
    rewrite removeBatch_processedIds. apply elem_of_union_r. by apply Hids.
  - unfold size, removeBatch. cbn [Queue.queue].
    apply filter_leaves_room.
    + unfold batch, getNextBatch. destruct (isEmpty (queue bm)).
      * apply submseteq_nil_l.
      * rewrite sortBatch_perm. apply sublist_submseteq, sublist_take.
    + apply Forall_forall. intros e He Hno. apply Hno. by apply Hids.
Qed.

Lemma batch_is_consumed_witness :
  (scenario_high ∉ Queue.queue (queue (markProcessed (getNextBatch sample_manager)
                                         sample_manager)))
  /\ add scenario_high (queue (markProcessed (getNextBatch sample_manager) sample_manager))
     = queue (markProcessed (getNextBatch sample_manager) sample_manager)
  /\ (size (queue (markProcessed (getNextBatch sample_manager) sample_manager))
      + length (getNextBatch sample_manager)
      <= size (queue sample_manager))%nat.
Proof.
  apply (batch_is_consumed sample_manager scenario_high).
  unfold getNextBatch. cbn [isEmpty sample_manager queue].
  change (isEmpty (addBatch [scenario_low; scenario_high; scenario_medium] empty))
    with false. cbv iota.
  rewrite sortBatch_perm. vm_compute. left.
Defined.

(** X8.  [getBatch(size)] clamps the size to [maxBatchSize] from above and
    then to [minBatchSize] from below, the lower clamp winning when the
    two disagree; the batch has that many examples, or the whole queue
    when it is shorter, all of them taken from the front of the queue. *)
Theorem getBatch_size (n : nat) (bm : BatchManager) :
  length (getBatch n bm)
  = Nat.min (Nat.max (Nat.min n (maxBatchSize (config bm))) (minBatchSize (config bm)))
            (size (queue bm))
  /\ getBatch n bm
     ≡ₚ take (Nat.max (Nat.min n (maxBatchSize (config bm))) (minBatchSize (config bm)))
             (Queue.queue (queue bm)).
Proof.
  unfold getBatch, isEmpty, size, Queue.getBatch.
  destruct (Nat.eqb_spec (length (Queue.queue (queue bm))) 0) as [E|NE].
  - apply nil_length_inv in E. rewrite E, take_nil. simpl. split; [lia|done].
  - split; [|apply sortBatch_perm].
    unfold sortBatch. by rewrite length_sort_by, length_take.
Qed.

End Batch.

(* ===================================================================== *)
(** ** weight-updater.ts: export, bounds and composition *)
(* ===================================================================== *)

Module WeightsOps.

Import Weights.

(** [exportWeights()]: a record with a copy of every tensor under its
    name.  [Object.entries] enumerates it in some order. *)
Definition exportWeights (st : WeightUpdater) : ModelWeights := currentWeights st.

Definition is_updateConfig (c : call) : bool :=
  match c with CallUpdateConfig _ => true | _ => false end.

(** A store with two tensors, and some calls on it. *)
Definition two_weights : ModelWeights :=
  {[ "w" := [1; 2; 3]%float; "b" := [0.5]%float ]}.

Definition busy_calls : list call :=
  [CallApplyUpdate "w" [1; 1; 1]%float 1%float 2;
   CallCreateSnapshot 3 None;
   CallReplaceWeight "b" [7]%float;
   CallImportWeights [("extra", [4; 4]%float)] 4;
   CallRollback (Some 0%Z)].

(** *** Properties *)

Lemma import_same_entries (entries : list (string * Float32Array)) (cur : ModelWeights) :
  (forall k w, (k, w) ∈ entries -> cur !! k = Some w) ->
  foldl import_entry (cur, Normal) entries = (cur, Normal).
Proof.
  induction entries as [|[k w] entries IH]; intros H; [done|].
  cbn [foldl import_entry fst snd].
  rewrite (H k w) by (by left).
  rewrite typed_set_same_length by done.
  rewrite insert_id by (apply H; by left).
  apply IH. intros k' w' Hin. apply H. by right.
Qed.

(** X9.  Importing what [exportWeights()] returned, in whatever order the
    entries are enumerated, changes no weight and does not throw: the call
    amounts to [createSnapshot()]. *)
Theorem export_import_round_trip
    (st : WeightUpdater) (now : Z) (entries : list (string * Float32Array)) :
  entries ≡ₚ map_to_list (exportWeights st) ->
  importWeights entries now st = (createSnapshot now None st, Normal).
Proof.
  intros Hperm. unfold importWeights.
  rewrite import_same_entries.
  - by destruct st.
  - intros k w Hin. rewrite Hperm in Hin. by apply elem_of_map_to_list in Hin.
Qed.

Lemma export_import_round_trip_witness :
  importWeights (map_to_list (exportWeights scenario_start)) 5 scenario_start
  = (createSnapshot 5 None scenario_start, Normal).
Proof.
  apply (export_import_round_trip scenario_start 5). reflexivity.
Defined.

Lemma createSnapshot_bound now m st :
  (Z.of_nat (length (snapshots st)) <= maxSnapshots (config st))%Z ->
  (Z.of_nat (length (snapshots (createSnapshot now m st))) <= maxSnapshots (config st))%Z.
Proof.
  intros H. unfold createSnapshot. cbn [snapshots].
  set (pushed := snapshots st ++ [_]).
  assert (length pushed = S (length (snapshots st))) as Hp
    by (unfold pushed; rewrite length_app; simpl; lia).
  destruct (Z.gtb_spec (Z.of_nat (length pushed)) (maxSnapshots (config st))).
  - destruct pushed; simpl in *; lia.
  - lia.
Qed.

Lemma createSnapshot_config now m st : config (createSnapshot now m st) = config st.
Proof. reflexivity. Qed.

Lemma rollback_config i st : config (rollback i st).1 = config st.
Proof.
  unfold rollback. destruct (length (snapshots st) =? 0)%nat; [done|].
  destruct (_ || _); [done|].
  destruct (snapshots st !! _); [|done].
  by destruct (restore _ _) as [cur []].
Qed.

Lemma importWeights_config ws now st : config (importWeights ws now st).1 = config st.
Proof.
  unfold importWeights. by destruct (foldl import_entry _ ws) as [cur []].
Qed.

Lemma clearOldSnapshots_config st : config (clearOldSnapshots st) = config st.
Proof.
  unfold clearOldSnapshots. destruct (1 <? length (snapshots st))%nat; [|done].
  by destruct (last (snapshots st)).
Qed.

(** The snapshot list fits the configured bound, which is at least 1. *)
Definition bounded (st : WeightUpdater) : Prop :=
  (1 <= maxSnapshots (config st))%Z
  /\ (Z.of_nat (length (snapshots st)) <= maxSnapshots (config st))%Z.

Lemma applyUpdate_bounded n d a now st :
  bounded st -> bounded (applyUpdate n d a now st).
Proof.
  intros [H1 H2]. unfold bounded. rewrite applyUpdate_config. split; [done|].
  unfold applyUpdate. destruct (currentWeights st !! n); [|done].
  destruct (divides_count _ _); [|done].
  by apply (createSnapshot_bound now None (mkUpdater _ _ _ _ _)).
Qed.

Lemma perform_bounded (c : call) (st : WeightUpdater) :
  is_updateConfig c = false -> bounded st -> bounded (perform c st).
Proof.
  intros Hc Hb. destruct c; try discriminate; cbn [perform].
  - by apply applyUpdate_bounded.
  - unfold applyBatchUpdate. clear Hc. revert st Hb.
    induction updates as [|u us IH]; intros st Hb; simpl; [done|].
    apply IH. by apply applyUpdate_bounded.
  - destruct Hb as [H1 H2]. unfold bounded.
    by rewrite replaceWeight_config, replaceWeight_snapshots.
  - destruct Hb as [H1 H2]. unfold bounded.
    change (config (createSnapshot now m st)) with (config st).
    split; [done|]. by apply createSnapshot_bound.
  - destruct Hb as [H1 H2]. unfold bounded.
    by rewrite rollback_config, rollback_snapshots.
  - destruct Hb as [H1 H2]. unfold bounded. rewrite clearOldSnapshots_config.
    split; [done|]. unfold clearOldSnapshots.
    destruct (1 <? length (snapshots st))%nat; [|done].
    destruct (last (snapshots st)); [simpl; lia|done].
  - destruct Hb as [H1 H2]. unfold bounded. rewrite importWeights_config.
    split; [done|]. unfold importWeights.
    destruct (foldl import_entry _ imported) as [cur []]; [|done].
    unfold fst. by apply (createSnapshot_bound now None (mkUpdater _ _ _ _ _)).
Qed.

(** X10.  As long as the configuration is not changed, an updater
    constructed with [maxSnapshots >= 1] never keeps more than
    [maxSnapshots] snapshots. *)
Theorem snapshot_count_bounded
    (ws : ModelWeights) (cfg : UpdateConfig) (now : Z) (cs : list call) :
  (1 <= maxSnapshots cfg)%Z ->
  Forall (fun c => is_updateConfig c = false) cs ->
  (Z.of_nat (length (snapshots (perform_all cs (constructor ws cfg now))))
   <= maxSnapshots cfg)%Z
  /\ config (perform_all cs (constructor ws cfg now)) = cfg.
Proof.
  intros Hmax Hcs.
  assert (forall st, bounded st -> config st = cfg ->
            bounded (perform_all cs st) /\ config (perform_all cs st) = cfg) as Hall.
  { unfold perform_all. induction Hcs as [|c cs Hc _ IH]; intros st Hb Hcfg; [done|].
    cbn [foldl]. apply IH; [by apply perform_bounded|].
    rewrite <- Hcfg. destruct c; try discriminate; cbn [perform].
    - apply applyUpdate_config.
    - unfold applyBatchUpdate. clear Hb Hcfg. revert st.
      induction updates as [|u us IHu]; intros st; simpl; [done|].
      by rewrite IHu, applyUpdate_config.
    - apply replaceWeight_config.
    - done.
    - apply rollback_config.
    - apply clearOldSnapshots_config.
    - apply importWeights_config. }
  destruct (Hall (constructor ws cfg now)) as [[_ Hb] Hcfg]; [|done|].
  - split; [done|]. apply (createSnapshot_bound now None (mkUpdater ws [] cfg 0 None)).
    simpl. lia.
  - by rewrite Hcfg in Hb.
Qed.

Lemma snapshot_count_bounded_witness :
  (Z.of_nat (length (snapshots (perform_all busy_calls
                                  (constructor two_weights defaultConfig 0))))
   <= maxSnapshots defaultConfig)%Z
  /\ config (perform_all busy_calls (constructor two_weights defaultConfig 0))
     = defaultConfig.
Proof.
  apply (snapshot_count_bounded two_weights defaultConfig 0 busy_calls).
  - simpl. lia.
  - repeat constructor.
Defined.

(** [rollback(i)] for an index inside the list, when the snapshot fits. *)
Lemma rollback_at (st : WeightUpdater) (i : Z) (s : WeightSnapshot) :
  (0 <= i)%Z ->
  snapshots st !! Z.to_nat i = Some s ->
  shape (weights s) ⊆ shape (currentWeights st) ->
  rollback (Some i) st
  = (mkUpdater (weights s ∪ currentWeights st) (snapshots st) (config st)
       (updateCount st) (metrics s), Returns true).
Proof.
  intros Hi Hs Hfit. unfold rollback.
  pose proof (lookup_lt_Some _ _ _ Hs) as Hlt.
  destruct (Nat.eqb_spec (length (snapshots st)) 0) as [|_]; [lia|].
  destruct (Z.ltb_spec i 0); [lia|].
  destruct (Z.geb_spec i (Z.of_nat (length (snapshots st)))); [lia|].
  simpl. rewrite Hs. by rewrite restore_fits.
Qed.

(** X11.  On an updater constructed with [maxSnapshots >= 1], after any
    calls, [rollback(i)] with an integer [i] returns [true] exactly when
    [i] is the index of a stored snapshot; otherwise it returns [false]
    and changes nothing.  For an integer index it never throws. *)
Theorem rollback_index
    (ws : ModelWeights) (cfg : UpdateConfig) (now : Z) (cs : list call) (i : Z) :
  (1 <= maxSnapshots cfg)%Z ->
  (rollback (Some i) (perform_all cs (constructor ws cfg now))).2
  = Returns (bool_decide
      (0 <= i < Z.of_nat (length (snapshots (perform_all cs (constructor ws cfg now)))))%Z)
  /\ (~ (0 <= i < Z.of_nat (length (snapshots (perform_all cs (constructor ws cfg now)))))%Z ->
      (rollback (Some i) (perform_all cs (constructor ws cfg now))).1
      = perform_all cs (constructor ws cfg now)).
Proof.
  intros Hmax.
  destruct (perform_all_invariant cs _ (constructor_invariant ws cfg now Hmax))
    as [Hne Hres].
  set (st := perform_all cs (constructor ws cfg now)) in *.
  destruct (decide (0 <= i < Z.of_nat (length (snapshots st)))%Z) as [Hin|Hout].
  - rewrite bool_decide_eq_true_2 by done. split; [|done].
    destruct (lookup_lt_is_Some_2 (snapshots st) (Z.to_nat i)) as [s Hs]; [lia|].
    rewrite (rollback_at st i s); [done|lia|done|].
    unfold restorable in Hres. rewrite Forall_forall in Hres. apply Hres.
    by eapply list_elem_of_lookup_2.
  - rewrite bool_decide_eq_false_2 by done.
    assert (rollback (Some i) st = (st, Returns false)) as ->; [|done].
    unfold rollback.
    destruct (Nat.eqb_spec (length (snapshots st)) 0); [done|].
    destruct (Z.ltb_spec i 0); [done|].
    destruct (Z.geb_spec i (Z.of_nat (length (snapshots st)))); [done|]. lia.
Qed.

Lemma rollback_index_witness :
  (rollback (Some 1%Z) (perform_all busy_calls (constructor two_weights defaultConfig 0))).2
  = Returns (bool_decide
      (0 <= 1 < Z.of_nat (length (snapshots (perform_all busy_calls
                                    (constructor two_weights defaultConfig 0)))))%Z)
  /\ (~ (0 <= 1 < Z.of_nat (length (snapshots (perform_all busy_calls
                                     (constructor two_weights defaultConfig 0)))))%Z ->
      (rollback (Some 1%Z) (perform_all busy_calls
                              (constructor two_weights defaultConfig 0))).1
      = perform_all busy_calls (constructor two_weights defaultConfig 0)).
Proof.
  apply (rollback_index two_weights defaultConfig 0 busy_calls 1). simpl. lia.
Defined.

(** X12.  On an updater constructed with [maxSnapshots >= 1], after any
    calls, [clearOldSnapshots()] keeps exactly the latest snapshot, so a
    [rollback()] after it restores the same weights and metrics as a
    [rollback()] before it. *)
Theorem clearOldSnapshots_keeps_latest
    (ws : ModelWeights) (cfg : UpdateConfig) (now : Z) (cs : list call) :
  (1 <= maxSnapshots cfg)%Z ->
  length (snapshots (clearOldSnapshots (perform_all cs (constructor ws cfg now)))) = 1%nat
  /\ last (snapshots (clearOldSnapshots (perform_all cs (constructor ws cfg now))))
     = last (snapshots (perform_all cs (constructor ws cfg now)))
  /\ currentWeights
       (rollback None (clearOldSnapshots (perform_all cs (constructor ws cfg now)))).1
     = currentWeights (rollback None (perform_all cs (constructor ws cfg now))).1
  /\ lastMetrics
       (rollback None (clearOldSnapshots (perform_all cs (constructor ws cfg now)))).1
     = lastMetrics (rollback None (perform_all cs (constructor ws cfg now))).1.
Proof.
  intros Hmax.
  destruct (perform_all_invariant cs _ (constructor_invariant ws cfg now Hmax))
    as [Hne Hres].
  set (st := perform_all cs (constructor ws cfg now)) in *.
  destruct (last (snapshots st)) as [s|] eqn:Hlast;
    [|by apply last_None in Hlast].
  assert (shape (weights s) ⊆ shape (currentWeights st)) as Hfit.
  { unfold restorable in Hres. rewrite Forall_forall in Hres. apply Hres.
    rewrite last_lookup in Hlast. by eapply list_elem_of_lookup_2. }
  assert (snapshots (clearOldSnapshots st) = [s]
          /\ currentWeights (clearOldSnapshots st) = currentWeights st) as [Hs Hc].
  { unfold clearOldSnapshots.
    destruct (Nat.ltb_spec 1 (length (snapshots st))) as [Hlen|Hlen].
    - by rewrite Hlast.
    - split; [|done]. destruct (snapshots st) as [|x [|y l]]; simpl in *; try done.
      + by injection Hlast as ->.
      + lia. }
  rewrite Hs. repeat split.
  - rewrite (rollback_latest _ s) by (by rewrite ?Hs, ?Hc).
    rewrite (rollback_latest st s) by done. simpl. by rewrite Hc.
  - rewrite (rollback_latest _ s) by (by rewrite ?Hs, ?Hc).
    by rewrite (rollback_latest st s).
Qed.

Lemma clearOldSnapshots_keeps_latest_witness :
  length (snapshots (clearOldSnapshots
            (perform_all busy_calls (constructor two_weights defaultConfig 0)))) = 1%nat
  /\ last (snapshots (clearOldSnapshots
              (perform_all busy_calls (constructor two_weights defaultConfig 0))))
     = last (snapshots (perform_all busy_calls (constructor two_weights defaultConfig 0)))
  /\ currentWeights
       (rollback None (clearOldSnapshots
          (perform_all busy_calls (constructor two_weights defaultConfig 0)))).1
     = currentWeights
         (rollback None (perform_all busy_calls
                           (constructor two_weights defaultConfig 0))).1
  /\ lastMetrics
       (rollback None (clearOldSnapshots
          (perform_all busy_calls (constructor two_weights defaultConfig 0)))).1
     = lastMetrics
         (rollback None (perform_all busy_calls
                           (constructor two_weights defaultConfig 0))).1.
Proof.
  apply (clearOldSnapshots_keeps_latest two_weights defaultConfig 0 busy_calls).
  simpl. lia.
Defined.

Lemma perform_shape (c : call) (st : WeightUpdater) :
  restorable st ->
  shape (currentWeights st) ⊆ shape (currentWeights (perform c st)).
Proof.
  intros Hres. destruct c; cbn [perform].
  - by rewrite applyUpdate_shape.
  - unfold applyBatchUpdate. clear Hres. revert st.
    induction updates as [|u us IH]; intros st; simpl; [done|].
    etrans; [|apply IH]. by rewrite applyUpdate_shape.
  - by rewrite replaceWeight_shape.
  - done.
  - by rewrite rollback_shape.
  - unfold clearOldSnapshots. destruct (1 <? length (snapshots st))%nat; [|done].
    by destruct (last (snapshots st)).
  - unfold importWeights.
    destruct (foldl import_entry _ imported) as [cur c] eqn:E.
    apply import_entries_shape in E. by destruct c.
  - done.
Qed.

(** Every snapshot can be copied back, with or without a snapshot in the
    list: no call breaks that. *)
Lemma perform_restorable (c : call) (st : WeightUpdater) :
  restorable st -> restorable (perform c st).
Proof.
  intros H. destruct c; cbn [perform].
  - by apply applyUpdate_restorable.
  - unfold applyBatchUpdate. revert st H.
    induction updates as [|u us IH]; intros st H; simpl; [done|].
    by apply IH, applyUpdate_restorable.
  - apply (restorable_ext st); [|apply replaceWeight_snapshots|exact H].
    by rewrite replaceWeight_shape.
  - by apply createSnapshot_restorable.
  - apply (restorable_ext st); [|apply rollback_snapshots|exact H].
    by rewrite rollback_shape.
  - by apply clearOldSnapshots_restorable.
  - by apply importWeights_restorable.
  - done.
Qed.

(** X13.  No call removes a tensor or changes its length: every name of
    the initial weights is still there with the same number of elements,
    after any sequence of calls and whatever the configuration. *)
Theorem tensors_keep_shape
    (ws : ModelWeights) (cfg : UpdateConfig) (now : Z) (cs : list call)
    (name : string) (w : Float32Array) :
  ws !! name = Some w ->
  exists w', currentWeights (perform_all cs (constructor ws cfg now)) !! name = Some w'
             /\ length w' = length w.
Proof.
  intros Hw.
  assert (forall st, restorable st ->
            shape (currentWeights st) ⊆ shape (currentWeights (perform_all cs st)))
    as Hall.
  { unfold perform_all. induction cs as [|c cs IH]; intros st Hst; [done|].
    cbn [foldl]. etrans; [|apply IH; by apply perform_restorable].
    by apply perform_shape. }
  assert (restorable (constructor ws cfg now)) as Hstart.
  { unfold constructor. apply createSnapshot_restorable. constructor. }
  specialize (Hall _ Hstart).
  apply shape_lookup.
  eapply lookup_weaken; [|exact Hall].
  apply shape_lookup. eauto.
Qed.

Lemma tensors_keep_shape_witness :
  exists w', currentWeights (perform_all busy_calls
                               (constructor two_weights defaultConfig 0)) !! "w" = Some w'
             /\ length w' = length [1; 2; 3]%float.
Proof.
  apply (tensors_keep_shape two_weights defaultConfig 0 busy_calls "w").
  vm_compute. reflexivity.
Defined.

(** X14.  [rollback()] is idempotent: a second [rollback()] right after
    the first returns [true] again and leaves the updater as the first one
    left it. *)
Theorem rollback_idempotent
    (ws : ModelWeights) (cfg : UpdateConfig) (now : Z) (cs : list call) :
  (1 <= maxSnapshots cfg)%Z ->
  rollback None (rollback None (perform_all cs (constructor ws cfg now))).1
  = ((rollback None (perform_all cs (constructor ws cfg now))).1, Returns true).
Proof.
  intros Hmax.
  destruct (perform_all_invariant cs _ (constructor_invariant ws cfg now Hmax))
    as [Hne Hres].
  set (st := perform_all cs (constructor ws cfg now)) in *.
  destruct (last (snapshots st)) as [s|] eqn:Hlast;
    [|by apply last_None in Hlast].
  assert (shape (weights s) ⊆ shape (currentWeights st)) as Hfit.
  { unfold restorable in Hres. rewrite Forall_forall in Hres. apply Hres.
    rewrite last_lookup in Hlast. by eapply list_elem_of_lookup_2. }
  rewrite (rollback_latest st s) by done. cbn [fst].
  rewrite (rollback_latest _ s); cbn [snapshots currentWeights config updateCount].
  - by rewrite (assoc_L (∪)), (idemp_L (∪)).
  - done.
  - by rewrite shape_union_fits.
Qed.

Lemma rollback_idempotent_witness :
  rollback None (rollback None (perform_all busy_calls
                                  (constructor two_weights defaultConfig 0))).1
  = ((rollback None (perform_all busy_calls
                       (constructor two_weights defaultConfig 0))).1, Returns true).
Proof.
  apply (rollback_idempotent two_weights defaultConfig 0 busy_calls). simpl. lia.
Defined.

End WeightsOps.

(* ===================================================================== *)
(** ** lora.ts: backward and mergeIntoBase *)
(* ===================================================================== *)

Module LoRAOps.

Import LoRA.
Local Open Scope R_scope.

(** How a call ends: normally, or with the [TypeError] of an indexed write
    on [undefined]. *)
Inductive completion : Type := Normal | TypeError.

(** [a[index] += delta]; a write beyond the end of a typed array does
    nothing. *)
Definition add_at (index : nat) (delta : R) (a : list R) : list R :=
  alter (fun v => v + delta) index a.

(** The index pairs of [for (i < n) for (j < m)], in the order of the loops. *)
Definition loop_pairs (n m : nat) : list (nat * nat) :=
  flat_map (fun i => map (fun j => (i, j)) (seq 0 m)) (seq 0 n).

(** [backward(moduleName, x, gradOutput)].  The reads [x[j]] and
    [gradOutput[i]] stay inside their arrays when [x] has [inFeatures]
    entries and [gradOutput] has [outFeatures], the lengths the theorems
    below assume; past the end the source reads [undefined] and its sums
    are NaN, which the reals do not have. *)
Definition backward (moduleName : string) (x gradOutput : list R) (ad : LoRAAdapter)
    : LoRAAdapter * completion :=
  match layers ad !! moduleName with
  | None => (ad, Normal)
  | Some layer =>
      let r := layer_rank layer in
      let inF := inFeatures layer in
      let outF := outFeatures layer in
      let '(gA, gB) :=
        match gradA layer with
        | None => (Some (repeat 0 (r * inF)), Some (repeat 0 (outF * r)))
        | Some g => (Some g, gradB layer)
        end in
      let Ax :=
        map (fun i => sum_loop inF (fun j => get (A layer) (i * inF + j) * get x j))
            (seq 0 r) in
      match gB, loop_pairs outF r with
      | None, _ :: _ =>
          (mkAdapter (config ad)
             (<[moduleName := mkLayer (A layer) (B layer) gA gB inF outF r
                                (layer_alpha layer) (scaling layer)]> (layers ad)),
           TypeError)
      | _, _ =>
          let gB' :=
            (fun g => foldl (fun g ij =>
                               add_at (ij.1 * r + ij.2)
                                      (get gradOutput ij.1 * get Ax ij.2 * scaling layer) g)
                            g (loop_pairs outF r)) <$> gB in
          let BTgradOut :=
            map (fun i => sum_loop outF (fun j => get (B layer) (j * r + i) * get gradOutput j)
                          * scaling layer)
                (seq 0 r) in
          let gA' :=
            (fun g => foldl (fun g ij =>
                               add_at (ij.1 * inF + ij.2) (get BTgradOut ij.1 * get x ij.2) g)
                            g (loop_pairs r inF)) <$> gA in
          (mkAdapter (config ad)
             (<[moduleName := mkLayer (A layer) (B layer) gA' gB' inF outF r
                                (layer_alpha layer) (scaling layer)]> (layers ad)),
           Normal)
      end
  end.

(** [mergeIntoBase(moduleName, baseWeight, rows, cols)].  An entry of
    [baseWeight] beyond [rows * cols] receives [undefined] in the source and
    becomes NaN, which the reals do not have: the model is the source's for
    [baseWeight.length <= rows * cols]. *)
Definition mergeIntoBase (moduleName : string) (baseWeight : list R)
    (rows cols : nat) (ad : LoRAAdapter) : list R :=
  match layers ad !! moduleName with
  | None => baseWeight
  | Some layer =>
      let r := layer_rank layer in
      let BA :=
        foldl (fun BA (ij : nat * nat) =>
                 <[(ij.1 * cols + ij.2)%nat :=
                    sum_loop r (fun k => get (B layer) (ij.1 * r + k)
                                         * get (A layer) (k * cols + ij.2))
                    * scaling layer]> BA)
              (repeat 0 (rows * cols)) (loop_pairs rows cols) in
      imap (fun i w => w + get BA i) baseWeight
  end.

(** The optimizer fields [mA], [vA], [mB], [vB] of a layer.  They are
    created together, so a layer has all four or none; the adapter's are
    kept in a map beside the layers, a layer without them having no
    entry. *)
Record AdamState : Type := mkAdam {
  mA : list R;
  vA : list R;
  mB : list R;
  vB : list R
}.

(** One turn of the loop of [adamUpdate].  The moments have the length of
    the parameter, as [updateParameters] creates them, and the divisors
    are not zero: outside of that the source computes with [undefined],
    NaN and infinities, which the reals do not have. *)
Definition adam_step (grad : list R) (lr beta1 beta2 epsilon bc1 bc2 : R)
    (acc : list R * list R * list R) (i : nat) : list R * list R * list R :=
  let '(param, m, v) := acc in
  let m' := <[i := beta1 * get m i + (1 - beta1) * get grad i]> m in
  let v' := <[i := beta2 * get v i + (1 - beta2) * get grad i * get grad i]> v in
  let mHat := get m' i / bc1 in
  let vHat := get v' i / bc2 in
  (alter (fun p => p - lr * mHat / (R_sqrt.sqrt vHat + epsilon)) i param, m', v').

(** [adamUpdate(param, grad, m, v, lr, beta1, beta2, epsilon, bc1, bc2)]:
    the parameter and the two moments it leaves. *)
Definition adamUpdate (param grad m v : list R) (lr beta1 beta2 epsilon bc1 bc2 : R)
    : list R * list R * list R :=
  foldl (adam_step grad lr beta1 beta2 epsilon bc1 bc2) (param, m, v)
        (seq 0 (length param)).

(** The body of the loop of [updateParameters] for one layer. *)
Definition update_layer (learningRate beta1 beta2 epsilon : R) (step : nat)
    (layer : LoRALayer) (st : option AdamState) : LoRALayer * option AdamState :=
  match gradA layer, gradB layer with
  | Some gA, Some gB =>
      let s := default (mkAdam (repeat 0 (length (A layer))) (repeat 0 (length (A layer)))
                               (repeat 0 (length (B layer))) (repeat 0 (length (B layer))))
                       st in
      let biasCorrectionFactor1 := 1 - beta1 ^ step in
      let biasCorrectionFactor2 := 1 - beta2 ^ step in
      let '(A', mA', vA') :=
        adamUpdate (A layer) gA (mA s) (vA s) learningRate beta1 beta2 epsilon
                   biasCorrectionFactor1 biasCorrectionFactor2 in
      let '(B', mB', vB') :=
        adamUpdate (B layer) gB (mB s) (vB s) learningRate beta1 beta2 epsilon
                   biasCorrectionFactor1 biasCorrectionFactor2 in
      (mkLayer A' B' (Some (repeat 0 (length gA))) (Some (repeat 0 (length gB)))
               (inFeatures layer) (outFeatures layer) (layer_rank layer)
               (layer_alpha layer) (scaling layer),
       Some (mkAdam mA' vA' mB' vB'))
  | _, _ => (layer, st)
  end.

(** [updateParameters(learningRate, beta1, beta2, epsilon, step)]; the
    layers do not touch one another. *)
Definition updateParameters (learningRate beta1 beta2 epsilon : R) (step : nat)
    (ad : LoRAAdapter) (opt : gmap string AdamState)
    : LoRAAdapter * gmap string AdamState :=
  (mkAdapter (config ad)
     (map_imap (fun name layer =>
                  Some (update_layer learningRate beta1 beta2 epsilon step layer
                          (opt !! name)).1)
               (layers ad)),
   map_imap (fun name layer =>
               (update_layer learningRate beta1 beta2 epsilon step layer
                  (opt !! name)).2)
            (layers ad)).

(** A 2 x 3 layer of rank 1 and an adapter that holds it. *)
Definition merge_adapter : LoRAAdapter :=
  mkAdapter (mkLoRAConfig 1 2 0 ["q"] false)
    {[ "q" := mkLayer [1; 0; 2] [3; 4] None None 3 2 1 2 2 ]}.

(** [W @ x] for a row-major [rows x cols] matrix. *)
Definition matvec (rows cols : nat) (W x : list R) : list R :=
  map (fun i => sum_loop cols (fun j => get W (i * cols + j) * get x j)) (seq 0 rows).

(** *** Properties *)

Lemma loop_pairs_in (n m i j : nat) :
  (i, j) ∈ loop_pairs n m <-> (i < n)%nat /\ (j < m)%nat.
Proof.
  unfold loop_pairs. rewrite list_elem_of_In, in_flat_map. split.
  - intros (i' & Hi'%in_seq & Hj%in_map_iff).
    destruct Hj as (j' & [= <- <-] & Hj'%in_seq). lia.
  - intros [Hi Hj]. exists i. split; [apply in_seq; lia|].
    apply in_map_iff. exists j. split; [done|apply in_seq; lia].
Qed.

Lemma add_zero_everywhere (f : nat * nat -> nat) (d : nat * nat -> R)
    (ps : list (nat * nat)) (g : list R) :
  Forall (fun p => d p = 0) ps ->
  foldl (fun g p => add_at (f p) (d p) g) g ps = g.
Proof.
  intros H. revert g. induction H as [|p ps Hp _ IH]; intros g; simpl; [done|].
  rewrite IH, Hp. unfold add_at. apply list_eq. intros i.
  rewrite list_lookup_alter.
  destruct (decide (f p = i)) as [->|]; [|done].
  destruct (g !! i); simpl; f_equal. lra.
Qed.

(** The layer the first [backward] leaves behind. *)
Lemma backward_fresh_layer
    (random : nat -> R) (ad : LoRAAdapter) (moduleName : string)
    (inF outF : nat) (x gradOutput : list R) :
  exists gB,
    length gB = (outF * rank (config ad))%nat
    /\ (backward moduleName x gradOutput
          (initializeLayer random moduleName inF outF ad)).2 = Normal
    /\ layers (backward moduleName x gradOutput
                 (initializeLayer random moduleName inF outF ad)).1 !! moduleName
       = Some (mkLayer (map (fun i => (random i - 0.5) * 0.01)
                            (seq 0 (rank (config ad) * inF)))
                       (repeat 0 (outF * rank (config ad)))
                       (Some (repeat 0 (rank (config ad) * inF))) (Some gB)
                       inF outF (rank (config ad)) (alpha (config ad))
                       (alpha (config ad) / INR (rank (config ad)))).
Proof.
  unfold backward, initializeLayer. cbn [layers config].
  rewrite lookup_insert_eq.
  cbn [gradA gradB layer_rank inFeatures outFeatures A B scaling layer_alpha].
  set (r := rank (config ad)).
  destruct (loop_pairs outF r) eqn:E; eexists; cbn [snd fst layers];
    rewrite lookup_insert_eq; cbn [fmap option_fmap option_map];
    rewrite (add_zero_everywhere (fun ij => (ij.1 * inF + ij.2)%nat));
    try (split; [|split; reflexivity]);
    try (apply (Neurons.foldl_preserves (fun g => length g = (outF * r)%nat));
         [|apply repeat_length];
         intros g ij Hg; unfold add_at; by rewrite length_alter);
    apply Forall_forall; intros [i j] Hij%loop_pairs_in; cbn [fst snd];
    rewrite get_map_seq by lia;
    (rewrite sum_loop_zero; [lra|]); intros k _; rewrite get_repeat_zero; lra.
Qed.

(** X15.  Over exact reals, for [x] of length [inFeatures] and
    [gradOutput] of length [outFeatures]: the first [backward] after
    [initializeLayer] does not throw and leaves the gradient of [A] at
    zero, since [B] is zero; [A] and [B] themselves are not touched. *)
Theorem backward_after_initialize
    (random : nat -> R) (ad : LoRAAdapter) (moduleName : string)
    (inF outF : nat) (x gradOutput : list R) :
  length x = inF ->
  length gradOutput = outF ->
  exists layer,
    (backward moduleName x gradOutput
       (initializeLayer random moduleName inF outF ad)).2 = Normal
    /\ layers (backward moduleName x gradOutput
                 (initializeLayer random moduleName inF outF ad)).1 !! moduleName
       = Some layer
    /\ gradA layer = Some (repeat 0 (rank (config ad) * inF))
    /\ B layer = repeat 0 (outF * rank (config ad))
    /\ A layer = map (fun i => (random i - 0.5) * 0.01) (seq 0 (rank (config ad) * inF)).
Proof.
  intros _ _.
  destruct (backward_fresh_layer random ad moduleName inF outF x gradOutput)
    as (gB & _ & Hc & Hl).
  eexists. split; [exact Hc|]. split; [exact Hl|]. done.
Qed.

Lemma backward_after_initialize_witness :
  exists layer,
    (backward "m" [1; 1; 1; 1] [1; 1]
       (initializeLayer (fun _ => 0.25) "m" 4 2 scenario_adapter)).2 = Normal
    /\ layers (backward "m" [1; 1; 1; 1] [1; 1]
                 (initializeLayer (fun _ => 0.25) "m" 4 2 scenario_adapter)).1 !! "m"
       = Some layer
    /\ gradA layer = Some (repeat 0 (rank (config scenario_adapter) * 4))
    /\ B layer = repeat 0 (2 * rank (config scenario_adapter))
    /\ A layer = map (fun i => ((fun _ => 0.25) i - 0.5) * 0.01)
                     (seq 0 (rank (config scenario_adapter) * 4)).
Proof.
  apply (backward_after_initialize (fun _ => 0.25) scenario_adapter "m" 4 2
           [1; 1; 1; 1] [1; 1]); reflexivity.
Defined.

(** Zero gradients and zero moments: [adamUpdate] moves nothing. *)
Lemma adamUpdate_at_rest (param : list R) (lr beta1 beta2 epsilon bc1 bc2 : R) :
  adamUpdate param (repeat 0 (length param)) (repeat 0 (length param))
             (repeat 0 (length param)) lr beta1 beta2 epsilon bc1 bc2
  = (param, repeat 0 (length param), repeat 0 (length param)).
Proof.
  unfold adamUpdate. set (n := length param).
  apply (Neurons.foldl_preserves_in
           (fun acc => acc = (param, repeat 0 n, repeat 0 n))); [|done].
  intros acc i Hi%elem_of_seq ->. unfold adam_step.
  rewrite !get_repeat_zero.
  assert (forall c : R, <[i := c * 0 + (1 - c) * 0]> (repeat 0 n) = repeat 0 n) as Hm.
  { intros c. apply list_insert_id.
    replace (c * 0 + (1 - c) * 0) with 0 by lra.
    destruct (lookup_lt_is_Some_2 (repeat 0 n) i) as [z Hz];
      [rewrite repeat_length; lia|].
    rewrite Hz. f_equal.
    by apply list_elem_of_lookup_2, list_elem_of_In, repeat_spec in Hz. }
  replace (beta2 * 0 + (1 - beta2) * 0 * 0) with (beta2 * 0 + (1 - beta2) * 0) by lra.
  rewrite !Hm, get_repeat_zero. f_equal. f_equal.
  apply list_alter_id. intros p. unfold Rdiv. rewrite !Rmult_0_l, Rmult_0_r. lra.
Qed.

(** X16.  Over exact reals, for [x] of length [inFeatures] and
    [gradOutput] of length [outFeatures]: the first optimizer step after
    [initializeLayer] and one [backward] cannot move [A]: its gradient is
    zero because [B] is, and Adam at rest does not move.  The bias
    corrections are taken non-zero and [epsilon] positive, as with the
    default [step = 1]. *)
Theorem first_update_leaves_A
    (random : nat -> R) (ad : LoRAAdapter) (opt : gmap string AdamState)
    (moduleName : string) (inF outF : nat) (x gradOutput : list R)
    (learningRate beta1 beta2 epsilon : R) (step : nat) :
  length x = inF ->
  length gradOutput = outF ->
  opt !! moduleName = None ->
  beta1 ^ step <> 1 -> beta2 ^ step <> 1 -> 0 < epsilon ->
  exists layer,
    layers (updateParameters learningRate beta1 beta2 epsilon step
              (backward moduleName x gradOutput
                 (initializeLayer random moduleName inF outF ad)).1 opt).1
      !! moduleName = Some layer
    /\ A layer = map (fun i => (random i - 0.5) * 0.01) (seq 0 (rank (config ad) * inF))
    /\ gradA layer = Some (repeat 0 (rank (config ad) * inF))
    /\ length (B layer) = (outF * rank (config ad))%nat.
Proof.
  intros _ _ Hopt _ _ _.
  destruct (backward_fresh_layer random ad moduleName inF outF x gradOutput)
    as (gB & HgB & _ & Hl).
  unfold updateParameters. cbn [fst layers].
  rewrite map_lookup_imap, Hl. cbn [mbind option_bind]. rewrite Hopt.
  unfold update_layer. cbn [gradA gradB A B default].
  set (A0 := map _ (seq 0 (rank (config ad) * inF))).
  assert (length A0 = (rank (config ad) * inF)%nat) as HA
    by (unfold A0; by rewrite length_map, length_seq).
  cbn [mA vA mB vB].
  replace (repeat 0 (rank (config ad) * inF)) with (repeat 0 (length A0))
    by (by rewrite HA).
  rewrite adamUpdate_at_rest.
  destruct (adamUpdate (repeat 0 _) gB _ _ _ _ _ _ _ _) as [[B' mB'] vB'] eqn:EB.
  eexists. split; [reflexivity|]. cbn [A gradA B].
  split; [done|]. split; [by rewrite repeat_length, HA|].
  assert (length (adamUpdate (repeat 0 (outF * rank (config ad))) gB
             (repeat 0 (length (repeat 0 (outF * rank (config ad)))))
             (repeat 0 (length (repeat 0 (outF * rank (config ad)))))
             learningRate beta1 beta2 epsilon (1 - beta1 ^ step) (1 - beta2 ^ step)).1.1
          = (outF * rank (config ad))%nat) as Hlen.
  { unfold adamUpdate.
    apply (Neurons.foldl_preserves
             (fun acc => length acc.1.1 = (outF * rank (config ad))%nat));
      [|simpl; apply repeat_length].
    intros [[p m] v] i Hp. simpl in *. by rewrite length_alter. }
  rewrite EB in Hlen. exact Hlen.
Qed.

Lemma first_update_leaves_A_witness :
  exists layer,
    layers (updateParameters 0.001 0.9 0.999 0.00000001 1
              (backward "m" [1; 1; 1; 1] [1; 1]
                 (initializeLayer (fun _ => 0.25) "m" 4 2 scenario_adapter)).1 ∅).1
      !! "m" = Some layer
    /\ A layer = map (fun i => ((fun _ => 0.25) i - 0.5) * 0.01)
                     (seq 0 (rank (config scenario_adapter) * 4))
    /\ gradA layer = Some (repeat 0 (rank (config scenario_adapter) * 4))
    /\ length (B layer) = (2 * rank (config scenario_adapter))%nat.
Proof.
  apply (first_update_leaves_A (fun _ => 0.25) scenario_adapter ∅ "m" 4 2
           [1; 1; 1; 1] [1; 1] 0.001 0.9 0.999 0.00000001 1).
  - reflexivity.
  - reflexivity.
  - reflexivity.
  - simpl. lra.
  - simpl. lra.
  - lra.
Defined.

Lemma sum_loop_S (n : nat) (f : nat -> R) :
  sum_loop (S n) f = sum_loop n f + f n.
Proof. unfold sum_loop. by rewrite seq_S, fold_left_app. Qed.

Lemma sum_loop_ext (n : nat) (f g : nat -> R) :
  (forall j, (j < n)%nat -> f j = g j) -> sum_loop n f = sum_loop n g.
Proof.
  induction n as [|n IH]; intros H; [done|].
  rewrite !sum_loop_S, IH, (H n) by (intros; auto with lia). done.
Qed.

Lemma sum_loop_plus (n : nat) (f g : nat -> R) :
  sum_loop n (fun j => f j + g j) = sum_loop n f + sum_loop n g.
Proof.
  induction n as [|n IH]; [unfold sum_loop; simpl; lra|].
  rewrite !sum_loop_S, IH. lra.
Qed.

Lemma sum_loop_scale (n : nat) (f : nat -> R) (c : R) :
  sum_loop n (fun j => f j * c) = sum_loop n f * c.
Proof.
  induction n as [|n IH]; [unfold sum_loop; simpl; lra|].
  rewrite !sum_loop_S, IH. lra.
Qed.

Lemma sum_loop_scale_l (n : nat) (f : nat -> R) (c : R) :
  sum_loop n (fun j => c * f j) = c * sum_loop n f.
Proof.
  induction n as [|n IH]; [unfold sum_loop; simpl; lra|].
  rewrite !sum_loop_S, IH. lra.
Qed.

Lemma sum_loop_swap (n m : nat) (f : nat -> nat -> R) :
  sum_loop n (fun i => sum_loop m (fun j => f i j))
  = sum_loop m (fun j => sum_loop n (fun i => f i j)).
Proof.
  induction n as [|n IH].
  - unfold sum_loop at 1 3. simpl. symmetry. apply sum_loop_zero. done.
  - rewrite sum_loop_S, IH, <- sum_loop_plus.
    apply sum_loop_ext. intros j _. by rewrite sum_loop_S.
Qed.

Lemma written_once (idx : nat * nat -> nat) (val : nat * nat -> R)
    (ps : list (nat * nat)) (init : list R) (p : nat * nat) :
  (forall q, q ∈ ps -> idx q = idx p -> q = p) ->
  p ∈ ps -> (idx p < length init)%nat ->
  get (foldl (fun a q => <[idx q := val q]> a) init ps) (idx p) = val p.
Proof.
  assert (forall ps, length (foldl (fun a q => <[idx q := val q]> a) init ps)
                     = length init) as Hlen.
  { intros l. induction l as [|q l IH] using rev_ind; [done|].
    by rewrite foldl_app; simpl; rewrite length_insert. }
  induction ps as [|q ps IH] using rev_ind; intros Hinj Hin Hlt.
  - by apply elem_of_nil in Hin.
  - rewrite foldl_app. simpl. unfold get.
    destruct (decide (idx q = idx p)) as [E|NE].
    + rewrite (Hinj q) by (done || apply elem_of_app; right; by left).
      apply nth_lookup_Some. apply list_lookup_insert_eq. by rewrite Hlen.
    + apply elem_of_app in Hin as [Hin|Hin%list_elem_of_singleton];
        [|by subst].
      rewrite <- (IH (fun q' Hq' => Hinj q' ltac:(apply elem_of_app; by left))
                     Hin Hlt).
      unfold get. destruct (lookup_lt_is_Some_2 (foldl (fun a q => <[idx q := val q]> a)
                                                   init ps) (idx p)) as [v Hv];
        [by rewrite Hlen|].
      rewrite (nth_lookup_Some _ _ _ _ Hv).
      apply nth_lookup_Some. by rewrite list_lookup_insert_ne.
Qed.

Lemma get_imap (f : nat -> R -> R) (l : list R) (i : nat) :
  (i < length l)%nat -> get (imap f l) i = f i (get l i).
Proof.
  intros Hi. unfold get.
  destruct (lookup_lt_is_Some_2 l i Hi) as [v Hv].
  rewrite (nth_lookup_Some _ _ _ _ Hv).
  apply nth_lookup_Some. rewrite list_lookup_imap, Hv. done.
Qed.

(** X17.  Merging and applying agree: for a layer of shape [rows x cols],
    the product of the merged weight with [x] is what [forward] returns on
    the product of the base weight with [x]. *)
Theorem merged_weight_matches_forward
    (ad : LoRAAdapter) (moduleName : string) (layer : LoRALayer)
    (W x : list R) (rows cols : nat) :
  layers ad !! moduleName = Some layer ->
  outFeatures layer = rows ->
  inFeatures layer = cols ->
  length W = (rows * cols)%nat ->
  matvec rows cols (mergeIntoBase moduleName W rows cols ad) x
  = forward moduleName x (matvec rows cols W x) ad.
Proof.
  intros Hlayer Hrows Hcols HW. unfold mergeIntoBase, forward, matvec.
  rewrite Hlayer, Hrows, Hcols.
  set (r := layer_rank layer). set (s := scaling layer).
  set (BA := foldl _ (repeat 0 (rows * cols)) (loop_pairs rows cols)).
  apply map_ext_in. intros i Hi%in_seq.
  rewrite !get_map_seq by lia.
  transitivity
    (sum_loop cols (fun j => get W (i * cols + j) * get x j
       + sum_loop r (fun k => get (B layer) (i * r + k) * get (A layer) (k * cols + j)
                              * get x j * s))).
  - apply sum_loop_ext. intros j Hj.
    rewrite get_imap by (rewrite HW; nia).
    unfold BA.
    rewrite (written_once (fun ij => (ij.1 * cols + ij.2)%nat)
               (fun ij => sum_loop r (fun k => get (B layer) (ij.1 * r + k)
                                               * get (A layer) (k * cols + ij.2)) * s)
               _ _ (i, j)).
    + cbn [fst snd]. rewrite <- !sum_loop_scale. rewrite Rmult_plus_distr_r.
      f_equal. rewrite <- sum_loop_scale. apply sum_loop_ext. intros k _. lra.
    + intros [i' j'] Hq%loop_pairs_in. cbn [fst snd]. intros E.
      assert (i' = i) as -> by nia. f_equal. lia.
    + apply loop_pairs_in. lia.
    + rewrite repeat_length. cbn [fst snd]. nia.
  - rewrite sum_loop_plus. f_equal.
    rewrite sum_loop_swap, <- sum_loop_scale.
    apply sum_loop_ext. intros k Hk.
    rewrite get_map_seq by done.
    rewrite <- sum_loop_scale_l, <- sum_loop_scale.
    apply sum_loop_ext. intros j _. lra.
Qed.

Lemma merged_weight_matches_forward_witness :
  matvec 2 3 (mergeIntoBase "q" [1; 1; 1; 2; 2; 2] 2 3 merge_adapter) [1; 2; 3]
  = forward "q" [1; 2; 3] (matvec 2 3 [1; 1; 1; 2; 2; 2] [1; 2; 3]) merge_adapter.
Proof.
  apply (merged_weight_matches_forward merge_adapter "q"
           (mkLayer [1; 0; 2] [3; 4] None None 3 2 1 2 2)); reflexivity.
Defined.

End LoRAOps.

(* ===================================================================== *)
(** ** SimulatedNeuralNetwork: the wiring, and what [forward] returns   *)
(* ===================================================================== *)

Module NeuronOps.

Import Neurons.
Local Open Scope R_scope.

(** Every connection leads to a neuron of the array. *)
Definition targets_ok (N : nat) (c : list (nat * R)) : Prop :=
  Forall (fun e => (e.1 < N)%nat) c.

(** The array has [N] neurons, neuron [i] sits at index [i], and no
    connection leaves the array. *)
Definition wired_list (N : nat) (ns : list Neuron) : Prop :=
  length ns = N
  /\ forall i n, ns !! i = Some n -> id n = i /\ targets_ok N (connections n).

Definition wired (net : SimulatedNeuralNetwork) : Prop :=
  wired_list (numNeurons (config net)) (neurons net).

(** A loop that has not thrown, over a wired array. *)
Definition running (N : nat) (acc : list Neuron * completion) : Prop :=
  acc.2 = Normal /\ wired_list N acc.1.

(** Every surviving weight is at least [thresh] in magnitude. *)
Definition strong (thresh : R) (ns : list Neuron) : Prop :=
  Forall (fun n => Forall (fun e => thresh <= Rabs e.2) (connections n)) ns.

(** *** The wiring is kept *)

Lemma conn_set_targets (N k : nat) (v : R) (c : list (nat * R)) :
  (k < N)%nat -> targets_ok N c -> targets_ok N (conn_set k v c).
Proof.
  unfold targets_ok. intros Hk Hc.
  induction Hc as [|[k' v'] c Hx Hc IH]; simpl.
  - by repeat constructor.
  - destruct (k =? k')%nat; constructor; done.
Qed.

Lemma wired_alter (N : nat) (f : Neuron -> Neuron) (i : nat) (ns : list Neuron) :
  (forall n, id (f n) = id n) ->
  (forall n, targets_ok N (connections n) -> targets_ok N (connections (f n))) ->
  wired_list N ns -> wired_list N (alter f i ns).
Proof.
  intros Hid Hc [Hl Hn]. split; [by rewrite length_alter|].
  intros j n. rewrite list_lookup_alter.
  destruct (decide (i = j)) as [->|]; [|apply Hn].
  destruct (ns !! j) as [m|] eqn:E; simpl; [|done].
  intros [= <-]. destruct (Hn j m E). split; [by rewrite Hid|auto].
Qed.

Lemma wired_insert (N i : nat) (v n : Neuron) (ns : list Neuron) :
  ns !! i = Some n -> id v = id n ->
  (targets_ok N (connections n) -> targets_ok N (connections v)) ->
  wired_list N ns -> wired_list N (<[i := v]> ns).
Proof.
  intros Hi Hid Hc [Hl Hn]. split; [by rewrite length_insert|].
  intros j m. destruct (decide (i = j)) as [->|Hne].
  - rewrite list_lookup_insert_eq by (by eapply lookup_lt_Some).
    intros [= <-]. destruct (Hn j n Hi). split; [congruence|auto].
  - rewrite list_lookup_insert_ne by done. apply Hn.
Qed.

Lemma wired_lookup (N i : nat) (ns : list Neuron) :
  wired_list N ns -> (i < N)%nat -> exists n, ns !! i = Some n.
Proof. intros [Hl _] Hi. apply lookup_lt_is_Some_2. lia. Qed.

Lemma update_neuron_id (cfg : NeuronConfig) (t : Z) (n : Neuron) :
  id (update_neuron cfg t n).1 = id n.
Proof.
  unfold update_neuron.
  destruct (match lastSpikeTime n with Some _ => _ | None => _ end); [done|].
  by destruct (leR _ _).
Qed.

Lemma updated_wired (N : nat) (cfg : NeuronConfig) (t : Z) (ns : list Neuron) :
  wired_list N ns -> wired_list N (map fst (map (update_neuron cfg t) ns)).
Proof.
  intros [Hl Hn]. split; [by rewrite !length_map|].
  intros i n. rewrite map_map.
  change (map (fun x => (update_neuron cfg t x).1) ns)
    with ((fun x => (update_neuron cfg t x).1) <$> ns).
  rewrite list_lookup_fmap. destruct (ns !! i) as [m|] eqn:E; simpl; [|done].
  intros [= <-]. destruct (Hn i m E).
  by rewrite update_neuron_id, update_neuron_connections.
Qed.

Lemma spikes_in_range (N : nat) (cfg : NeuronConfig) (t : Z) (ns : list Neuron)
    (sourceId : nat) :
  wired_list N ns ->
  sourceId ∈ map (fun r => id r.1)
               (filter (fun r => r.2 = true) (map (update_neuron cfg t) ns)) ->
  (sourceId < N)%nat.
Proof.
  intros [Hl Hn] Hs.
  apply list_elem_of_fmap in Hs as (r & -> & Hr).
  apply list_elem_of_filter in Hr as [_ Hr].
  apply list_elem_of_fmap in Hr as (n & -> & Hin).
  apply list_elem_of_lookup in Hin as [i Hi].
  rewrite update_neuron_id. destruct (Hn i n Hi) as [-> _].
  rewrite <- Hl. by eapply lookup_lt_Some.
Qed.

Lemma propagate_entry_running (N : nat) (acc : list Neuron * completion)
    (entry : nat * R) :
  (entry.1 < N)%nat -> running N acc -> running N (propagate_entry acc entry).
Proof.
  destruct acc as [ns c]. intros He [Hc Hw]. simpl in Hc, Hw. subst c.
  destruct (wired_lookup N entry.1 ns Hw He) as [target Ht].
  unfold propagate_entry. rewrite Ht. split; [done|].
  by apply (wired_insert N entry.1 _ target).
Qed.

Lemma propagate_source_running (N : nat) (acc : list Neuron * completion)
    (sourceId : nat) :
  (sourceId < N)%nat -> running N acc -> running N (propagate_source acc sourceId).
Proof.
  destruct acc as [ns c]. intros Hs [Hc Hw]. simpl in Hc, Hw. subst c.
  destruct (wired_lookup N sourceId ns Hw Hs) as [source Hsrc].
  unfold propagate_source. rewrite Hsrc.
  apply (foldl_preserves_in (running N)); [|done].
  intros a e He. apply propagate_entry_running.
  destruct Hw as [_ Hn]. destruct (Hn _ _ Hsrc) as [_ Ht].
  by apply (proj1 (Forall_forall _ _) Ht).
Qed.

Lemma stdp_entry_running (N : nat) (cfg : NeuronConfig) (sourceId : nat)
    (sourceTime : option Z) (acc : list Neuron * completion) (entry : nat * R) :
  (entry.1 < N)%nat -> running N acc ->
  running N (stdp_entry cfg sourceId sourceTime acc entry).
Proof.
  destruct acc as [ns c]. intros He [Hc Hw]. simpl in Hc, Hw. subst c.
  destruct (wired_lookup N entry.1 ns Hw He) as [target Ht].
  unfold stdp_entry. rewrite Ht.
  destruct (lastSpikeTime target) as [targetTime|]; [|done].
  destruct sourceTime as [sourceTime'|]; [|done].
  destruct (stdp_weight _ _ _ _) as [w|]; [|done].
  split; [done|]. apply wired_alter; [done| |done].
  intros n Hn. by apply conn_set_targets.
Qed.

Lemma stdp_source_running (N : nat) (cfg : NeuronConfig)
    (acc : list Neuron * completion) (sourceId : nat) :
  (sourceId < N)%nat -> running N acc -> running N (stdp_source cfg acc sourceId).
Proof.
  destruct acc as [ns c]. intros Hs [Hc Hw]. simpl in Hc, Hw. subst c.
  destruct (wired_lookup N sourceId ns Hw Hs) as [source Hsrc].
  unfold stdp_source. rewrite Hsrc.
  apply (foldl_preserves_in (running N)); [|done].
  intros a e He. apply stdp_entry_running.
  destruct Hw as [_ Hn]. destruct (Hn _ _ Hsrc) as [_ Ht].
  by apply (proj1 (Forall_forall _ _) Ht).
Qed.

Lemma updateNeurons_wired (net : SimulatedNeuralNetwork) :
  wired net -> (updateNeurons net).2 = Normal /\ wired (updateNeurons net).1.
Proof.
  unfold wired. intros Hw. rewrite updateNeurons_config. unfold updateNeurons.
  set (N := numNeurons (config net)) in *.
  set (updated := map (update_neuron (config net) (timeStep net + 1)) (neurons net)).
  set (spikes := map _ (filter _ updated)).
  assert (forall s, s ∈ spikes -> (s < N)%nat) as Hspikes
    by (intros s; by apply spikes_in_range).
  assert (running N (foldl propagate_source (map fst updated, Normal) spikes)) as H1.
  { apply (foldl_preserves_in (running N)).
    - intros a s Hs. apply propagate_source_running. auto.
    - split; [done|]. by apply updated_wired. }
  destruct (foldl propagate_source _ spikes) as [ns c].
  destruct H1 as [Hc H1]. simpl in Hc, H1. subst c.
  assert (running N (if enableSTDP (config net)
                     then applySTDP (config net) spikes ns else (ns, Normal))) as H2.
  { destruct (enableSTDP (config net)); [|done].
    apply (foldl_preserves_in (running N)); [|done].
    intros a s Hs. apply stdp_source_running. auto. }
  destruct (if enableSTDP (config net) then _ else _) as [ns' c].
  destruct H2 as [Hc H2]. simpl in Hc, H2. subst c. done.
Qed.

Lemma simulate_steps_wired (k : nat) (net : SimulatedNeuralNetwork) :
  wired net ->
  (Nat.iter k simulate_step (net, Normal)).2 = Normal
  /\ wired (Nat.iter k simulate_step (net, Normal)).1.
Proof.
  intros H. induction k as [|k [IH1 IH2]]; simpl; [done|].
  destruct (Nat.iter k simulate_step (net, Normal)) as [net' c]. simpl in *. subst c.
  by apply updateNeurons_wired.
Qed.

Lemma read_step_returns (cfg : NeuronConfig) (ns : list Neuron) (npi i : nat)
    (acc : R * nat * completion) (j : nat) :
  length ns = numNeurons cfg -> acc.2 = Normal ->
  (read_step cfg ns npi i acc j).2 = Normal.
Proof.
  destruct acc as [[sum count] c]. simpl. intros Hl ->. simpl.
  destruct (Nat.ltb_spec (i * npi + j) (numNeurons cfg)); [|done].
  destruct (lookup_lt_is_Some_2 ns (numNeurons cfg - (i * npi + j) - 1)) as [n ->];
    [lia|done].
Qed.

Lemma read_output_returns (cfg : NeuronConfig) (ns : list Neuron) (npi len : nat) :
  length ns = numNeurons cfg ->
  (foldl (read_output cfg ns npi) ([], Normal) (seq 0 len)).2 = Normal
  /\ length (foldl (read_output cfg ns npi) ([], Normal) (seq 0 len)).1 = len.
Proof.
  intros Hl. induction len as [|len [IH1 IH2]]; [done|].
  rewrite seq_S, foldl_app. simpl.
  destruct (foldl (read_output cfg ns npi) ([], Normal) (seq 0 len)) as [out c].
  simpl in IH1, IH2. subst c. unfold read_output.
  assert ((foldl (read_step cfg ns npi len) (0, 0%nat, Normal) (seq 0 npi)).2 = Normal)
    as Hread.
  { apply (foldl_preserves (fun a => a.2 = Normal)); [|done].
    intros a j. by apply read_step_returns. }
  destruct (foldl (read_step cfg ns npi len) _ _) as [[sum count] c].
  simpl in Hread. subst c. cbn [fst snd]. split; [done|].
  rewrite length_app. simpl. lia.
Qed.

Lemma simulate_steps_config (k : nat) (net : SimulatedNeuralNetwork) :
  config (Nat.iter k simulate_step (net, Normal)).1 = config net.
Proof.
  induction k as [|k IH]; simpl; [done|].
  destruct (Nat.iter k simulate_step (net, Normal)) as [net' []]; simpl in *;
    try done.
  by rewrite updateNeurons_config.
Qed.

Lemma forward_wired (input : list R) (net : SimulatedNeuralNetwork) :
  wired net ->
  (forward input net).1.2 = Normal
  /\ length (forward input net).2 = length input
  /\ wired (forward input net).1.1.
Proof.
  intros Hw. unfold forward.
  set (npi := neuronsPerInput (config net) (length input)).
  set (fed := foldl _ (neurons net) _).
  assert (wired_list (numNeurons (config net)) fed) as Hfed.
  { apply foldl_preserves; [|done]. intros ns ij Hns. unfold apply_input.
    destruct (_ <? _)%nat; [|done]. by apply wired_alter. }
  set (net1 := mkNetwork fed _ _ _).
  destruct (simulate_steps_wired 10 net1 Hfed) as [H1 H2].
  pose proof (simulate_steps_config 10 net1) as Hcfg.
  destruct (Nat.iter 10 simulate_step (net1, Normal)) as [net2 c].
  simpl in H1, H2, Hcfg. subst c.
  destruct (read_output_returns (config net) (neurons net2) npi (length input))
    as [Hc Hlen].
  { destruct H2 as [H2 _]. by rewrite H2, Hcfg. }
  destruct (foldl (read_output _ _ _) _ _) as [out c]. simpl in Hc, Hlen. subst c.
  done.
Qed.

Lemma hebbianLearning_wired (input target : list R) (net : SimulatedNeuralNetwork) :
  wired net -> wired (hebbianLearning input target net).1.
Proof.
  unfold wired, hebbianLearning. intros Hw.
  destruct input as [|x input]; [by destruct (_ && _)|].
  set (N := numNeurons (config net)) in *.
  set (npi := neuronsPerInput (config net) (length (x :: input))).
  match goal with |- context [foldl ?f ?a ?l] =>
    assert (wired_list N (foldl f a l).1) as Hfold
  end.
  { apply (foldl_preserves (fun a => wired_list N a.1)); [|done].
    intros a sourceId Ha.
    apply (foldl_preserves_in (fun a => wired_list N a.1)); [|done].
    intros [ns c] targetId Ht Hns. simpl in Hns. unfold strengthen.
    destruct c; try done.
    destruct (ns !! sourceId) as [source|] eqn:Hs; [|done]. simpl.
    apply (wired_insert N sourceId _ source); [done|done| |done].
    intros Hc. apply conn_set_targets; [|done].
    unfold activeTarget in Ht.
    apply list_elem_of_fmap in Ht as ([i j] & -> & Hij).
    apply list_elem_of_filter in Hij as [Hlt%Is_true_true%Nat.ltb_lt _].
    simpl in *. fold N in Hlt. fold N. lia. }
  destruct (foldl _ _ _) as [ns c]. done.
Qed.

Lemma pruneConnections_wired (thresh : R) (net : SimulatedNeuralNetwork) :
  wired net -> wired (pruneConnections thresh net).
Proof.
  unfold wired, pruneConnections. cbn [neurons config]. intros [Hl Hn].
  split; [by rewrite length_map|].
  intros i n.
  change (map ?f (neurons net)) with (f <$> neurons net).
  rewrite list_lookup_fmap. destruct (neurons net !! i) as [m|] eqn:E; simpl; [|done].
  intros [= <-]. destruct (Hn i m E) as [Hid Ht]. split; [done|]. simpl.
  unfold targets_ok in *. rewrite Forall_forall in *.
  intros e [_ He]%list_elem_of_filter. auto.
Qed.

Lemma constructor_wired (cfg : NeuronConfig) (random : nat -> R) :
  wired (constructor cfg random).
Proof.
  unfold wired, constructor, initializeNeurons. cbn [neurons config].
  apply (foldl_preserves_in (fun st => wired_list (numNeurons cfg) st.2)).
  - intros [k ns] [i j] [_ Hj]%loop_pairs_spec Hns. simpl in *.
    destruct (i =? j)%nat; [done|].
    destruct (ltR (random k) 0.1); [|done]. simpl.
    apply wired_alter; [done| |done].
    intros n Hn. by apply conn_set_targets.
  - simpl. split; [by rewrite length_map, length_seq|].
    intros i n.
    change (map ?f (seq 0 (numNeurons cfg))) with (f <$> seq 0 (numNeurons cfg)).
    rewrite list_lookup_fmap.
    destruct (seq 0 (numNeurons cfg) !! i) as [m|] eqn:E; simpl; [|done].
    intros [= <-]. apply lookup_seq in E as [-> _]. simpl.
    split; [done|constructor].
Qed.

Lemma perform_wired (c : call) (net : SimulatedNeuralNetwork) :
  wired net -> wired (perform c net).
Proof.
  intros H. destruct c; cbn [perform].
  - by apply forward_wired.
  - by apply hebbianLearning_wired.
  - by apply pruneConnections_wired.
Qed.

Lemma perform_all_wired (cs : list call) (net : SimulatedNeuralNetwork) :
  wired net -> wired (perform_all cs net).
Proof.
  intros H. unfold perform_all. apply foldl_preserves; [|done].
  intros a c. apply perform_wired.
Qed.

(** X18.  On a network built by the constructor and used through
    [forward], [hebbianLearning] and [pruneConnections], [forward] never
    throws: it returns one output per input, whatever the configuration,
    the random draws, the history of calls and the input. *)
Theorem forward_returns_one_output_per_input
    (cfg : NeuronConfig) (random : nat -> R) (cs : list call) (input : list R) :
  (forward input (perform_all cs (constructor cfg random))).1.2 = Normal
  /\ length (forward input (perform_all cs (constructor cfg random))).2 = length input.
Proof.
  destruct (forward_wired input (perform_all cs (constructor cfg random)))
    as (H1 & H2 & _); [|done].
  apply perform_all_wired, constructor_wired.
Qed.

Lemma prune_filter_twice (thresh : R) (c : list (nat * R)) :
  filter (fun e => ltR (Rabs e.2) thresh = false)
         (filter (fun e => ltR (Rabs e.2) thresh = false) c)
  = filter (fun e => ltR (Rabs e.2) thresh = false) c.
Proof.
  induction c as [|e c IH]; [done|].
  rewrite (filter_cons _ e c). destruct (decide _) as [He|He]; [|done].
  rewrite filter_cons. destruct (decide _); [|done]. by rewrite IH.
Qed.

(** X19.  After [pruneConnections(threshold)] every weight left is at
    least [threshold] in magnitude, and pruning again with the same
    threshold changes nothing. *)
Theorem pruneConnections_leaves_strong (thresh : R) (net : SimulatedNeuralNetwork) :
  strong thresh (neurons (pruneConnections thresh net))
  /\ pruneConnections thresh (pruneConnections thresh net)
     = pruneConnections thresh net.
Proof.
  split.
  - unfold strong, pruneConnections. cbn [neurons].
    apply Forall_forall. intros n (m & -> & _)%list_elem_of_fmap. simpl.
    apply Forall_forall. intros e [He _]%list_elem_of_filter.
    by apply ltR_false in He.
  - unfold pruneConnections. cbn [neurons config timeStep globalActivity].
    f_equal. rewrite map_map. apply map_ext. intros n. unfold with_connections.
    simpl. by rewrite prune_filter_twice.
Qed.

End NeuronOps.

(* ===================================================================== *)
(** ** FastLearner: recall, predict, and what learning keeps            *)
(* ===================================================================== *)

Module FastOps.

Import Fast.
Local Open Scope R_scope.

(** [similar.accessCount++; similar.lastAccessed = Date.now()] *)
Definition access (now : Z) (m : EpisodicMemory) : EpisodicMemory :=
  mkMemory (id m) (input m) (output m) (context m) (timestamp m)
           (S (accessCount m)) now (importance m).

(** [recall(query)]: the learner it leaves, and the context of the match
    or [None] for [null]. *)
Definition recall (query : string) (now : Z) (fl : FastLearner)
    : FastLearner * option string :=
  match findSimilar (encodeText query) fl with
  | Some position =>
      (mkLearner (alter (access now) position (episodicMemory fl))
                 (neuralNetwork fl) (config fl) (learningHistory fl),
       context <$> episodicMemory fl !! position)
  | None => (fl, None)
  end.

(** [predict(input)]: the learner it leaves, how the call ends, and what
    it returns. *)
Definition predict (text : string) (now : Z) (fl : FastLearner)
    : FastLearner * Neurons.completion * list R :=
  match findSimilar (encodeText text) fl with
  | Some position =>
      (mkLearner (alter (access now) position (episodicMemory fl))
                 (neuralNetwork fl) (config fl) (learningHistory fl),
       Neurons.Normal,
       default [] (output <$> episodicMemory fl !! position))
  | None =>
      match Neurons.forward (encodeText text) (neuralNetwork fl) with
      | (net, c, out) =>
          (mkLearner (episodicMemory fl) net (config fl) (learningHistory fl), c, out)
      end
  end.

(** *** Properties *)

Lemma counted_length (d : R) (codes : list nat) (encoding : list R) :
  length (foldl (fun e c => alter (fun v => v + d) c e) encoding codes)
  = length encoding.
Proof.
  revert encoding. induction codes as [|c codes IH]; intros e; simpl; [done|].
  by rewrite IH, length_alter.
Qed.

Lemma counted_nonneg (d : R) (codes : list nat) (encoding : list R) :
  0 <= d -> Forall (fun v => 0 <= v) encoding ->
  Forall (fun v => 0 <= v) (foldl (fun e c => alter (fun v => v + d) c e) encoding codes).
Proof.
  intros Hd. revert encoding. induction codes as [|c codes IH]; intros e He; simpl;
    [done|].
  apply IH. apply Forall_alter; [done|]. intros v _ Hv. lra.
Qed.

Lemma entry_le_sum (l : list R) (x : R) :
  Forall (fun v => 0 <= v) l -> x ∈ l -> x <= sum_list l.
Proof.
  induction 1 as [|y l Hy Hl IH]; intros Hx; [by apply elem_of_nil in Hx|].
  rewrite sum_list_cons.
  assert (0 <= sum_list l) as Hs.
  { clear -Hl. induction Hl as [|z l Hz _ IH]; [unfold sum_list; simpl; lra|].
    rewrite sum_list_cons. lra. }
  apply elem_of_cons in Hx as [->|Hx]; [lra|]. specialize (IH Hx). lra.
Qed.

Lemma encodeText_length (text : string) : length (encodeText text) = 256%nat.
Proof.
  unfold encodeText. destruct (Neurons.ltR 0 _);
    by rewrite ?length_map, counted_length, repeat_length.
Qed.

(** X20.  The encoding of a non-empty text is a histogram that sums to
    one: 256 entries, each between 0 and 1, of total 1. *)
Theorem encodeText_is_distribution (text : string) :
  text <> ""%string ->
  length (encodeText text) = 256%nat
  /\ Forall (fun v => 0 <= v <= 1) (encodeText text)
  /\ sum_list (encodeText text) = 1.
Proof.
  intros Hne. split; [apply encodeText_length|].
  unfold encodeText.
  set (len := INR (String.length text)).
  set (counted := foldl _ (repeat 0 256) (char_codes text)).
  assert (0 < String.length text)%nat as Hpos by (destruct text; simpl; [done|lia]).
  assert (0 < len) as Hlen by (unfold len; by apply lt_0_INR).
  assert (sum_list counted = 1) as Hsum.
  { unfold counted. rewrite counted_sum.
    - rewrite (zero_vector_sum _ (zero_vector_repeat 256)), length_char_codes.
      fold len. field. lra.
    - rewrite repeat_length. apply char_codes_bounded. }
  assert (Forall (fun v => 0 <= v) counted) as Hpos'.
  { apply counted_nonneg.
    - apply Rlt_le, Rdiv_lt_0_compat; lra.
    - apply Forall_forall. intros v Hv%list_elem_of_In%repeat_spec. lra. }
  rewrite Hsum. assert (Neurons.ltR 0 1 = true) as -> by (apply Neurons.ltR_true; lra).
  assert (map (fun v => v / 1) counted = counted) as ->.
  { rewrite <- (map_id counted) at 2. apply map_ext. intros v. field. }
  split; [|done].
  apply Forall_forall. intros v Hv. split.
  - by apply (proj1 (Forall_forall _ _) Hpos').
  - rewrite <- Hsum. by apply entry_le_sum.
Qed.

Lemma encodeText_is_distribution_witness :
  length (encodeText "hello") = 256%nat
  /\ Forall (fun v => 0 <= v <= 1) (encodeText "hello")
  /\ sum_list (encodeText "hello") = 1.
Proof. apply (encodeText_is_distribution "hello"). discriminate. Defined.

(** The new memory is the one [findSimilar] returns for the text it was
    learnt from. *)
Lemma findSimilar_stored (ex : Queue.TrainingExample) (now : Z) (fl : FastLearner)
    (net : Neurons.SimulatedNeuralNetwork) :
  similarityThreshold (config fl) < 1 ->
  Queue.input ex <> ""%string ->
  findSimilar (encodeText (Queue.input ex)) fl = None ->
  findSimilar (encodeText (Queue.input ex))
    (mkLearner (episodicMemory fl ++ [memory_of ex now]) net (config fl)
       (learningHistory fl))
  = Some (length (episodicMemory fl)).
Proof.
  intros Hthr Hne Hnone.
  rewrite findSimilar_best_match. cbn [config episodicMemory].
  rewrite best_match_snoc.
  rewrite findSimilar_best_match in Hnone. apply best_match_none in Hnone.
  rewrite Hnone. unfold similar_step. cbn [fst snd memory_of input].
  rewrite cosineSimilarity_self by (by apply encodeText_nonzero).
  assert (Neurons.ltR (similarityThreshold (config fl)) 1 = true) as ->
    by (by apply Neurons.ltR_true).
  assert (Neurons.ltR 0 1 = true) as -> by (apply Neurons.ltR_true; lra). done.
Qed.

(** X21.  Over exact reals, where the similarity of an encoding to itself
    is exactly 1 (binary64 can give [1 - 2^-52], so the code needs the
    threshold below that).  What was learnt is found again: after
    [learnFast] has stored an example with a non-empty input, [recall] on
    that input returns the input text itself (the [context] of the
    memory), and [predict] returns the encoding of the example's output
    without running the network. *)
Theorem recall_after_learnFast
    (ex : Queue.TrainingExample) (now1 now2 : Z) (fl : FastLearner) :
  similarityThreshold (config fl) < 1 ->
  Queue.input ex <> ""%string ->
  findSimilar (encodeText (Queue.input ex)) fl = None ->
  (Z.of_nat (length (episodicMemory fl)) < episodicMemorySize (config fl))%Z ->
  Neurons.well_sized (neuralNetwork fl) ->
  (recall (Queue.input ex) now2 (learnFast ex now1 fl).1).2 = Some (Queue.input ex)
  /\ (predict (Queue.input ex) now2 (learnFast ex now1 fl).1).2
     = encodeText (Queue.output ex)
  /\ (predict (Queue.input ex) now2 (learnFast ex now1 fl).1).1.2 = Neurons.Normal
  /\ neuralNetwork (predict (Queue.input ex) now2 (learnFast ex now1 fl).1).1.1
     = neuralNetwork (learnFast ex now1 fl).1.
Proof.
  intros Hthr Hne Hnone Hroom Hsize.
  destruct (learnFast_new ex now1 fl Hnone Hroom Hsize) as (net1 & _ & E1).
  rewrite E1. cbn [fst].
  pose proof (findSimilar_stored ex now1 fl net1 Hthr Hne Hnone) as Hfound.
  unfold recall, predict. rewrite Hfound. cbn [fst snd episodicMemory neuralNetwork].
  rewrite lookup_app_r, Nat.sub_diag by done. done.
Qed.

Lemma recall_after_learnFast_witness :
  (recall "hello" 2 (learnFast greeting_example 1 new_learner).1).2 = Some "hello"%string
  /\ (predict "hello" 2 (learnFast greeting_example 1 new_learner).1).2
     = encodeText "hi there"
  /\ (predict "hello" 2 (learnFast greeting_example 1 new_learner).1).1.2
     = Neurons.Normal
  /\ neuralNetwork (predict "hello" 2 (learnFast greeting_example 1 new_learner).1).1.1
     = neuralNetwork (learnFast greeting_example 1 new_learner).1.
Proof.
  apply (recall_after_learnFast greeting_example 1 2 new_learner).
  - simpl. lra.
  - discriminate.
  - reflexivity.
  - simpl. lia.
  - apply Neurons.constructor_well_sized.
Defined.

Lemma encodeText_not_nil (text : string) : encodeText text <> [].
Proof.
  intros E. apply (f_equal length) in E. by rewrite encodeText_length in E.
Qed.

Lemma slice0_length {X : Type} (n : Z) (l : list X) :
  (0 <= n)%Z -> (Z.of_nat (length (slice0 n l)) <= n)%Z.
Proof.
  intros Hn. unfold slice0. destruct (Z.ltb_spec n 0); [lia|].
  rewrite length_take. lia.
Qed.

(** X22.  A learner whose network has its configured size and whose memory
    is within [episodicMemorySize] keeps both through [learnFast]: the call
    returns, the memory is still within the capacity, and the
    configuration is untouched. *)
Theorem learnFast_keeps_capacity
    (ex : Queue.TrainingExample) (now : Z) (fl : FastLearner) :
  (0 <= episodicMemorySize (config fl))%Z ->
  (Z.of_nat (length (episodicMemory fl)) <= episodicMemorySize (config fl))%Z ->
  Neurons.well_sized (neuralNetwork fl) ->
  (exists r, (learnFast ex now fl).2 = Returned r)
  /\ (Z.of_nat (length (episodicMemory (learnFast ex now fl).1))
      <= episodicMemorySize (config fl))%Z
  /\ config (learnFast ex now fl).1 = config fl
  /\ Neurons.well_sized (neuralNetwork (learnFast ex now fl).1).
Proof.
  intros Hcap Hlen Hsize. unfold learnFast.
  destruct (findSimilar _ fl) as [position|].
  - cbn [fst snd episodicMemory config neuralNetwork]. rewrite length_alter. eauto.
  - destruct (Neurons.hebbianLearning_returns (encodeText (Queue.input ex))
                (encodeText (Queue.output ex)) (neuralNetwork fl) Hsize
                (encodeText_not_nil _)) as [Hc Hw].
    destruct (Neurons.hebbianLearning _ _ _) as [net c]. simpl in Hc, Hw. subst c.
    destruct (Z.ltb_spec (episodicMemorySize (config fl))
                (Z.of_nat (length (episodicMemory fl ++ [mkMemory (Queue.id ex)
                   (encodeText (Queue.input ex)) (encodeText (Queue.output ex))
                   (Queue.input ex) now 1 now 1])))) as [Hfull|Hroom];
      cbn [fst snd episodicMemory config neuralNetwork consolidateMemory];
      (split; [eauto|]); (split; [|done]).
    + by apply slice0_length.
    + exact Hroom.
Qed.

Lemma learnFast_keeps_capacity_witness :
  (exists r, (learnFast greeting_example 1 new_learner).2 = Returned r)
  /\ (Z.of_nat (length (episodicMemory (learnFast greeting_example 1 new_learner).1))
      <= episodicMemorySize (config new_learner))%Z
  /\ config (learnFast greeting_example 1 new_learner).1 = config new_learner
  /\ Neurons.well_sized (neuralNetwork (learnFast greeting_example 1 new_learner).1).
Proof.
  apply (learnFast_keeps_capacity greeting_example 1 new_learner).
  - simpl. lia.
  - simpl. lia.
  - apply Neurons.constructor_well_sized.
Defined.

Lemma adaptLearningStrategy_rate (fl : FastLearner) :
  0.001 <= metaLearningRate (config fl) <= 0.1 ->
  0.001 <= metaLearningRate (config (adaptLearningStrategy fl)) <= 0.1.
Proof.
  intros H. unfold adaptLearningStrategy.
  destruct (_ <? 10)%nat; [done|]. cbn [config metaLearningRate].
  split; [apply Rmax_l|].
  apply Rmax_lub; [lra|apply Rmin_l].
Qed.

(** X23.  [metaLearn] keeps the meta-learning rate clamped: a rate in
    [0.001, 0.1] stays there, however the call ends and whatever the
    errors were. *)
Theorem metaLearn_keeps_rate_clamped
    (examples : list Queue.TrainingExample) (now : Z) (fl : FastLearner) :
  0.001 <= metaLearningRate (config fl) <= 0.1 ->
  0.001 <= metaLearningRate (config (metaLearn examples now fl).1) <= 0.1.
Proof.
  intros H. unfold metaLearn.
  destruct (foldl _ _ examples) as [[net errors] []]; cbn [fst config]; try done.
  by apply adaptLearningStrategy_rate.
Qed.

Lemma metaLearn_keeps_rate_clamped_witness :
  0.001 <= metaLearningRate (config (metaLearn [greeting_example] 1 new_learner).1)
  <= 0.1.
Proof.
  apply (metaLearn_keeps_rate_clamped [greeting_example] 1 new_learner).
  simpl. lra.
Defined.

End FastOps.

(* ===================================================================== *)
(** ** TrainingEngine: the rate at every step, and what a batch counts  *)
(* ===================================================================== *)

Module EngineOps.

Import Engine.
Local Open Scope R_scope.

(** The examples the engine has counted so far. *)
Definition counted (s : FastLearningStats) : nat :=
  (oneShot s + recalled s + traditional s)%nat.

(** An engine without a fast learner. *)
Definition plain_engine : TrainingEngine (Trainer := unit) :=
  mkEngine sample_config tt None 0 false [] (mkStats 0 0 0).

(** *** The learning rate *)



(** X25.  Over exact reals (the doubles of the code can differ in their
    last bits).  The decay is not held at the end of the schedule: from
    [warmupSteps] on the rate repeats every [2 * (maxSteps - warmupSteps)]
    steps, so that after reaching 0 at [maxSteps] it climbs back to
    [learningRate]. *)
Theorem learning_rate_repeats (cfg : TrainingConfig) (s1 s2 : nat) :
  maxSteps cfg <> warmupSteps cfg ->
  warmupSteps cfg <= INR s1 ->
  warmupSteps cfg <= INR s2 ->
  INR s2 = INR s1 + 2 * (maxSteps cfg - warmupSteps cfg) ->
  getLearningRate cfg s2 = getLearningRate cfg s1.
Proof.
  intros Hd H1 H2 E. rewrite !getLearningRate_decay by done.
  rewrite E. f_equal. f_equal.
  replace (PI * ((INR s1 + 2 * (maxSteps cfg - warmupSteps cfg) - warmupSteps cfg)
                 / (maxSteps cfg - warmupSteps cfg)))
    with (PI * ((INR s1 - warmupSteps cfg) / (maxSteps cfg - warmupSteps cfg))
          + 2 * INR 1 * PI)
    by (simpl; field; lra).
  apply cos_period.
Qed.

Lemma learning_rate_repeats_witness :
  getLearningRate sample_config 190 = getLearningRate sample_config 10.
Proof.
  apply (learning_rate_repeats sample_config 10 190).
  - simpl. intros E. lra.
  - rewrite INR_IZR_INZ. change (Z.of_nat 10) with 10%Z. simpl. lra.
  - rewrite INR_IZR_INZ. change (Z.of_nat 190) with 190%Z. simpl. lra.
  - rewrite !INR_IZR_INZ. change (Z.of_nat 10) with 10%Z.
    change (Z.of_nat 190) with 190%Z. simpl. lra.
Defined.

(** *** What a batch counts *)

Section Accounting.

Context {Trainer : Type}.
Variable zeroGrad : Trainer -> Trainer.
Variable trainExample : Trainer -> Queue.TrainingExample -> Trainer * (R * R).
Variable updateWeights : R -> nat -> Trainer -> Trainer.

Local Abbreviation TrainingEngine := (@TrainingEngine Trainer).
Local Abbreviation train_traditional :=
  (train_traditional zeroGrad trainExample updateWeights).
Local Abbreviation trainBatch := (trainBatch zeroGrad trainExample updateWeights).

(** [learnFast] fails only the way [hebbianLearning] does. *)
Lemma learnFast_failed (ex : Queue.TrainingExample) (now : Z) (fl : Fast.FastLearner)
    (c : Neurons.completion) :
  (Fast.learnFast ex now fl).2 = Fast.Failed c -> c <> Neurons.Normal.
Proof.
  unfold Fast.learnFast. destruct (Fast.findSimilar _ fl); [done|].
  destruct (Neurons.hebbianLearning _ _ _) as [net []]; simpl; congruence.
Qed.

(** The first loop hands every example to exactly one of the two
    counters or to the remaining list. *)
Lemma fast_pass_counts (now : Z) (examples : list Queue.TrainingExample)
    (fl fl' : Fast.FastLearner) (stats stats' : FastLearningStats)
    (remaining : list Queue.TrainingExample) :
  fast_pass now examples fl stats = (fl', stats', remaining, Neurons.Normal) ->
  (oneShot stats' + recalled stats' + length remaining
   = oneShot stats + recalled stats + length examples)%nat
  /\ traditional stats' = traditional stats.
Proof.
  unfold fast_pass. revert fl' stats' remaining.
  induction examples as [|ex examples IH] using rev_ind; intros fl' stats' remaining.
  - simpl. intros [= <- <- <-]. simpl. lia.
  - rewrite foldl_app. cbn [foldl].
    destruct (foldl (fast_step now) _ examples) as [[[fl1 stats1] rem1] c1].
    destruct c1; cbn [fast_step]; try discriminate.
    destruct (IH fl1 stats1 rem1 eq_refl) as [Hsum Htrad].
    rewrite length_app. cbn [length].
    pose proof (learnFast_failed ex now fl1) as Hfail.
    destruct (Fast.learnFast ex now fl1) as [fl2 [r|c]];
      [|intros [= _ _ _ ->]; by destruct (Hfail _ eq_refl)].
    destruct (Fast.learned r); [|destruct (Fast.recall r)];
      intros [= <- <- <-]; cbn [oneShot recalled traditional];
      rewrite ?length_app; cbn [length]; lia.
Qed.

Lemma train_traditional_counts (now : Z) (examples : list Queue.TrainingExample)
    (fl : option Fast.FastLearner) (stats : FastLearningStats) (e : TrainingEngine) :
  step (train_traditional now examples fl stats e).1 = S (step e)
  /\ isTraining (train_traditional now examples fl stats e).1 = false
  /\ counted (fastLearningStats (train_traditional now examples fl stats e).1)
     = (counted stats + length examples)%nat.
Proof.
  unfold train_traditional.
  destruct (foldl _ _ examples) as [[tr totalLoss] totalGradNorm].
  unfold counted. simpl. lia.
Qed.

(** X26.  A batch that completes advances [step] by exactly one, leaves
    [isTraining] false, and counts every one of its examples exactly once
    in the fast-learning statistics, as one-shot, recalled or
    traditional. *)
Theorem trainBatch_counts_every_example
    (examples : list Queue.TrainingExample) (now : Z) (e : TrainingEngine)
    (m : TrainingMetrics) :
  (trainBatch examples now e).2 = Completed m ->
  step (trainBatch examples now e).1 = S (step e)
  /\ isTraining (trainBatch examples now e).1 = false
  /\ counted (fastLearningStats (trainBatch examples now e).1)
     = (counted (fastLearningStats e) + length examples)%nat.
Proof.
  unfold trainBatch. destruct (fastLearner e) as [fl|].
  - destruct (fast_pass now examples fl (fastLearningStats e))
      as [[[fl' stats] remaining] c] eqn:Hpass.
    destruct c; try (destruct remaining; discriminate).
    apply fast_pass_counts in Hpass as [Hsum Htrad].
    destruct remaining as [|ex remaining].
    + intros _. unfold counted. simpl in *. lia.
    + destruct (Fast.metaLearn _ now fl') as [fl'' []]; try discriminate.
      intros _.
      destruct (train_traditional_counts now (ex :: remaining) (Some fl'') stats e)
        as (-> & -> & ->).
      unfold counted. simpl in *. lia.
  - intros _.
    destruct (train_traditional_counts now examples None (fastLearningStats e) e)
      as (-> & -> & ->).
    done.
Qed.

Lemma learnFast_wired (ex : Queue.TrainingExample) (now : Z) (fl : Fast.FastLearner) :
  NeuronOps.wired (Fast.neuralNetwork fl) ->
  (exists r, (Fast.learnFast ex now fl).2 = Fast.Returned r)
  /\ NeuronOps.wired (Fast.neuralNetwork (Fast.learnFast ex now fl).1).
Proof.
  intros Hw. unfold Fast.learnFast.
  destruct (Fast.findSimilar _ fl); [simpl; eauto|].
  destruct (Neurons.hebbianLearning_returns (Fast.encodeText (Queue.input ex))
              (Fast.encodeText (Queue.output ex)) (Fast.neuralNetwork fl)
              (proj1 Hw) (FastOps.encodeText_not_nil _)) as [Hc _].
  pose proof (NeuronOps.hebbianLearning_wired (Fast.encodeText (Queue.input ex))
                (Fast.encodeText (Queue.output ex)) (Fast.neuralNetwork fl) Hw) as Hw'.
  destruct (Neurons.hebbianLearning _ _ _) as [net c]. simpl in Hc, Hw'. subst c.
  destruct (_ <? _)%Z; simpl; eauto.
Qed.

Lemma metaLearn_wired (examples : list Queue.TrainingExample) (now : Z)
    (fl : Fast.FastLearner) :
  NeuronOps.wired (Fast.neuralNetwork fl) ->
  (Fast.metaLearn examples now fl).2 = Neurons.Normal
  /\ NeuronOps.wired (Fast.neuralNetwork (Fast.metaLearn examples now fl).1).
Proof.
  intros Hw. unfold Fast.metaLearn.
  assert (let acc := foldl (Fast.meta_step (Fast.config fl))
                       (Fast.neuralNetwork fl, [], Neurons.Normal) examples in
          acc.2 = Neurons.Normal /\ NeuronOps.wired acc.1.1) as Hloop.
  { apply (Neurons.foldl_preserves
             (fun acc => acc.2 = Neurons.Normal /\ NeuronOps.wired acc.1.1)); [|done].
    intros [[net errors] c] ex [Hc Hnet]. simpl in Hc, Hnet. subst c.
    unfold Fast.meta_step.
    destruct (NeuronOps.forward_wired (Fast.encodeText (Queue.input ex)) net Hnet)
      as (Hc & _ & Hnet1).
    destruct (Neurons.forward _ net) as [[net1 c] prediction].
    simpl in Hc, Hnet1. subst c.
    destruct (Neurons.ltR _ _); [|done].
    destruct (Neurons.hebbianLearning_returns (Fast.encodeText (Queue.input ex))
                (Fast.encodeText (Queue.output ex)) net1
                (proj1 Hnet1) (FastOps.encodeText_not_nil _)) as [Hc _].
    pose proof (NeuronOps.hebbianLearning_wired (Fast.encodeText (Queue.input ex))
                  (Fast.encodeText (Queue.output ex)) net1 Hnet1) as Hnet2.
    destruct (Neurons.hebbianLearning _ _ net1) as [net2 c]. done. }
  destruct (foldl _ _ examples) as [[net errors] c].
  destruct Hloop as [Hc Hnet]. simpl in Hc, Hnet. subst c. simpl.
  split; [done|]. unfold Fast.adaptLearningStrategy.
  by destruct (_ <? 10)%nat.
Qed.

Lemma fast_pass_wired (now : Z) (examples : list Queue.TrainingExample)
    (fl : Fast.FastLearner) (stats : FastLearningStats) :
  NeuronOps.wired (Fast.neuralNetwork fl) ->
  (fast_pass now examples fl stats).2 = Neurons.Normal
  /\ NeuronOps.wired (Fast.neuralNetwork (fast_pass now examples fl stats).1.1.1).
Proof.
  intros Hw. unfold fast_pass.
  apply (Neurons.foldl_preserves
           (fun acc => acc.2 = Neurons.Normal
                       /\ NeuronOps.wired (Fast.neuralNetwork acc.1.1.1))); [|done].
  intros [[[fl1 stats1] rem1] c] ex [Hc Hfl]. simpl in Hc, Hfl. subst c.
  unfold fast_step.
  destruct (learnFast_wired ex now fl1 Hfl) as [[r Hr] Hfl'].
  destruct (Fast.learnFast ex now fl1) as [fl2 o]. simpl in Hr, Hfl'. subst o.
  destruct (Fast.learned r); [done|]. by destruct (Fast.recall r).
Qed.

(** X27.  With a fast learner whose network is wired the way the
    constructor builds it, a batch always completes, provided the gradient
    path returns; and the network is still wired afterwards, so that the
    next batch completes as well. *)
Theorem trainBatch_completes
    (examples : list Queue.TrainingExample) (now : Z) (e : TrainingEngine) :
  (forall fl, fastLearner e = Some fl -> NeuronOps.wired (Fast.neuralNetwork fl)) ->
  (exists m, (trainBatch examples now e).2 = Completed m)
  /\ (forall fl, fastLearner (trainBatch examples now e).1 = Some fl ->
        NeuronOps.wired (Fast.neuralNetwork fl)).
Proof.
  intros Hinv. unfold trainBatch. destruct (fastLearner e) as [fl|] eqn:Hfl.
  - specialize (Hinv fl eq_refl).
    destruct (fast_pass_wired now examples fl (fastLearningStats e) Hinv) as [Hc Hw].
    destruct (fast_pass now examples fl (fastLearningStats e))
      as [[[fl' stats] remaining] c].
    simpl in Hc, Hw. subst c.
    destruct remaining as [|ex remaining].
    + simpl. split; [eauto|]. by intros ? [= <-].
    + destruct (metaLearn_wired (ex :: remaining) now fl' Hw) as [Hc Hw'].
      destruct (Fast.metaLearn _ now fl') as [fl'' c]. simpl in Hc, Hw'. subst c.
      destruct (train_traditional_logs zeroGrad trainExample updateWeights now
                  (ex :: remaining) (Some fl'') stats e) as (record & -> & _).
      split; [eauto|]. unfold Engine.train_traditional.
      destruct (foldl _ _ (ex :: remaining)) as [[tr totalLoss] totalGradNorm].
      simpl. by intros ? [= <-].
  - destruct (train_traditional_logs zeroGrad trainExample updateWeights now
                examples None (fastLearningStats e) e) as (record & -> & _).
    split; [eauto|]. unfold Engine.train_traditional.
    destruct (foldl _ _ examples) as [[tr totalLoss] totalGradNorm].
    simpl. done.
Qed.

End Accounting.

Lemma trainBatch_counts_every_example_witness :
  step (trainBatch (fun tr => tr) (fun tr _ => (tr, (0, 0))) (fun _ _ tr => tr)
          [Fast.greeting_example; Fast.blank_example] 1 plain_engine).1
  = S (step plain_engine)
  /\ isTraining (trainBatch (fun tr => tr) (fun tr _ => (tr, (0, 0))) (fun _ _ tr => tr)
                   [Fast.greeting_example; Fast.blank_example] 1 plain_engine).1 = false
  /\ counted (fastLearningStats
                (trainBatch (fun tr => tr) (fun tr _ => (tr, (0, 0))) (fun _ _ tr => tr)
                   [Fast.greeting_example; Fast.blank_example] 1 plain_engine).1)
     = (counted (fastLearningStats plain_engine) + 2)%nat.
Proof.
  apply (trainBatch_counts_every_example (fun tr => tr) (fun tr _ => (tr, (0, 0)))
           (fun _ _ tr => tr) [Fast.greeting_example; Fast.blank_example] 1 plain_engine
           (mkTrainingMetrics 1 ((0 + 0 + 0) / INR 2)
              (getLearningRate sample_config 1) ((0 + 0 + 0) / INR 2) 2 1)).
  reflexivity.
Defined.

Lemma trainBatch_completes_witness :
  (exists m, (trainBatch (fun tr => tr) (fun tr _ => (tr, (0, 0))) (fun _ _ tr => tr)
                [Fast.greeting_example] 1 fresh_engine).2 = Completed m)
  /\ (forall fl,
        fastLearner (trainBatch (fun tr => tr) (fun tr _ => (tr, (0, 0)))
                       (fun _ _ tr => tr) [Fast.greeting_example] 1 fresh_engine).1
        = Some fl ->
        NeuronOps.wired (Fast.neuralNetwork fl)).
Proof.
  apply (trainBatch_completes (fun tr => tr) (fun tr _ => (tr, (0, 0)))
           (fun _ _ tr => tr) [Fast.greeting_example] 1 fresh_engine).
  intros fl [= <-]. apply NeuronOps.constructor_wired.
Defined.

End EngineOps.
